(** * SharedFunctionInfo: a shallow embedding of
      deps/v8/src/objects/shared-function-info.cc

    The record lives on the engine's heap next to the objects it refers to
    (scripts, scope infos, uncompiled data, weak tables).  Several of the
    operations update those objects in place and compare references for
    identity, so the embedding keeps an explicit store of heap cells indexed
    by address and threads it through every operation.  Failure (UNREACHABLE,
    a failed check, a cast of the wrong variant) is the [Fatal] result. *)

From Stdlib Require Import ZArith String Bool.
From stdpp Require Import base option gmap list.

Local Open Scope Z_scope.

(** ** Results of fallible operations *)

Inductive result (A : Type) : Type :=
| Ok (a : A)
| Fatal.
Arguments Ok {A} a.
Arguments Fatal {A}.

Global Instance result_ret : MRet result := λ A a, Ok a.

Global Instance result_bind : MBind result := λ A B k m,
  match m with
  | Ok a => k a
  | Fatal => Fatal
  end.

Global Instance result_fmap : FMap result := λ A B f m,
  match m with
  | Ok a => Ok (f a)
  | Fatal => Fatal
  end.

(** ** Tagged values and heap cells *)

Definition Address := positive.

(** A tagged value: a small integer, one of the two read-only oddballs the
    file uses, an (immutable) string, or a reference to a heap cell. *)
Inductive Object : Type :=
| Smi (value : Z)
| undefined_value
| the_hole_value
| StringObject (chars : string)
| HeapObject (ptr : Address).

Global Instance Object_eq_dec : EqDecision Object.
Proof. solve_decision. Defined.

(** A slot of a weak array: a strong value, a weak reference or a cleared
    weak reference. *)
Inductive MaybeObject : Type :=
| Strong (o : Object)
| Weak (ptr : Address)
| ClearedWeak.

Global Instance MaybeObject_eq_dec : EqDecision MaybeObject.
Proof. solve_decision. Defined.

Inductive BailoutReason : Type :=
| kNoReason
| kBailout (code : Z).

Global Instance BailoutReason_eq_dec : EqDecision BailoutReason.
Proof. solve_decision. Defined.

(** The fields of the record that the operations below read or write.  The
    packed flag words are kept as one field per bit group. *)
Record SharedFunctionInfo : Type := {
  function_data : Object;
  name_or_scope_info : Object;
  raw_outer_scope_info_or_feedback_metadata : Object;
  script_or_debug_info : Object;
  expected_nof_properties : Z;
  properties_are_final : bool;
  is_class_constructor : bool;
  has_reported_binary_coverage : bool;
  disable_optimization_reason : BailoutReason
}.

Record ScopeInfo : Type := {
  PositionInfo : option (Z * Z);
  OuterScopeInfo : option Address;
  FunctionName : option Object;
  InferredFunctionName : option Object
}.

Record Script : Type := {
  Script_id : Z;
  Script_IsUserJavaScript : bool;
  shared_function_infos : Object
}.

Record DebugInfo : Type := {
  DebugInfo_script : Object;
  DebugInfo_HasBreakInfo : bool;
  OriginalBytecodeArray : option Object
}.

Record UncompiledData : Type := {
  UncompiledData_inferred_name : string;
  start_position : Z;
  end_position : Z
}.

Record FunctionLiteral : Type := {
  expected_property_count : Z;
  ShouldEagerCompile : bool
}.

Record WasmFunction : Type := {
  code_offset : Z;
  code_end_offset : Z
}.

Module WasmExportedFunctionData.
Record t : Type := {
  wrapper_code : Object;
  instance : Object;
  function_index : Z
}.
End WasmExportedFunctionData.

Module WasmJSFunctionData.
Record t : Type := { wrapper_code : Object }.
End WasmJSFunctionData.

Module WasmCapiFunctionData.
Record t : Type := { wrapper_code : Object }.
End WasmCapiFunctionData.

Record Code : Type := {
  is_interpreter_trampoline_builtin : bool
}.

Inductive HeapCell : Type :=
| SharedFunctionInfoCell (sfi : SharedFunctionInfo)
| ScopeInfoCell (info : ScopeInfo)
| ScriptCell (script : Script)
| DebugInfoCell (info : DebugInfo)
| WeakFixedArrayCell (slots : list MaybeObject)
| BytecodeArrayCell (bytecode_length : Z)
| InterpreterDataCell (bytecode_array interpreter_trampoline : Object)
| AsmWasmDataCell
| UncompiledDataWithoutPreparseDataCell (data : UncompiledData)
| UncompiledDataWithPreparseDataCell (data : UncompiledData)
    (preparse_data : Object)
| FunctionTemplateInfoCell
| WasmExportedFunctionDataCell (data : WasmExportedFunctionData.t)
| WasmJSFunctionDataCell (data : WasmJSFunctionData.t)
| WasmCapiFunctionDataCell (data : WasmCapiFunctionData.t)
| WasmInstanceObjectCell (functions : list WasmFunction)
| CodeCell (code : Code)
| FeedbackMetadataCell.

Abbreviation Heap := (gmap Address HeapCell).

(** The cell a value refers to, if it refers to one. *)
Definition cell_of (h : Heap) (o : Object) : option HeapCell :=
  match o with
  | HeapObject a => h !! a
  | _ => None
  end.

(** ** Fixed-width conversions *)

Definition to_uint8 (z : Z) : Z := z mod 2 ^ 8.
Definition to_uint16 (z : Z) : Z := z mod 2 ^ 16.
Definition to_uint32 (z : Z) : Z := z mod 2 ^ 32.
Definition to_int32 (z : Z) : Z := (z + 2 ^ 31) mod 2 ^ 32 - 2 ^ 31.

Definition kMaxUInt8 : Z := 255.

(** ** Type tests on tagged values *)

Definition IsSmi (o : Object) : bool :=
  match o with Smi _ => true | _ => false end.

Definition IsUndefined (o : Object) : bool :=
  match o with undefined_value => true | _ => false end.

Definition IsTheHole (o : Object) : bool :=
  match o with the_hole_value => true | _ => false end.

Definition IsScopeInfo (h : Heap) (o : Object) : bool :=
  match cell_of h o with Some (ScopeInfoCell _) => true | _ => false end.

Definition IsScript (h : Heap) (o : Object) : bool :=
  match cell_of h o with Some (ScriptCell _) => true | _ => false end.

Definition IsDebugInfo (h : Heap) (o : Object) : bool :=
  match cell_of h o with Some (DebugInfoCell _) => true | _ => false end.

Definition IsSharedFunctionInfo (h : Heap) (o : Object) : bool :=
  match cell_of h o with
  | Some (SharedFunctionInfoCell _) => true
  | _ => false
  end.

Definition IsBytecodeArray (h : Heap) (o : Object) : bool :=
  match cell_of h o with Some (BytecodeArrayCell _) => true | _ => false end.

Definition IsInterpreterData (h : Heap) (o : Object) : bool :=
  match cell_of h o with Some (InterpreterDataCell _ _) => true | _ => false end.

Definition IsAsmWasmData (h : Heap) (o : Object) : bool :=
  match cell_of h o with Some AsmWasmDataCell => true | _ => false end.

Definition IsUncompiledDataWithPreparseData (h : Heap) (o : Object) : bool :=
  match cell_of h o with
  | Some (UncompiledDataWithPreparseDataCell _ _) => true
  | _ => false
  end.

Definition IsUncompiledDataWithoutPreparseData (h : Heap) (o : Object) : bool :=
  match cell_of h o with
  | Some (UncompiledDataWithoutPreparseDataCell _) => true
  | _ => false
  end.

Definition IsUncompiledData (h : Heap) (o : Object) : bool :=
  IsUncompiledDataWithoutPreparseData h o || IsUncompiledDataWithPreparseData h o.

Definition IsFunctionTemplateInfo (h : Heap) (o : Object) : bool :=
  match cell_of h o with Some FunctionTemplateInfoCell => true | _ => false end.

Definition IsWasmExportedFunctionData (h : Heap) (o : Object) : bool :=
  match cell_of h o with
  | Some (WasmExportedFunctionDataCell _) => true
  | _ => false
  end.

Definition IsWasmJSFunctionData (h : Heap) (o : Object) : bool :=
  match cell_of h o with Some (WasmJSFunctionDataCell _) => true | _ => false end.

Definition IsWasmCapiFunctionData (h : Heap) (o : Object) : bool :=
  match cell_of h o with Some (WasmCapiFunctionDataCell _) => true | _ => false end.

Definition IsCode (h : Heap) (o : Object) : bool :=
  match cell_of h o with Some (CodeCell _) => true | _ => false end.

(** ** Checked casts

    Reading a value under the wrong variant is a programming error; the
    embedding makes every cast fail on the wrong variant. *)

Definition ScopeInfo_cast (h : Heap) (o : Object) : result ScopeInfo :=
  match cell_of h o with Some (ScopeInfoCell info) => Ok info | _ => Fatal end.

Definition Script_cast (h : Heap) (o : Object) : result Script :=
  match cell_of h o with Some (ScriptCell s) => Ok s | _ => Fatal end.

Definition DebugInfo_cast (h : Heap) (o : Object) : result DebugInfo :=
  match cell_of h o with Some (DebugInfoCell d) => Ok d | _ => Fatal end.

Definition UncompiledData_cast (h : Heap) (o : Object) : result UncompiledData :=
  match cell_of h o with
  | Some (UncompiledDataWithoutPreparseDataCell d) => Ok d
  | Some (UncompiledDataWithPreparseDataCell d _) => Ok d
  | _ => Fatal
  end.

Definition WasmExportedFunctionData_cast (h : Heap) (o : Object)
    : result WasmExportedFunctionData.t :=
  match cell_of h o with
  | Some (WasmExportedFunctionDataCell d) => Ok d
  | _ => Fatal
  end.

Definition WasmJSFunctionData_cast (h : Heap) (o : Object)
    : result WasmJSFunctionData.t :=
  match cell_of h o with
  | Some (WasmJSFunctionDataCell d) => Ok d
  | _ => Fatal
  end.

Definition WasmCapiFunctionData_cast (h : Heap) (o : Object)
    : result WasmCapiFunctionData.t :=
  match cell_of h o with
  | Some (WasmCapiFunctionDataCell d) => Ok d
  | _ => Fatal
  end.

Definition Code_cast (h : Heap) (o : Object) : result Code :=
  match cell_of h o with Some (CodeCell c) => Ok c | _ => Fatal end.

Definition BytecodeArray_length (h : Heap) (o : Object) : result Z :=
  match cell_of h o with Some (BytecodeArrayCell n) => Ok n | _ => Fatal end.

Definition String_cast (o : Object) : result string :=
  match o with StringObject s => Ok s | _ => Fatal end.

(** ** WeakFixedArray *)

Definition WeakFixedArray_cast (h : Heap) (o : Object)
    : result (list MaybeObject) :=
  match cell_of h o with Some (WeakFixedArrayCell l) => Ok l | _ => Fatal end.

Definition WeakFixedArray_length (h : Heap) (o : Object) : result Z :=
  l ← WeakFixedArray_cast h o; Ok (Z.of_nat (length l)).

(** Modelled from the spec: [WeakFixedArray::Set] is declared in
    objects/fixed-array.h, which is not part of the sources.  The table is
    fixed-size and index-addressable, and the slot at the index is
    overwritten.  A write at an index outside [0, length) would land outside
    the table, on memory the heap of this model does not describe; the model
    stops there. *)
Definition WeakFixedArray_Set (h : Heap) (o : Object) (index : Z)
    (value : MaybeObject) : result Heap :=
  l ← WeakFixedArray_cast h o;
  match o with
  | HeapObject a =>
      if decide (0 ≤ index ∧ index < Z.of_nat (length l)) then
        Ok (<[a := WeakFixedArrayCell (<[Z.to_nat index := value]> l)]> h)
      else Fatal
  | _ => Fatal
  end.

(** [MaybeObject::GetHeapObjectIfWeak]: the referent of a weak, uncleared
    slot. *)
Definition GetHeapObjectIfWeak (m : MaybeObject) : option Address :=
  match m with Weak a => Some a | _ => None end.

(** ** Record updates *)

(** Copies of a record with one field replaced. *)
Definition with_function_data (r : SharedFunctionInfo) (value : Object)
    : SharedFunctionInfo :=
  {| function_data := value;
     name_or_scope_info := name_or_scope_info r;
     raw_outer_scope_info_or_feedback_metadata := raw_outer_scope_info_or_feedback_metadata r;
     script_or_debug_info := script_or_debug_info r;
     expected_nof_properties := expected_nof_properties r;
     properties_are_final := properties_are_final r;
     is_class_constructor := is_class_constructor r;
     has_reported_binary_coverage := has_reported_binary_coverage r;
     disable_optimization_reason := disable_optimization_reason r |}.

Definition with_raw_outer_scope_info_or_feedback_metadata
    (r : SharedFunctionInfo) (value : Object) : SharedFunctionInfo :=
  {| function_data := function_data r;
     name_or_scope_info := name_or_scope_info r;
     raw_outer_scope_info_or_feedback_metadata := value;
     script_or_debug_info := script_or_debug_info r;
     expected_nof_properties := expected_nof_properties r;
     properties_are_final := properties_are_final r;
     is_class_constructor := is_class_constructor r;
     has_reported_binary_coverage := has_reported_binary_coverage r;
     disable_optimization_reason := disable_optimization_reason r |}.

Definition with_script_or_debug_info (r : SharedFunctionInfo) (value : Object)
    : SharedFunctionInfo :=
  {| function_data := function_data r;
     name_or_scope_info := name_or_scope_info r;
     raw_outer_scope_info_or_feedback_metadata := raw_outer_scope_info_or_feedback_metadata r;
     script_or_debug_info := value;
     expected_nof_properties := expected_nof_properties r;
     properties_are_final := properties_are_final r;
     is_class_constructor := is_class_constructor r;
     has_reported_binary_coverage := has_reported_binary_coverage r;
     disable_optimization_reason := disable_optimization_reason r |}.

Definition with_expected_nof_properties (r : SharedFunctionInfo) (value : Z)
    : SharedFunctionInfo :=
  {| function_data := function_data r;
     name_or_scope_info := name_or_scope_info r;
     raw_outer_scope_info_or_feedback_metadata := raw_outer_scope_info_or_feedback_metadata r;
     script_or_debug_info := script_or_debug_info r;
     expected_nof_properties := value;
     properties_are_final := properties_are_final r;
     is_class_constructor := is_class_constructor r;
     has_reported_binary_coverage := has_reported_binary_coverage r;
     disable_optimization_reason := disable_optimization_reason r |}.

Definition with_properties_are_final (r : SharedFunctionInfo) (value : bool)
    : SharedFunctionInfo :=
  {| function_data := function_data r;
     name_or_scope_info := name_or_scope_info r;
     raw_outer_scope_info_or_feedback_metadata := raw_outer_scope_info_or_feedback_metadata r;
     script_or_debug_info := script_or_debug_info r;
     expected_nof_properties := expected_nof_properties r;
     properties_are_final := value;
     is_class_constructor := is_class_constructor r;
     has_reported_binary_coverage := has_reported_binary_coverage r;
     disable_optimization_reason := disable_optimization_reason r |}.

Definition with_name_or_scope_info (r : SharedFunctionInfo) (value : Object)
    : SharedFunctionInfo :=
  {| function_data := function_data r;
     name_or_scope_info := value;
     raw_outer_scope_info_or_feedback_metadata := raw_outer_scope_info_or_feedback_metadata r;
     script_or_debug_info := script_or_debug_info r;
     expected_nof_properties := expected_nof_properties r;
     properties_are_final := properties_are_final r;
     is_class_constructor := is_class_constructor r;
     has_reported_binary_coverage := has_reported_binary_coverage r;
     disable_optimization_reason := disable_optimization_reason r |}.

(** The bit groups of the flags word that the record carries, read and
    written together. *)
Record Flags : Type := {
  IsClassConstructorBit : bool;
  PropertiesAreFinalBit : bool;
  HasReportedBinaryCoverageBit : bool;
  DisabledOptimizationReasonBits : BailoutReason
}.

Definition flags_of (r : SharedFunctionInfo) : Flags :=
  {| IsClassConstructorBit := is_class_constructor r;
     PropertiesAreFinalBit := properties_are_final r;
     HasReportedBinaryCoverageBit := has_reported_binary_coverage r;
     DisabledOptimizationReasonBits := disable_optimization_reason r |}.

Definition with_flags (r : SharedFunctionInfo) (value : Flags)
    : SharedFunctionInfo :=
  {| function_data := function_data r;
     name_or_scope_info := name_or_scope_info r;
     raw_outer_scope_info_or_feedback_metadata := raw_outer_scope_info_or_feedback_metadata r;
     script_or_debug_info := script_or_debug_info r;
     expected_nof_properties := expected_nof_properties r;
     properties_are_final := PropertiesAreFinalBit value;
     is_class_constructor := IsClassConstructorBit value;
     has_reported_binary_coverage := HasReportedBinaryCoverageBit value;
     disable_optimization_reason := DisabledOptimizationReasonBits value |}.

(** Modelled from the spec: [ConstructAsBuiltinBit::encode] (the bit layout
    is declared in shared-function-info.h, not part of the sources): a flags
    word with the construct-as-builtin bit alone.  That bit is not among the
    bit groups the record carries, so every group carried reads as zero: the
    booleans false, the bailout reason [kNoReason]. *)
Definition ConstructAsBuiltinBit_encode (value : bool) : Flags :=
  {| IsClassConstructorBit := false;
     PropertiesAreFinalBit := false;
     HasReportedBinaryCoverageBit := false;
     DisabledOptimizationReasonBits := kNoReason |}.

(** Modelled from the spec: [DisabledOptimizationReasonBits::update] (bit
    field helper): the flags word with the reason replaced. *)
Definition DisabledOptimizationReasonBits_update (value : Flags)
    (reason : BailoutReason) : Flags :=
  {| IsClassConstructorBit := IsClassConstructorBit value;
     PropertiesAreFinalBit := PropertiesAreFinalBit value;
     HasReportedBinaryCoverageBit := HasReportedBinaryCoverageBit value;
     DisabledOptimizationReasonBits := reason |}.

(** The kinds of code object that DisableOptimization tells apart. *)
Inductive CodeKind : Type :=
| INTERPRETED_FUNCTION
| BUILTIN
| OtherCodeKind.

Global Instance CodeKind_eq_dec : EqDecision CodeKind.
Proof. solve_decision. Defined.

(** ** Concrete records

    The constants of an example engine with small builtin ids, and a few
    heaps on which the operations below are run. *)

Module Examples.

Definition builtin (id : Z) : Object := HeapObject (Z.to_pos (1000 + id)).
Definition kInterpreterEntryTrampoline : Z := 65.
Definition kInstantiateAsmJs : Z := 66.
Definition kCompileLazy : Z := 67.
Definition kHandleApiCall : Z := 68.
Definition kNoSourcePosition : Z := -1.

Definition record (data name unit : Object) : SharedFunctionInfo :=
  {| function_data := data;
     name_or_scope_info := name;
     raw_outer_scope_info_or_feedback_metadata := the_hole_value;
     script_or_debug_info := unit;
     expected_nof_properties := 0;
     properties_are_final := false;
     is_class_constructor := false;
     has_reported_binary_coverage := false;
     disable_optimization_reason := kNoReason |}.

(** A builtin record with id 7 and no source unit. *)
Definition builtin_record : SharedFunctionInfo :=
  record (Smi 7) (StringObject "parseInt") undefined_value.

Definition builtin_heap : Heap :=
  {[ 1%positive := SharedFunctionInfoCell builtin_record ]}.

(** A lazily compiled function: deferred-parse summary, no pre-parse cache. *)
Definition lazy_record : SharedFunctionInfo :=
  record (HeapObject 2%positive) (StringObject "f") undefined_value.

Definition lazy_heap : Heap :=
  <[ 1%positive := SharedFunctionInfoCell lazy_record ]>
  {[ 2%positive := UncompiledDataWithoutPreparseDataCell
       {| UncompiledData_inferred_name := "f";
          start_position := 100; end_position := 250 |} ]}.

(** A compiled function of script 3: bytecode of length 40, and a scope
    descriptor with positions and an inferred name in the name slot. *)
Definition compiled_record : SharedFunctionInfo :=
  record (HeapObject 2%positive) (HeapObject 4%positive) (HeapObject 3%positive).

Definition compiled_heap : Heap :=
  <[ 1%positive := SharedFunctionInfoCell compiled_record ]>
  (<[ 2%positive := BytecodeArrayCell 40 ]>
  (<[ 3%positive := ScriptCell {| Script_id := 12;
                                  Script_IsUserJavaScript := true;
                                  shared_function_infos := HeapObject 5%positive |} ]>
  (<[ 4%positive := ScopeInfoCell
        {| PositionInfo := Some (100, 250);
           OuterScopeInfo := None;
           FunctionName := Some (StringObject "");
           InferredFunctionName := Some (StringObject "obj.method") |} ]>
  {[ 5%positive := WeakFixedArrayCell
       [ClearedWeak; ClearedWeak; ClearedWeak; Weak 1%positive] ]}))).

(** The same function after the table slot at position 3 was given to
    another record (address 9). *)
Definition repurposed_heap : Heap :=
  <[ 5%positive := WeakFixedArrayCell
       [ClearedWeak; ClearedWeak; ClearedWeak; Weak 9%positive] ]>
  compiled_heap.

(** A record whose name slot holds a scope descriptor without position
    data, once with a builtin payload and once with a deferred-parse
    summary. *)
Definition positionless_scope : HeapCell :=
  ScopeInfoCell {| PositionInfo := None; OuterScopeInfo := None;
                   FunctionName := None; InferredFunctionName := None |}.

Definition positionless_builtin_heap : Heap :=
  <[ 1%positive := SharedFunctionInfoCell
       (record (Smi 7) (HeapObject 4%positive) undefined_value) ]>
  {[ 4%positive := positionless_scope ]}.

Definition positionless_lazy_heap : Heap :=
  <[ 1%positive := SharedFunctionInfoCell
       (record (HeapObject 2%positive) (HeapObject 4%positive) undefined_value) ]>
  (<[ 2%positive := UncompiledDataWithoutPreparseDataCell
        {| UncompiledData_inferred_name := "f";
           start_position := 100; end_position := 250 |} ]>
  {[ 4%positive := positionless_scope ]}).

(** A class constructor, before and after its property count was finalized
    at 2. *)
Definition class_constructor_record : SharedFunctionInfo :=
  {| function_data := Smi 7;
     name_or_scope_info := StringObject "Point";
     raw_outer_scope_info_or_feedback_metadata := the_hole_value;
     script_or_debug_info := undefined_value;
     expected_nof_properties := 0;
     properties_are_final := false;
     is_class_constructor := true;
     has_reported_binary_coverage := false;
     disable_optimization_reason := kNoReason |}.

Definition class_constructor_heap : Heap :=
  {[ 1%positive := SharedFunctionInfoCell class_constructor_record ]}.

Definition finalized_record : SharedFunctionInfo :=
  with_properties_are_final
    (with_expected_nof_properties class_constructor_record 2) true.

Definition finalized_heap : Heap :=
  {[ 1%positive := SharedFunctionInfoCell finalized_record ]}.

Definition literal (count : Z) : FunctionLiteral :=
  {| expected_property_count := count; ShouldEagerCompile := true |}.

(** The compiled function with optimization disabled, and the same record
    without bytecode (still lazy). *)
Definition disabled (r : SharedFunctionInfo) : SharedFunctionInfo :=
  {| function_data := function_data r;
     name_or_scope_info := name_or_scope_info r;
     raw_outer_scope_info_or_feedback_metadata :=
       raw_outer_scope_info_or_feedback_metadata r;
     script_or_debug_info := script_or_debug_info r;
     expected_nof_properties := expected_nof_properties r;
     properties_are_final := properties_are_final r;
     is_class_constructor := is_class_constructor r;
     has_reported_binary_coverage := has_reported_binary_coverage r;
     disable_optimization_reason := kBailout 1 |}.

Definition disabled_heap : Heap :=
  <[ 1%positive := SharedFunctionInfoCell (disabled compiled_record) ]>
  compiled_heap.

Definition disabled_lazy_heap : Heap :=
  <[ 2%positive := UncompiledDataWithoutPreparseDataCell
       {| UncompiledData_inferred_name := "obj.method";
          start_position := 100; end_position := 250 |} ]>
  disabled_heap.

Definition hash_combine (seed value : Z) : Z := seed * 31 + value.

(** The address of the record in every example heap. *)
Definition this : Address := 1%positive.

(** A function whose payload is interpreter data, with a code object in the
    trampoline slot that is not an interpreter trampoline. *)
Definition unvalidated_trampoline_heap : Heap :=
  <[ 1%positive := SharedFunctionInfoCell
       (record (HeapObject 2%positive) (StringObject "g") undefined_value) ]>
  (<[ 2%positive := InterpreterDataCell (HeapObject 3%positive)
                      (HeapObject 6%positive) ]>
  (<[ 3%positive := BytecodeArrayCell 40 ]>
  {[ 6%positive := CodeCell {| is_interpreter_trampoline_builtin := false |} ]})).

(** The compiled function before it is attached: no source unit, and the
    slot at position 3 of the unit's table empty. *)
Definition unattached_heap : Heap :=
  <[ 1%positive := SharedFunctionInfoCell
       (record (HeapObject 2%positive) (HeapObject 4%positive)
          undefined_value) ]>
  (<[ 5%positive := WeakFixedArrayCell
        [ClearedWeak; ClearedWeak; ClearedWeak; ClearedWeak] ]>
   compiled_heap).

(** The compiled function under the debugger: a debug info with break
    points stands between the record and its unit. *)
Definition debugged_heap : Heap :=
  <[ 1%positive := SharedFunctionInfoCell
       (record (HeapObject 2%positive) (HeapObject 4%positive)
          (HeapObject 6%positive)) ]>
  (<[ 6%positive := DebugInfoCell
        {| DebugInfo_script := HeapObject 3%positive;
           DebugInfo_HasBreakInfo := true;
           OriginalBytecodeArray := None |} ]>
   compiled_heap).

(** A second unit next to the one the compiled function belongs to. *)
Definition two_unit_heap : Heap :=
  <[ 7%positive := ScriptCell {| Script_id := 13;
                                 Script_IsUserJavaScript := true;
                                 shared_function_infos := HeapObject 8%positive |} ]>
  (<[ 8%positive := WeakFixedArrayCell [ClearedWeak; ClearedWeak;
                                        ClearedWeak; ClearedWeak] ]>
   compiled_heap).

(** An engine whose memory around a table reads as the Smi zero. *)
Definition out_of_bounds_read (h : Heap) (o : Object) (index : Z)
    : MaybeObject := Strong (Smi 0).

Definition kIllegal : Z := 0.

(** An engine whose code objects are all builtins. *)
Definition Code_kind (h : Heap) (code : Object) : result CodeKind := Ok BUILTIN.

End Examples.

(** ** The engine the record runs in *)

Section Engine.

(** Whether debug checks ([DCHECK], [#ifdef DEBUG]) are compiled in. *)
Variable DEBUG : bool.

(** [isolate->builtins()->builtin(id)] and the builtin ids the file names. *)
Variable builtin : Z → Object.
Variables kInterpreterEntryTrampoline kInstantiateAsmJs kCompileLazy
  kHandleApiCall : Z.

(** The "no position" sentinel of common/globals.h. *)
Variable kNoSourcePosition : Z.

(** [isolate->is_precise_binary_code_coverage()] and the inlining budget
    flag. *)
Variable is_precise_binary_code_coverage : bool.
Variable FLAG_max_inlined_bytecode_size : Z.

(** [base::hash_combine] on two ints, as a [size_t]. *)
Variable hash_combine : Z → Z → Z.

(** A debug check: evaluated, and fatal when false, only in debug builds. *)
Definition DCHECK (cond : result bool) : result () :=
  if DEBUG then b ← cond; if b : bool then Ok () else Fatal else Ok ().

(** ** Reading a weak table *)

(** What a release build finds at an offset outside a table: whatever the
    engine's memory holds there. *)
Variable out_of_bounds_read : Heap → Object → Z → MaybeObject.

(** Modelled from the spec: [WeakFixedArray::Get] is declared in
    objects/fixed-array.h, which is not part of the sources: the slot at the
    index.  The bounds are checked where debug checks are on; without them
    the word at the index's offset is returned as it is found, also outside
    the table. *)
Definition WeakFixedArray_Get (h : Heap) (o : Object) (index : Z)
    : result MaybeObject :=
  l ← WeakFixedArray_cast h o;
  DCHECK (Ok (bool_decide (0 ≤ index < Z.of_nat (length l))));;
  Ok (if decide (0 ≤ index)
      then default (out_of_bounds_read h o index) (l !! Z.to_nat index)
      else out_of_bounds_read h o index).

(** ** Field access *)

Definition load (h : Heap) (this : Address) : result SharedFunctionInfo :=
  match h !! this with
  | Some (SharedFunctionInfoCell r) => Ok r
  | _ => Fatal
  end.

Definition store (h : Heap) (this : Address) (r : SharedFunctionInfo) : Heap :=
  <[this := SharedFunctionInfoCell r]> h.

Definition set_function_data (h : Heap) (this : Address) (data : Object)
    : result Heap :=
  r ← load h this; Ok (store h this (with_function_data r data)).

Definition set_raw_outer_scope_info_or_feedback_metadata (h : Heap)
    (this : Address) (value : Object) : result Heap :=
  r ← load h this;
  Ok (store h this (with_raw_outer_scope_info_or_feedback_metadata r value)).

Definition set_script_or_debug_info (h : Heap) (this : Address)
    (value : Object) : result Heap :=
  r ← load h this; Ok (store h this (with_script_or_debug_info r value)).

(** The field is eight bits wide; the setter's argument is converted to it. *)
Definition set_expected_nof_properties (h : Heap) (this : Address)
    (value : Z) : result Heap :=
  r ← load h this;
  Ok (store h this (with_expected_nof_properties r (to_uint8 value))).

(** Modelled from the spec: [are_properties_final] and
    [set_are_properties_final] (inline header): the finalized state is kept
    for class constructors only.  The getter is the bit on a class
    constructor and false on any other record; the setter writes the bit on
    a class constructor and does nothing on any other record. *)
Definition are_properties_final (h : Heap) (this : Address) : result bool :=
  r ← load h this; Ok (properties_are_final r && is_class_constructor r).

Definition set_are_properties_final (h : Heap) (this : Address)
    (value : bool) : result Heap :=
  r ← load h this;
  if is_class_constructor r
  then Ok (store h this (with_properties_are_final r value))
  else Ok h.

(** ** Inline predicates and accessors of the record *)

(** Modelled from the spec: [HasBuiltinId] (shared-function-info-inl.h is not
    part of the sources): the payload is a builtin reference, held as a Smi. *)
Definition HasBuiltinId (h : Heap) (this : Address) : result bool :=
  r ← load h this; Ok (IsSmi (function_data r)).

(** Modelled from the spec: [builtin_id] (inline header): the id of the
    builtin reference; reading it under another variant is fatal. *)
Definition builtin_id (h : Heap) (this : Address) : result Z :=
  r ← load h this;
  match function_data r with Smi v => Ok v | _ => Fatal end.

(** Modelled from the spec: [HasBytecodeArray] (inline header): a bytecode
    program is attached, directly or inside interpreter-trampoline data. *)
Definition HasBytecodeArray (h : Heap) (this : Address) : result bool :=
  r ← load h this;
  Ok (IsBytecodeArray h (function_data r)
      || IsInterpreterData h (function_data r)).

(** Modelled from the spec: [HasAsmWasmData] (inline header). *)
Definition HasAsmWasmData (h : Heap) (this : Address) : result bool :=
  r ← load h this; Ok (IsAsmWasmData h (function_data r)).

(** Modelled from the spec: [HasUncompiledData] (inline header): the payload
    is a deferred-parse summary, with or without a pre-parse cache. *)
Definition HasUncompiledData (h : Heap) (this : Address) : result bool :=
  r ← load h this; Ok (IsUncompiledData h (function_data r)).

(** Modelled from the spec: [HasUncompiledDataWithPreparseData] (inline
    header). *)
Definition HasUncompiledDataWithPreparseData (h : Heap) (this : Address)
    : result bool :=
  r ← load h this; Ok (IsUncompiledDataWithPreparseData h (function_data r)).

(** Modelled from the spec: [HasUncompiledDataWithoutPreparseData] (inline
    header). *)
Definition HasUncompiledDataWithoutPreparseData (h : Heap) (this : Address)
    : result bool :=
  r ← load h this;
  Ok (IsUncompiledDataWithoutPreparseData h (function_data r)).

(** Modelled from the spec: [IsApiFunction] (inline header): the payload is a
    host-API template. *)
Definition IsApiFunction (h : Heap) (this : Address) : result bool :=
  r ← load h this; Ok (IsFunctionTemplateInfo h (function_data r)).

(** Modelled from the spec: [HasWasmExportedFunctionData] (inline header). *)
Definition HasWasmExportedFunctionData (h : Heap) (this : Address)
    : result bool :=
  r ← load h this; Ok (IsWasmExportedFunctionData h (function_data r)).

(** Modelled from the spec: [HasWasmJSFunctionData] (inline header). *)
Definition HasWasmJSFunctionData (h : Heap) (this : Address) : result bool :=
  r ← load h this; Ok (IsWasmJSFunctionData h (function_data r)).

(** Modelled from the spec: [HasWasmCapiFunctionData] (inline header). *)
Definition HasWasmCapiFunctionData (h : Heap) (this : Address) : result bool :=
  r ← load h this; Ok (IsWasmCapiFunctionData h (function_data r)).

(** Modelled from the spec: [HasInterpreterData] (inline header). *)
Definition HasInterpreterData (h : Heap) (this : Address) : result bool :=
  r ← load h this; Ok (IsInterpreterData h (function_data r)).

(** Modelled from the spec: [InterpreterTrampoline] (inline header): the code
    object stored in the interpreter-trampoline data. *)
Definition InterpreterTrampoline (h : Heap) (this : Address) : result Object :=
  DCHECK (HasInterpreterData h this);;
  r ← load h this;
  match cell_of h (function_data r) with
  | Some (InterpreterDataCell _ trampoline) => Ok trampoline
  | _ => Fatal
  end.

(** Modelled from the spec: [is_compiled] (inline header): the record is
    compiled unless its payload is a deferred-parse summary or the
    lazy-compile builtin. *)
Definition is_compiled (h : Heap) (this : Address) : result bool :=
  r ← load h this;
  Ok (negb (bool_decide (function_data r = Smi kCompileLazy))
      && negb (IsUncompiledData h (function_data r))).

(** Modelled from the spec: [uncompiled_data] (inline header): the
    deferred-parse summary; fatal under any other payload. *)
Definition uncompiled_data (h : Heap) (this : Address) : result UncompiledData :=
  DCHECK (HasUncompiledData h this);;
  r ← load h this;
  UncompiledData_cast h (function_data r).

(** Modelled from the spec: [ClearPreparseData] (inline header): the
    pre-parse cache is dropped in place; the summary object keeps its
    address, name and positions and becomes one without a cache. *)
Definition ClearPreparseData (h : Heap) (this : Address) : result Heap :=
  DCHECK (HasUncompiledDataWithPreparseData h this);;
  r ← load h this;
  match function_data r with
  | HeapObject a =>
      match h !! a with
      | Some (UncompiledDataWithPreparseDataCell d _) =>
          Ok (<[a := UncompiledDataWithoutPreparseDataCell d]> h)
      | _ => Fatal
      end
  | _ => Fatal
  end.

(** Modelled from the spec: the position setters of the deferred-parse
    summary (uncompiled data declarations are not part of the sources); the
    summary is updated in place and keeps its variant. *)
Definition UncompiledData_set_positions (h : Heap) (o : Object)
    (set : UncompiledData → UncompiledData) : result Heap :=
  match o with
  | HeapObject a =>
      match h !! a with
      | Some (UncompiledDataWithoutPreparseDataCell d) =>
          Ok (<[a := UncompiledDataWithoutPreparseDataCell (set d)]> h)
      | Some (UncompiledDataWithPreparseDataCell d p) =>
          Ok (<[a := UncompiledDataWithPreparseDataCell (set d) p]> h)
      | _ => Fatal
      end
  | _ => Fatal
  end.

Definition set_start_position (h : Heap) (this : Address) (value : Z)
    : result Heap :=
  DCHECK (HasUncompiledData h this);;
  r ← load h this;
  UncompiledData_set_positions h (function_data r) (λ d,
    {| UncompiledData_inferred_name := UncompiledData_inferred_name d;
       start_position := value;
       end_position := end_position d |}).

Definition set_end_position (h : Heap) (this : Address) (value : Z)
    : result Heap :=
  DCHECK (HasUncompiledData h this);;
  r ← load h this;
  UncompiledData_set_positions h (function_data r) (λ d,
    {| UncompiledData_inferred_name := UncompiledData_inferred_name d;
       start_position := start_position d;
       end_position := value |}).

(** Modelled from the spec: [Factory::NewUncompiledDataWithoutPreparseData]
    (the allocator is an external collaborator): a fresh deferred-parse
    summary without pre-parse cache holding the given name and positions. *)
Definition NewUncompiledDataWithoutPreparseData (h : Heap)
    (inferred_name : string) (start_position end_position : Z)
    : Object * Heap :=
  let a := fresh (dom h) in
  (HeapObject a,
   <[a := UncompiledDataWithoutPreparseDataCell
            {| UncompiledData_inferred_name := inferred_name;
               start_position := start_position;
               end_position := end_position |}]> h).

(** The scope info the read-only roots provide for records without one. *)
Definition empty_scope_info : ScopeInfo :=
  {| PositionInfo := None; OuterScopeInfo := None;
     FunctionName := None; InferredFunctionName := None |}.

Definition HasPositionInfo (info : ScopeInfo) : bool :=
  bool_decide (is_Some (PositionInfo info)).

Definition HasOuterScopeInfo (info : ScopeInfo) : bool :=
  bool_decide (is_Some (OuterScopeInfo info)).

(** Modelled from the spec: [ScopeInfo::StartPosition] and
    [ScopeInfo::EndPosition] (scope-info.cc is not part of the sources): the
    embedded positions, readable only when the scope info carries them. *)
Definition ScopeInfo_StartPosition (info : ScopeInfo) : result Z :=
  match PositionInfo info with Some (p, _) => Ok p | None => Fatal end.

Definition ScopeInfo_EndPosition (info : ScopeInfo) : result Z :=
  match PositionInfo info with Some (_, p) => Ok p | None => Fatal end.

(** Modelled from the spec: [ScopeInfo::SetPositionInfo] (scope-info.cc is
    not part of the sources): the embedded positions of a scope info that
    carries position data are overwritten in place. *)
Definition SetPositionInfo (h : Heap) (o : Object) (start_pos end_pos : Z)
    : result Heap :=
  info ← ScopeInfo_cast h o;
  DCHECK (Ok (HasPositionInfo info));;
  match o with
  | HeapObject a =>
      Ok (<[a := ScopeInfoCell
                   {| PositionInfo := Some (start_pos, end_pos);
                      OuterScopeInfo := OuterScopeInfo info;
                      FunctionName := FunctionName info;
                      InferredFunctionName := InferredFunctionName info |}]> h)
  | _ => Fatal
  end.

(** Modelled from the spec: [scope_info] (inline header): the scope
    descriptor in the name slot, or the empty one. *)
Definition scope_info (h : Heap) (this : Address) : result ScopeInfo :=
  r ← load h this;
  if IsScopeInfo h (name_or_scope_info r)
  then ScopeInfo_cast h (name_or_scope_info r)
  else Ok empty_scope_info.

(** Modelled from the spec: [script] (inline header): the owning source
    unit, read through the debug info when one is attached. *)
Definition script (h : Heap) (this : Address) : result Object :=
  r ← load h this;
  if IsDebugInfo h (script_or_debug_info r)
  then d ← DebugInfo_cast h (script_or_debug_info r); Ok (DebugInfo_script d)
  else Ok (script_or_debug_info r).

(** Modelled from the spec: [set_script] (inline header): the source-unit
    reference is written where [script] reads it. *)
Definition set_script (h : Heap) (this : Address) (script_object : Object)
    : result Heap :=
  r ← load h this;
  match script_or_debug_info r with
  | HeapObject a =>
      match h !! a with
      | Some (DebugInfoCell d) =>
          Ok (<[a := DebugInfoCell
                       {| DebugInfo_script := script_object;
                          DebugInfo_HasBreakInfo := DebugInfo_HasBreakInfo d;
                          OriginalBytecodeArray := OriginalBytecodeArray d |}]> h)
      | _ => set_script_or_debug_info h this script_object
      end
  | _ => set_script_or_debug_info h this script_object
  end.

(** Modelled from the spec: [HasDebugInfo] and [GetDebugInfo] (inline
    header). *)
Definition HasDebugInfo (h : Heap) (this : Address) : result bool :=
  r ← load h this; Ok (IsDebugInfo h (script_or_debug_info r)).

Definition GetDebugInfo (h : Heap) (this : Address) : result DebugInfo :=
  DCHECK (HasDebugInfo h this);;
  r ← load h this; DebugInfo_cast h (script_or_debug_info r).

(** Modelled from the spec: [HasFeedbackMetadata] and [outer_scope_info]
    (inline header): the reused slot read as the outer scope descriptor,
    which is only legal while the record is not compiled. *)
Definition HasFeedbackMetadata (h : Heap) (this : Address) : result bool :=
  r ← load h this;
  Ok match cell_of h (raw_outer_scope_info_or_feedback_metadata r) with
     | Some FeedbackMetadataCell => true
     | _ => false
     end.

Definition outer_scope_info (h : Heap) (this : Address) : result Object :=
  DCHECK (negb <$> is_compiled h this);;
  DCHECK (negb <$> HasFeedbackMetadata h this);;
  r ← load h this; Ok (raw_outer_scope_info_or_feedback_metadata r).

(** Modelled from the spec: [CanDiscardCompiled] (inline header): bytecode,
    foreign-module data or a cached pre-parse scope can be dropped. *)
Definition CanDiscardCompiled (h : Heap) (this : Address) : result bool :=
  b1 ← HasBytecodeArray h this;
  b2 ← HasAsmWasmData h this;
  b3 ← HasUncompiledDataWithPreparseData h this;
  Ok (b1 || b2 || b3).

(** Modelled from the spec: [kNoSharedNameSentinel] (its value is given in
    shared-function-info.h, not part of the sources): the "no name" sentinel
    of the name slot. *)
Definition kNoSharedNameSentinel : Object := Smi 0.

(** Modelled from the spec: [Name] (inline header): the resolved display
    name held by the name slot, directly or inside the scope descriptor; the
    empty string when the slot holds the "no name" sentinel. *)
Definition Name (h : Heap) (this : Address) : result string :=
  r ← load h this;
  let value := name_or_scope_info r in
  if IsScopeInfo h value then
    info ← ScopeInfo_cast h value;
    match FunctionName info with
    | Some name =>
        if bool_decide (name = kNoSharedNameSentinel) then Ok EmptyString
        else String_cast name
    | None => Ok EmptyString
    end
  else if bool_decide (value = kNoSharedNameSentinel) then Ok EmptyString
  else String_cast value.

(** Modelled from the spec: [inferred_name] (inline header): the inferred
    name kept by the scope descriptor in the name slot, else by the
    deferred-parse summary, else the empty string. *)
Definition inferred_name (h : Heap) (this : Address) : result string :=
  r ← load h this;
  let maybe_scope_info := name_or_scope_info r in
  if IsScopeInfo h maybe_scope_info then
    info ← ScopeInfo_cast h maybe_scope_info;
    match InferredFunctionName info with
    | Some (StringObject name) => Ok name
    | _ => Ok EmptyString
    end
  else
    b ← HasUncompiledData h this;
    if b : bool then d ← uncompiled_data h this; Ok (UncompiledData_inferred_name d)
    else Ok EmptyString.

(** Modelled from the spec: [optimization_disabled] (inline header):
    optimization is disabled when a bailout reason is recorded. *)
Definition optimization_disabled (h : Heap) (this : Address) : result bool :=
  r ← load h this;
  Ok (negb (bool_decide (disable_optimization_reason r = kNoReason))).

(** Modelled from the spec: [IsUserJavaScript] (inline header): the owning
    source unit exists and is user code. *)
Definition IsUserJavaScript (h : Heap) (this : Address) : result bool :=
  script_obj ← script h this;
  if IsUndefined script_obj then Ok false
  else s ← Script_cast h script_obj; Ok (Script_IsUserJavaScript s).

(** Modelled from the spec: [GetBytecodeArray] (inline header): the bytecode
    program of the record; the original one when the debugger has
    instrumented it. *)
Definition GetBytecodeArray (h : Heap) (this : Address) : result Object :=
  DCHECK (HasBytecodeArray h this);;
  has_debug_info ← HasDebugInfo h this;
  original ← (if has_debug_info : bool
              then d ← GetDebugInfo h this; Ok (OriginalBytecodeArray d)
              else Ok None);
  match original with
  | Some bytecode => Ok bytecode
  | None =>
      r ← load h this;
      let data := function_data r in
      if IsBytecodeArray h data then Ok data
      else
        match cell_of h data with
        | Some (InterpreterDataCell bytecode _) => Ok bytecode
        | _ => Fatal
        end
  end.

(** Modelled from the spec: [instance.module()->functions[func_index]] (the
    wasm module declarations are not part of the sources): the entry of the
    foreign module's per-function table; an index outside the table is not
    an entry of it. *)
Definition module_function (h : Heap) (instance : Object) (func_index : Z)
    : result WasmFunction :=
  match cell_of h instance with
  | Some (WasmInstanceObjectCell functions) =>
      if decide (0 ≤ func_index) then
        match functions !! Z.to_nat func_index with
        | Some function => Ok function
        | None => Fatal
        end
      else Fatal
  | _ => Fatal
  end.

(** ** The operations of shared-function-info.cc *)

Definition wasm_exported_function_data (h : Heap) (this : Address)
    : result WasmExportedFunctionData.t :=
  DCHECK (HasWasmExportedFunctionData h this);;
  r ← load h this;
  WasmExportedFunctionData_cast h (function_data r).

Definition wasm_js_function_data (h : Heap) (this : Address)
    : result WasmJSFunctionData.t :=
  DCHECK (HasWasmJSFunctionData h this);;
  r ← load h this;
  WasmJSFunctionData_cast h (function_data r).

Definition wasm_capi_function_data (h : Heap) (this : Address)
    : result WasmCapiFunctionData.t :=
  DCHECK (HasWasmCapiFunctionData h this);;
  r ← load h this;
  WasmCapiFunctionData_cast h (function_data r).

Definition GetCode (h : Heap) (this : Address) : result Object :=
  r ← load h this;
  let data := function_data r in
  if IsSmi data then
    DCHECK (HasBuiltinId h this);;
    id ← builtin_id h this;
    Ok (builtin id)
  else if IsBytecodeArray h data then
    DCHECK (HasBytecodeArray h this);;
    Ok (builtin kInterpreterEntryTrampoline)
  else if IsAsmWasmData h data then
    DCHECK (HasAsmWasmData h this);;
    Ok (builtin kInstantiateAsmJs)
  else if IsUncompiledData h data then
    DCHECK (HasUncompiledData h this);;
    Ok (builtin kCompileLazy)
  else if IsFunctionTemplateInfo h data then
    DCHECK (IsApiFunction h this);;
    Ok (builtin kHandleApiCall)
  else if IsWasmExportedFunctionData h data then
    DCHECK (HasWasmExportedFunctionData h this);;
    d ← wasm_exported_function_data h this;
    Ok (WasmExportedFunctionData.wrapper_code d)
  else if IsInterpreterData h data then
    code ← InterpreterTrampoline h this;
    DCHECK (Ok (IsCode h code));;
    DCHECK (is_interpreter_trampoline_builtin <$> Code_cast h code);;
    Ok code
  else if IsWasmJSFunctionData h data then
    d ← wasm_js_function_data h this;
    Ok (WasmJSFunctionData.wrapper_code d)
  else if IsWasmCapiFunctionData h data then
    d ← wasm_capi_function_data h this;
    Ok (WasmCapiFunctionData.wrapper_code d)
  else Fatal.

Definition StartPosition (h : Heap) (this : Address) : result Z :=
  r ← load h this;
  let maybe_scope_info := name_or_scope_info r in
  from_scope ← (if IsScopeInfo h maybe_scope_info then
                  info ← ScopeInfo_cast h maybe_scope_info;
                  if HasPositionInfo info
                  then Some <$> ScopeInfo_StartPosition info
                  else Ok None
                else Ok None);
  match from_scope with
  | Some position => Ok position
  | None =>
      has_uncompiled_data ← HasUncompiledData h this;
      if has_uncompiled_data : bool then
        d ← uncompiled_data h this; Ok (start_position d)
      else
        is_api_function ← IsApiFunction h this;
        has_builtin_id ← HasBuiltinId h this;
        if is_api_function || has_builtin_id then
          DCHECK (if has_builtin_id
                  then id ← builtin_id h this;
                       Ok (negb (bool_decide (id = kCompileLazy)))
                  else Ok true);;
          Ok 0
        else
          has_wasm_exported ← HasWasmExportedFunctionData h this;
          if has_wasm_exported : bool then
            d ← wasm_exported_function_data h this;
            let instance := WasmExportedFunctionData.instance d in
            let func_index := WasmExportedFunctionData.function_index d in
            function ← module_function h instance func_index;
            Ok (to_int32 (code_offset function))
          else Ok kNoSourcePosition
  end.

Definition EndPosition (h : Heap) (this : Address) : result Z :=
  r ← load h this;
  let maybe_scope_info := name_or_scope_info r in
  from_scope ← (if IsScopeInfo h maybe_scope_info then
                  info ← ScopeInfo_cast h maybe_scope_info;
                  if HasPositionInfo info
                  then Some <$> ScopeInfo_EndPosition info
                  else Ok None
                else Ok None);
  match from_scope with
  | Some position => Ok position
  | None =>
      has_uncompiled_data ← HasUncompiledData h this;
      if has_uncompiled_data : bool then
        d ← uncompiled_data h this; Ok (end_position d)
      else
        is_api_function ← IsApiFunction h this;
        has_builtin_id ← HasBuiltinId h this;
        if is_api_function || has_builtin_id then
          DCHECK (if has_builtin_id
                  then id ← builtin_id h this;
                       Ok (negb (bool_decide (id = kCompileLazy)))
                  else Ok true);;
          Ok 0
        else
          has_wasm_exported ← HasWasmExportedFunctionData h this;
          if has_wasm_exported : bool then
            d ← wasm_exported_function_data h this;
            let instance := WasmExportedFunctionData.instance d in
            let func_index := WasmExportedFunctionData.function_index d in
            function ← module_function h instance func_index;
            Ok (to_int32 (code_end_offset function))
          else Ok kNoSourcePosition
  end.

(** The difference of two ints is an int. *)
Definition SourceSize (h : Heap) (this : Address) : result Z :=
  end_pos ← EndPosition h this;
  start_pos ← StartPosition h this;
  Ok (to_int32 (end_pos - start_pos)).

Definition SetPosition (h : Heap) (this : Address)
    (start_position end_position : Z) : result Heap :=
  r ← load h this;
  let maybe_scope_info := name_or_scope_info r in
  if IsScopeInfo h maybe_scope_info then
    info ← ScopeInfo_cast h maybe_scope_info;
    if HasPositionInfo info
    then SetPositionInfo h maybe_scope_info start_position end_position
    else Ok h
  else
    has_uncompiled_data ← HasUncompiledData h this;
    if has_uncompiled_data : bool then
      with_preparse_data ← HasUncompiledDataWithPreparseData h this;
      h ← (if with_preparse_data : bool
           then ClearPreparseData h this else Ok h);
      h ← set_start_position h this start_position;
      set_end_position h this end_position
    else Fatal.

Definition Hash (h : Heap) (this : Address) : result Z :=
  start_pos ← StartPosition h this;
  script_object ← script h this;
  script_id ← (if IsScript h script_object
               then Script_id <$> Script_cast h script_object else Ok 0);
  Ok (to_uint32 (hash_combine start_pos script_id)).

Definition SetScript (h : Heap) (this : Address) (script_object : Object)
    (function_literal_id : Z) (reset_preparsed_scope_data : bool)
    : result Heap :=
  current ← script h this;
  if bool_decide (current = script_object) then Ok h else
  with_preparse_data ← (if reset_preparsed_scope_data
                        then HasUncompiledDataWithPreparseData h this
                        else Ok false);
  h ← (if with_preparse_data : bool then ClearPreparseData h this else Ok h);
  h ← (if IsScript h script_object then
         DCHECK (negb <$> (IsScript h <$> script h this));;
         new_script ← Script_cast h script_object;
         let list := shared_function_infos new_script in
         (if DEBUG then
            DCHECK ((λ len, bool_decide (function_literal_id < len))
                    <$> WeakFixedArray_length h list);;
            maybe_object ← WeakFixedArray_Get h list function_literal_id;
            match GetHeapObjectIfWeak maybe_object with
            | Some heap_object => DCHECK (Ok (bool_decide (heap_object = this)))
            | None => Ok ()
            end
          else Ok ());;
         WeakFixedArray_Set h list function_literal_id (Weak this)
       else
         DCHECK (IsScript h <$> script h this);;
         old ← script h this;
         old_script ← Script_cast h old;
         let infos := shared_function_infos old_script in
         len ← WeakFixedArray_length h infos;
         if bool_decide (function_literal_id < len) then
           raw ← WeakFixedArray_Get h infos function_literal_id;
           match GetHeapObjectIfWeak raw with
           | Some heap_object =>
               if bool_decide (heap_object = this)
               then WeakFixedArray_Set h infos function_literal_id
                      (Strong undefined_value)
               else Ok h
           | None => Ok h
           end
         else Ok h);
  set_script h this script_object.

Definition HasBreakInfo (h : Heap) (this : Address) : result bool :=
  has_debug_info ← HasDebugInfo h this;
  if has_debug_info : bool then
    info ← GetDebugInfo h this;
    Ok (DebugInfo_HasBreakInfo info)
  else Ok false.

Definition DebugName (h : Heap) (this : Address) : result string :=
  function_name ← Name h this;
  if bool_decide (0 < Z.of_nat (String.length function_name))
  then Ok function_name
  else inferred_name h this.

(** The notification callback receives the record, the updated slot and its
    new target; trace output under [FLAG_trace_flush_bytecode] is not part of
    the heap and is left out. *)
Definition DiscardCompiledMetadata (h : Heap) (this : Address)
    (gc_notify_updated_slot : Address → Object → Heap → result Heap)
    : result Heap :=
  compiled ← is_compiled h this;
  if compiled : bool then
    info ← scope_info h this;
    let outer_scope_info :=
      if HasOuterScopeInfo info then
        match OuterScopeInfo info with
        | Some outer => HeapObject outer
        | None => the_hole_value
        end
      else the_hole_value in
    h ← set_raw_outer_scope_info_or_feedback_metadata h this outer_scope_info;
    gc_notify_updated_slot this outer_scope_info h
  else
    DCHECK (outer ← outer_scope_info h this;
            Ok (IsScopeInfo h outer || IsTheHole outer));;
    Ok h.

(** The header's default notification callback does nothing. *)
Definition DiscardCompiled (h : Heap) (shared_info : Address) : result Heap :=
  DCHECK (CanDiscardCompiled h shared_info);;
  inferred_name_val ← inferred_name h shared_info;
  start_position ← StartPosition h shared_info;
  end_position ← EndPosition h shared_info;
  h ← DiscardCompiledMetadata h shared_info (λ _ _ h, Ok h);
  with_preparse_data ← HasUncompiledDataWithPreparseData h shared_info;
  if with_preparse_data : bool then
    ClearPreparseData h shared_info
  else
    let '(data, h) := NewUncompiledDataWithoutPreparseData h
                        inferred_name_val start_position end_position in
    set_function_data h shared_info data.

Inductive Inlineability : Type :=
| kIsInlineable
| kHasNoScript
| kNeedsBinaryCoverage
| kHasOptimizationDisabled
| kIsBuiltin
| kIsNotUserCode
| kHasNoBytecode
| kExceedsBytecodeLimit
| kMayContainBreakPoints.

Definition GetInlineability (h : Heap) (this : Address) : result Inlineability :=
  script_object ← script h this;
  if negb (IsScript h script_object) then Ok kHasNoScript else
  r ← load h this;
  if is_precise_binary_code_coverage && negb (has_reported_binary_coverage r)
  then Ok kNeedsBinaryCoverage else
  disabled ← optimization_disabled h this;
  if disabled : bool then Ok kHasOptimizationDisabled else
  has_builtin_id ← HasBuiltinId h this;
  if has_builtin_id : bool then Ok kIsBuiltin else
  user_javascript ← IsUserJavaScript h this;
  if negb user_javascript then Ok kIsNotUserCode else
  has_bytecode_array ← HasBytecodeArray h this;
  if negb has_bytecode_array then Ok kHasNoBytecode else
  bytecode ← GetBytecodeArray h this;
  len ← BytecodeArray_length h bytecode;
  if bool_decide (len > FLAG_max_inlined_bytecode_size)
  then Ok kExceedsBytecodeLimit else
  has_break_info ← HasBreakInfo h this;
  if has_break_info : bool then Ok kMayContainBreakPoints else
  Ok kIsInlineable.

(** The function returns [uint16_t]: the int estimate is converted on
    return. *)
Definition get_property_estimate_from_literal (h : Heap) (this : Address)
    (literal : FunctionLiteral) : result Z :=
  r ← load h this;
  let estimate := expected_property_count literal in
  let estimate :=
    if is_class_constructor r
    then estimate + expected_nof_properties r else estimate in
  Ok (to_uint16 estimate).

Definition UpdateExpectedNofPropertiesFromEstimate (h : Heap) (this : Address)
    (literal : FunctionLiteral) : result Heap :=
  estimate ← get_property_estimate_from_literal h this literal;
  set_expected_nof_properties h this (Z.min estimate kMaxUInt8).

Definition UpdateAndFinalizeExpectedNofPropertiesFromEstimate (h : Heap)
    (this : Address) (literal : FunctionLiteral) : result Heap :=
  DCHECK (Ok (ShouldEagerCompile literal));;
  final ← are_properties_final h this;
  if final : bool then Ok h else
  estimate ← get_property_estimate_from_literal h this literal;
  let estimate := if bool_decide (estimate = 0) then 2 else estimate in
  let estimate := Z.min estimate kMaxUInt8 in
  h ← set_expected_nof_properties h this estimate;
  set_are_properties_final h this true.

(** *** The iterator over a script's function table *)

Record ScriptIterator : Type := {
  shared_function_infos_ : Object;
  index_ : Z
}.

(** Modelled from the spec: [MaybeObject::GetHeapObject] (objects/maybe-object.h
    is not part of the sources): the heap object a slot refers to, strongly
    or weakly; none for a Smi and for a cleared weak reference. *)
Definition GetHeapObject (m : MaybeObject) : option Object :=
  match m with
  | Strong (Smi _) => None
  | Strong o => Some o
  | Weak a => Some (HeapObject a)
  | ClearedWeak => None
  end.

(** [SharedFunctionInfo::cast]: the object itself, taken as a reference to
    a record; that it is one is checked where debug checks are on. *)
Definition SharedFunctionInfo_cast (h : Heap) (o : Object) : result Object :=
  DCHECK (Ok (IsSharedFunctionInfo h o));;
  Ok o.

(** The two constructors: from a script, and from the table itself. *)
Definition ScriptIterator_of_table (shared_function_infos : Object)
    : ScriptIterator :=
  {| shared_function_infos_ := shared_function_infos; index_ := 0 |}.

Definition ScriptIterator_of_script (h : Heap) (script : Object)
    : result ScriptIterator :=
  s ← Script_cast h script;
  Ok (ScriptIterator_of_table (shared_function_infos s)).

(** The while loop of [Next]; each round consumes one slot, so the number of
    slots left bounds the number of rounds. *)
Fixpoint ScriptIterator_Next_loop (rounds : nat) (h : Heap) (table : Object)
    (index : Z) : result (option Object * Z) :=
  len ← WeakFixedArray_length h table;
  if bool_decide (index < len) then
    match rounds with
    | O => Fatal
    | S rounds =>
        raw ← WeakFixedArray_Get h table index;
        let index := index + 1 in
        match GetHeapObject raw with
        | Some heap_object =>
            if IsUndefined heap_object
            then ScriptIterator_Next_loop rounds h table index
            else
              a ← SharedFunctionInfo_cast h heap_object;
              Ok (Some a, index)
        | None => ScriptIterator_Next_loop rounds h table index
        end
    end
  else Ok (None, index).

(** [Next]: the next record, or none (the null record) at the end. *)
Definition ScriptIterator_Next (h : Heap) (it : ScriptIterator)
    : result (option Object * ScriptIterator) :=
  let table := shared_function_infos_ it in
  len ← WeakFixedArray_length h table;
  '(found, index) ← ScriptIterator_Next_loop (Z.to_nat (len - index_ it))
                      h table (index_ it);
  Ok (found, {| shared_function_infos_ := table; index_ := index |}).

Definition ScriptIterator_Reset (h : Heap) (it : ScriptIterator)
    (script : Object) : result ScriptIterator :=
  s ← Script_cast h script;
  Ok {| shared_function_infos_ := shared_function_infos s; index_ := 0 |}.

(** *** Initialization and the optimization bit *)

(** [Builtins::kIllegal], and the kind the engine gives a code object
    ([Code::kind], declared outside the sources). *)
Variable kIllegal : Z.
Variable Code_kind : Heap → Object → result CodeKind.

(** Modelled from the spec: [set_builtin_id], [set_name_or_scope_info],
    [flags] and [set_flags] (inline header). *)
Definition set_builtin_id (h : Heap) (this : Address) (id : Z) : result Heap :=
  set_function_data h this (Smi id).

Definition set_name_or_scope_info (h : Heap) (this : Address) (value : Object)
    : result Heap :=
  r ← load h this; Ok (store h this (with_name_or_scope_info r value)).

Definition flags (h : Heap) (this : Address) : result Flags :=
  r ← load h this; Ok (flags_of r).

Definition set_flags (h : Heap) (this : Address) (value : Flags)
    : result Heap :=
  r ← load h this; Ok (store h this (with_flags r value)).

(** [Init] writes every field of the record.  The writes to the fields that
    no operation of this file reads back (function literal id, unique id,
    length, formal parameter count, function token offset, the second flags
    word, the function map index and the padding) have no counterpart in
    the record and are left out. *)
Definition Init (h : Heap) (this : Address) (unique_id : Z) : result Heap :=
  h ← set_builtin_id h this kIllegal;
  h ← set_name_or_scope_info h this kNoSharedNameSentinel;
  h ← set_raw_outer_scope_info_or_feedback_metadata h this the_hole_value;
  h ← set_script_or_debug_info h this undefined_value;
  h ← set_expected_nof_properties h this 0;
  set_flags h this (ConstructAsBuiltinBit_encode true).

(** Modelled from the spec: [abstract_code] (inline header) and
    [AbstractCode::kind]: the bytecode program when there is one, else the
    entry point; a bytecode program is of kind [INTERPRETED_FUNCTION]. *)
Definition abstract_code (h : Heap) (this : Address) : result Object :=
  has_bytecode_array ← HasBytecodeArray h this;
  if has_bytecode_array : bool then GetBytecodeArray h this else GetCode h this.

Definition AbstractCode_kind (h : Heap) (code : Object) : result CodeKind :=
  if IsBytecodeArray h code then Ok INTERPRETED_FUNCTION else Code_kind h code.

(** The profiler event and the trace output under [FLAG_trace_opt] are not
    part of the heap and are left out. *)
Definition DisableOptimization (h : Heap) (this : Address)
    (reason : BailoutReason) : result Heap :=
  DCHECK (Ok (negb (bool_decide (reason = kNoReason))));;
  current ← flags h this;
  h ← set_flags h this (DisabledOptimizationReasonBits_update current reason);
  DCHECK (code ← abstract_code h this;
          kind ← AbstractCode_kind h code;
          Ok (bool_decide (kind = INTERPRETED_FUNCTION)
              || bool_decide (kind = BUILTIN)));;
  Ok h.

(** ** The specification's reading of a record

    The executable payload as the closed sum the specification describes,
    recovered from the payload slot and the heap. *)

Inductive ExecutablePayload : Type :=
| BuiltinReference (id : Z)
| BytecodeProgram (bytecode_length : Z)
| ForeignModuleData
| DeferredParseSummary (summary : UncompiledData) (preparse_cache : option Object)
| HostApiTemplate
| ExportedForeignFunctionData (data : WasmExportedFunctionData.t)
| HostCallbackFunctionData (data : WasmJSFunctionData.t)
| CCallableInteropData (data : WasmCapiFunctionData.t)
| InterpreterTrampolineData (bytecode trampoline : Object)
| UnrecognizedPayload.

Definition active_payload (h : Heap) (data : Object) : ExecutablePayload :=
  match data with
  | Smi id => BuiltinReference id
  | HeapObject a =>
      match h !! a with
      | Some (BytecodeArrayCell n) => BytecodeProgram n
      | Some AsmWasmDataCell => ForeignModuleData
      | Some (UncompiledDataWithoutPreparseDataCell d) =>
          DeferredParseSummary d None
      | Some (UncompiledDataWithPreparseDataCell d p) =>
          DeferredParseSummary d (Some p)
      | Some FunctionTemplateInfoCell => HostApiTemplate
      | Some (WasmExportedFunctionDataCell d) => ExportedForeignFunctionData d
      | Some (WasmJSFunctionDataCell d) => HostCallbackFunctionData d
      | Some (WasmCapiFunctionDataCell d) => CCallableInteropData d
      | Some (InterpreterDataCell b t) => InterpreterTrampolineData b t
      | _ => UnrecognizedPayload
      end
  | _ => UnrecognizedPayload
  end.

(** Whether a value is a code object that is an interpreter trampoline. *)
Definition is_trampoline_code (h : Heap) (code : Object) : bool :=
  match cell_of h code with
  | Some (CodeCell c) => is_interpreter_trampoline_builtin c
  | _ => false
  end.

(** The entry point of each payload variant, in the specification's words:
    the trampoline of interpreter-trampoline data is validated to be a
    trampoline. *)
Definition ResolveEntryPoint (h : Heap) (payload : ExecutablePayload)
    : result Object :=
  match payload with
  | BuiltinReference id => Ok (builtin id)
  | BytecodeProgram _ => Ok (builtin kInterpreterEntryTrampoline)
  | ForeignModuleData => Ok (builtin kInstantiateAsmJs)
  | DeferredParseSummary _ _ => Ok (builtin kCompileLazy)
  | HostApiTemplate => Ok (builtin kHandleApiCall)
  | ExportedForeignFunctionData d => Ok (WasmExportedFunctionData.wrapper_code d)
  | HostCallbackFunctionData d => Ok (WasmJSFunctionData.wrapper_code d)
  | CCallableInteropData d => Ok (WasmCapiFunctionData.wrapper_code d)
  | InterpreterTrampolineData _ trampoline =>
      if is_trampoline_code h trampoline then Ok trampoline else Fatal
  | UnrecognizedPayload => Fatal
  end.

(** The position data embedded in the scope descriptor of the name slot,
    when the slot holds a scope descriptor that carries it. *)
Definition scope_descriptor (h : Heap) (name_slot : Object) : option ScopeInfo :=
  match cell_of h name_slot with
  | Some (ScopeInfoCell info) => Some info
  | _ => None
  end.

Definition scope_positions (h : Heap) (name_slot : Object) : option (Z * Z) :=
  match scope_descriptor h name_slot with
  | Some info => PositionInfo info
  | None => None
  end.

(** The inferred name a record reports: the one of the scope descriptor in
    the name slot, else the one of the deferred-parse summary, else empty. *)
Definition reported_inferred_name (h : Heap) (r : SharedFunctionInfo) : string :=
  match scope_descriptor h (name_or_scope_info r) with
  | Some info =>
      match InferredFunctionName info with
      | Some (StringObject name) => name
      | _ => EmptyString
      end
  | None =>
      match active_payload h (function_data r) with
      | DeferredParseSummary summary _ => UncompiledData_inferred_name summary
      | _ => EmptyString
      end
  end.

(** The fixed precedence of position resolution, in the specification's
    words; the three selectors pick the start or the end. *)
Definition resolve_position (of_scope : Z * Z → Z)
    (of_summary : UncompiledData → Z) (of_table : WasmFunction → Z)
    (h : Heap) (r : SharedFunctionInfo) : result Z :=
  match scope_positions h (name_or_scope_info r) with
  | Some positions => Ok (of_scope positions)
  | None =>
      match active_payload h (function_data r) with
      | DeferredParseSummary summary _ => Ok (of_summary summary)
      | HostApiTemplate | BuiltinReference _ => Ok 0
      | ExportedForeignFunctionData d =>
          entry ← module_function h (WasmExportedFunctionData.instance d)
                    (WasmExportedFunctionData.function_index d);
          Ok (to_int32 (of_table entry))
      | _ => Ok kNoSourcePosition
      end
  end.

(** The identity of the owning source unit, 0 when the value is not a
    source unit. *)
Definition owning_unit_id (h : Heap) (unit : Object) : Z :=
  match cell_of h unit with
  | Some (ScriptCell s) => Script_id s
  | _ => 0
  end.

(** The owning source unit of a record, read through the debug info when
    one is attached. *)
Definition source_unit_ref (h : Heap) (r : SharedFunctionInfo) : Object :=
  match cell_of h (script_or_debug_info r) with
  | Some (DebugInfoCell d) => DebugInfo_script d
  | _ => script_or_debug_info r
  end.

Definition source_unit (h : Heap) (r : SharedFunctionInfo) : option Script :=
  match cell_of h (source_unit_ref h r) with
  | Some (ScriptCell s) => Some s
  | _ => None
  end.

Definition attached_debug_info (h : Heap) (r : SharedFunctionInfo)
    : option DebugInfo :=
  match cell_of h (script_or_debug_info r) with
  | Some (DebugInfoCell d) => Some d
  | _ => None
  end.

(** The length of the bytecode program of a record: the debugger's saved
    original when the program is instrumented, else the program of the
    payload. *)
Definition bytecode_program_length (h : Heap) (r : SharedFunctionInfo)
    : option Z :=
  let length_of (o : Object) :=
    match cell_of h o with
    | Some (BytecodeArrayCell n) => Some n
    | _ => None
    end in
  match attached_debug_info h r ≫= OriginalBytecodeArray with
  | Some original => length_of original
  | None =>
      match active_payload h (function_data r) with
      | BytecodeProgram n => Some n
      | InterpreterTrampolineData bytecode _ => length_of bytecode
      | _ => None
      end
  end.

Definition has_bytecode_program (h : Heap) (r : SharedFunctionInfo) : bool :=
  match active_payload h (function_data r) with
  | BytecodeProgram _ | InterpreterTrampolineData _ _ => true
  | _ => false
  end.

(** An ordered decision list: the verdict of the first rule whose condition
    holds. *)
Fixpoint first_match {A : Type} (rules : list (bool * A)) (otherwise : A) : A :=
  match rules with
  | [] => otherwise
  | (condition, verdict) :: rules =>
      if condition then verdict else first_match rules otherwise
  end.

(** The conditions of the inlineability decision, in the order the
    specification lists them. *)
Definition inlineability_rules (h : Heap) (r : SharedFunctionInfo)
    : list (bool * Inlineability) :=
  [ (bool_decide (source_unit h r = None), kHasNoScript);
    (is_precise_binary_code_coverage && negb (has_reported_binary_coverage r),
     kNeedsBinaryCoverage);
    (bool_decide (disable_optimization_reason r ≠ kNoReason),
     kHasOptimizationDisabled);
    (match active_payload h (function_data r) with
     | BuiltinReference _ => true
     | _ => false
     end, kIsBuiltin);
    (match source_unit h r with
     | Some unit => negb (Script_IsUserJavaScript unit)
     | None => true
     end, kIsNotUserCode);
    (negb (has_bytecode_program h r), kHasNoBytecode);
    (match bytecode_program_length h r with
     | Some len => bool_decide (len > FLAG_max_inlined_bytecode_size)
     | None => false
     end, kExceedsBytecodeLimit);
    (match attached_debug_info h r with
     | Some d => DebugInfo_HasBreakInfo d
     | None => false
     end, kMayContainBreakPoints) ].

(** The resolved display name of a record: the one held by the name slot
    itself or by the scope descriptor in it; empty for the "no name"
    sentinel.  Any other value in the slot is not a name. *)
Definition name_of_value (o : Object) : result string :=
  if bool_decide (o = kNoSharedNameSentinel) then Ok EmptyString
  else String_cast o.

Definition resolved_name (h : Heap) (r : SharedFunctionInfo) : result string :=
  match scope_descriptor h (name_or_scope_info r) with
  | Some info =>
      match FunctionName info with
      | Some name => name_of_value name
      | None => Ok EmptyString
      end
  | None => name_of_value (name_or_scope_info r)
  end.

(** The name slot holds what the data model allows: the sentinel, a name,
    or a scope descriptor whose function name is one of the two. *)
Definition is_name_value (o : Object) : bool :=
  match o with
  | StringObject _ => true
  | _ => bool_decide (o = kNoSharedNameSentinel)
  end.

Definition name_slot_well_formed (h : Heap) (r : SharedFunctionInfo) : bool :=
  match scope_descriptor h (name_or_scope_info r) with
  | Some info =>
      match FunctionName info with
      | Some name => is_name_value name
      | None => true
      end
  | None => is_name_value (name_or_scope_info r)
  end.

(** A slot the iterator stops at: it refers to a heap object other than
    undefined. *)
Definition live_slot (m : MaybeObject) : bool :=
  match GetHeapObject m with
  | Some o => negb (IsUndefined o)
  | None => false
  end.

(** The records a table refers to, in slot order: the referents of its
    live slots. *)
Definition table_records (slots : list MaybeObject) : list Object :=
  omap (λ m, if live_slot m then GetHeapObject m else None) slots.

(** Every live slot of the table refers to a record. *)
Definition table_of_records (h : Heap) (slots : list MaybeObject) : bool :=
  forallb (λ m, match GetHeapObject m with
                | Some o => IsUndefined o || IsSharedFunctionInfo h o
                | None => true
                end) slots.

(** Calling [Next] until it returns none, at most [n] times. *)
Fixpoint ScriptIterator_collect (n : nat) (h : Heap) (it : ScriptIterator)
    : result (list Object) :=
  match n with
  | O => Ok []
  | S n =>
      '(found, it) ← ScriptIterator_Next h it;
      match found with
      | Some a => cons a <$> ScriptIterator_collect n h it
      | None => Ok []
      end
  end.

(** What SetScript may do to a heap cell: rewrite the source-unit reference
    of a record or of a debug info, overwrite slots of a weak table, or drop
    the pre-parse cache of a deferred-parse summary.  Every other cell stays
    as it is. *)
Definition SetScript_may_change (c c' : HeapCell) : Prop :=
  match c with
  | SharedFunctionInfoCell r =>
      ∃ unit, c' = SharedFunctionInfoCell (with_script_or_debug_info r unit)
  | DebugInfoCell d =>
      ∃ unit, c' = DebugInfoCell
                     {| DebugInfo_script := unit;
                        DebugInfo_HasBreakInfo := DebugInfo_HasBreakInfo d;
                        OriginalBytecodeArray := OriginalBytecodeArray d |}
  | WeakFixedArrayCell slots =>
      ∃ slots', c' = WeakFixedArrayCell slots' ∧ length slots' = length slots
  | UncompiledDataWithPreparseDataCell d p =>
      c' = c ∨ c' = UncompiledDataWithoutPreparseDataCell d
  | _ => c' = c
  end.

Definition SetScript_frame (h h' : Heap) : Prop :=
  ∀ b, match h !! b with
       | Some c => ∃ c', h' !! b = Some c' ∧ SetScript_may_change c c'
       | None => h' !! b = None
       end.

(** ** Basic facts *)

Lemma DCHECK_true (cond : result bool) : cond = Ok true → DCHECK cond = Ok ().
Proof. intros ->. unfold DCHECK. by destruct DEBUG. Qed.

Lemma load_Some (h : Heap) (this : Address) (r : SharedFunctionInfo) :
  load h this = Ok r ↔ h !! this = Some (SharedFunctionInfoCell r).
Proof.
  unfold load. split.
  - destruct (h !! this) as [[]|]; intros; simplify_eq; done.
  - by intros ->.
Qed.

Lemma WeakFixedArray_Get_in_bounds (h : Heap) (t : Address)
    (slots : list MaybeObject) (index : Z) (m : MaybeObject) :
  h !! t = Some (WeakFixedArrayCell slots) →
  0 ≤ index →
  slots !! Z.to_nat index = Some m →
  WeakFixedArray_Get h (HeapObject t) index = Ok m.
Proof.
  intros Htable Hindex Hm. pose proof (lookup_lt_Some _ _ _ Hm) as Hlt.
  unfold WeakFixedArray_Get, WeakFixedArray_cast. simpl. rewrite Htable.
  simpl. rewrite DCHECK_true by by rewrite bool_decide_eq_true_2 by lia.
  simpl. rewrite decide_True by done. by rewrite Hm.
Qed.

(** C1 (as amended).  GetCode maps each payload variant to exactly one
    outcome.  A builtin id goes to the builtin table entry for that id,
    bytecode to the interpreter entry, asm/wasm data to the
    module-instantiation entry, a deferred-parse summary (with or without
    cache) to the lazy-compile entry, a host-API template to the API-call
    entry, the three wasm function data variants to their embedded wrapper
    code, and any unrecognized payload is fatal: on all of these GetCode is
    [ResolveEntryPoint].  Interpreter-trampoline data goes to the code
    object stored in it; that object is checked to be an interpreter
    trampoline where debug checks are on, and returned unchecked
    otherwise.  So GetCode is [ResolveEntryPoint] on every record where
    debug checks are on or the stored object is a trampoline.  A record with
    builtin id 7 yields the table entry for 7. *)
Theorem GetCode_dispatch (h : Heap) (this : Address) :
  GetCode h this
    = (r ← load h this;
       match active_payload h (function_data r) with
       | InterpreterTrampolineData _ trampoline =>
           if DEBUG && negb (is_trampoline_code h trampoline)
           then Fatal else Ok trampoline
       | payload => ResolveEntryPoint h payload
       end)
  ∧ (∀ r, load h this = Ok r → function_data r = Smi 7 →
       GetCode h this = Ok (builtin 7))
  ∧ (∀ r, load h this = Ok r →
       (DEBUG = true
        ∨ ∀ b t, active_payload h (function_data r)
                   = InterpreterTrampolineData b t →
                 is_trampoline_code h t = true) →
       GetCode h this = ResolveEntryPoint h (active_payload h (function_data r)))
  ∧ (∀ r b t, load h this = Ok r →
       active_payload h (function_data r) = InterpreterTrampolineData b t →
       DEBUG = false →
       GetCode h this = Ok t).
Proof.
  assert (Hmain : GetCode h this
    = (r ← load h this;
       match active_payload h (function_data r) with
       | InterpreterTrampolineData _ trampoline =>
           if DEBUG && negb (is_trampoline_code h trampoline)
           then Fatal else Ok trampoline
       | payload => ResolveEntryPoint h payload
       end)).
  { unfold GetCode. destruct (load h this) as [r|] eqn:Hload; [|done].
    simpl. destruct (function_data r) as [v| | |s|a] eqn:Hdata; simpl; try done.
    - rewrite DCHECK_true; [|unfold HasBuiltinId; rewrite Hload; simpl;
                                by rewrite Hdata].
      simpl. unfold builtin_id. rewrite Hload; simpl. by rewrite Hdata.
    - unfold IsBytecodeArray, IsAsmWasmData, IsUncompiledData,
        IsUncompiledDataWithoutPreparseData, IsUncompiledDataWithPreparseData,
        IsFunctionTemplateInfo, IsWasmExportedFunctionData, IsInterpreterData,
        IsWasmJSFunctionData, IsWasmCapiFunctionData; simpl.
      destruct (h !! a) as [c|] eqn:Hcell; [|done].
      destruct c; simpl; try done;
        unfold wasm_exported_function_data, wasm_js_function_data,
          wasm_capi_function_data, InterpreterTrampoline;
        repeat (rewrite DCHECK_true;
          [|unfold HasBytecodeArray, HasAsmWasmData, HasUncompiledData,
              IsApiFunction, HasWasmExportedFunctionData,
              HasWasmJSFunctionData, HasWasmCapiFunctionData,
              HasInterpreterData, IsBytecodeArray, IsAsmWasmData,
              IsUncompiledData, IsUncompiledDataWithoutPreparseData,
              IsUncompiledDataWithPreparseData, IsFunctionTemplateInfo,
              IsWasmExportedFunctionData, IsInterpreterData,
              IsWasmJSFunctionData, IsWasmCapiFunctionData;
            rewrite Hload; simpl; rewrite Hdata; simpl; by rewrite Hcell]);
        simpl; rewrite ?Hload; simpl; rewrite ?Hdata; simpl;
        unfold WasmExportedFunctionData_cast, WasmJSFunctionData_cast,
          WasmCapiFunctionData_cast; simpl; rewrite ?Hcell; try done.
      unfold DCHECK, is_trampoline_code, IsCode, Code_cast.
      destruct DEBUG; simpl; [|done].
      destruct (cell_of h interpreter_trampoline) as [[]|]; simpl; try done.
      by destruct (is_interpreter_trampoline_builtin code). }
  split; [exact Hmain|]. split; [|split].
  - intros r Hload Hdata. rewrite Hmain, Hload. simpl. by rewrite Hdata.
  - intros r Hload Hvalid. rewrite Hmain, Hload. simpl.
    destruct (active_payload h (function_data r)) eqn:Hpayload; try done.
    simpl. destruct Hvalid as [->|Hvalid].
    + simpl. by destruct (is_trampoline_code h _).
    + rewrite (Hvalid _ _ eq_refl). simpl. by rewrite andb_false_r.
  - intros r b t Hload Hpayload Hdebug.
    rewrite Hmain, Hload. simpl. by rewrite Hpayload, Hdebug.
Qed.


Ltac unfold_payload_tests :=
  unfold HasBuiltinId, HasBytecodeArray, HasAsmWasmData, HasUncompiledData,
    HasUncompiledDataWithPreparseData, HasUncompiledDataWithoutPreparseData,
    IsApiFunction, HasWasmExportedFunctionData, HasWasmJSFunctionData,
    HasWasmCapiFunctionData, HasInterpreterData, IsBytecodeArray,
    IsAsmWasmData, IsUncompiledData, IsUncompiledDataWithoutPreparseData,
    IsUncompiledDataWithPreparseData, IsFunctionTemplateInfo,
    IsWasmExportedFunctionData, IsInterpreterData, IsWasmJSFunctionData,
    IsWasmCapiFunctionData in *.

Ltac solve_position Hload Hlazy :=
  rewrite Hload; simpl;
  unfold IsScopeInfo, ScopeInfo_cast, HasPositionInfo,
    ScopeInfo_StartPosition, ScopeInfo_EndPosition;
  destruct (cell_of _ (name_or_scope_info _)) as [[]|] eqn:Hname; simpl;
  try (destruct (PositionInfo _) as [[? ?]|] eqn:Hpos; simpl; [done|]);
  unfold uncompiled_data, wasm_exported_function_data, builtin_id;
  unfold_payload_tests; rewrite ?Hload; simpl;
  (destruct (function_data _) as [| | | |] eqn:Hdata; simpl; try done;
   [ rewrite DCHECK_true; [done|];
     rewrite bool_decide_eq_false_2; [done|];
     intros ->; apply Hlazy; [|done];
     unfold scope_positions, scope_descriptor; rewrite Hname; try done
   | destruct (_ !! _) as [[]|] eqn:Hcell; simpl; try done;
     rewrite ?DCHECK_true; simpl; rewrite ?Hload; simpl;
     unfold UncompiledData_cast, WasmExportedFunctionData_cast; simpl;
     rewrite ?Hcell; try done ]).

Lemma StartPosition_resolve (h : Heap) (this : Address) (r : SharedFunctionInfo) :
  load h this = Ok r →
  (scope_positions h (name_or_scope_info r) = None →
   function_data r ≠ Smi kCompileLazy) →
  StartPosition h this = resolve_position fst start_position code_offset h r.
Proof.
  intros Hload Hlazy.
  unfold StartPosition, resolve_position, scope_positions, scope_descriptor.
  solve_position Hload Hlazy.
Qed.

Lemma EndPosition_resolve (h : Heap) (this : Address) (r : SharedFunctionInfo) :
  load h this = Ok r →
  (scope_positions h (name_or_scope_info r) = None →
   function_data r ≠ Smi kCompileLazy) →
  EndPosition h this = resolve_position snd end_position code_end_offset h r.
Proof.
  intros Hload Hlazy.
  unfold EndPosition, resolve_position, scope_positions, scope_descriptor.
  solve_position Hload Hlazy.
Qed.

Lemma inferred_name_reported (h : Heap) (this : Address) (r : SharedFunctionInfo) :
  load h this = Ok r →
  inferred_name h this = Ok (reported_inferred_name h r).
Proof.
  intros Hload. unfold inferred_name, reported_inferred_name, scope_descriptor.
  rewrite Hload. simpl. unfold IsScopeInfo, ScopeInfo_cast.
  destruct (cell_of h (name_or_scope_info r)) as [[]|] eqn:Hname; simpl;
    try (by repeat case_match);
    unfold uncompiled_data; unfold_payload_tests; rewrite Hload; simpl;
    (destruct (function_data r) as [| | | |] eqn:Hdata; simpl; try done;
     destruct (_ !! _) as [[]|] eqn:Hcell; simpl; try done;
     rewrite ?DCHECK_true; simpl; rewrite ?Hload; simpl;
     unfold UncompiledData_cast; simpl; rewrite ?Hcell; try done).
Qed.

Lemma IsUncompiledDataWithPreparseData_payload (h : Heap) (o : Object) :
  IsUncompiledDataWithPreparseData h o
    = match active_payload h o with
      | DeferredParseSummary _ (Some _) => true
      | _ => false
      end.
Proof.
  unfold IsUncompiledDataWithPreparseData. destruct o as [| | | |a]; try done.
  simpl. by destruct (h !! a) as [[]|].
Qed.

Lemma IsUncompiledData_payload (h : Heap) (o : Object) :
  IsUncompiledData h o
    = match active_payload h o with
      | DeferredParseSummary _ _ => true
      | _ => false
      end.
Proof.
  unfold IsUncompiledData, IsUncompiledDataWithoutPreparseData,
    IsUncompiledDataWithPreparseData.
  destruct o as [| | | |a]; try done.
  simpl. by destruct (h !! a) as [[]|].
Qed.

(** *** Updates that leave the views alone *)

Lemma scope_descriptor_insert (h : Heap) (a : Address) (c : HeapCell) (o : Object) :
  (∀ info, c ≠ ScopeInfoCell info) →
  (∀ info, h !! a ≠ Some (ScopeInfoCell info)) →
  scope_descriptor (<[a := c]> h) o = scope_descriptor h o.
Proof.
  intros Hc Hold. unfold scope_descriptor. destruct o as [| | | |b]; try done.
  simpl. destruct (decide (a = b)) as [->|Hne].
  - rewrite lookup_insert_eq.
    assert (scope_descriptor h (HeapObject b) = None) as Hnone.
    { unfold scope_descriptor. simpl.
      destruct (h !! b) as [[]|] eqn:Hb; try done. by edestruct Hold. }
    unfold scope_descriptor in Hnone. simpl in Hnone. rewrite Hnone.
    destruct c; try done. by edestruct Hc.
  - by rewrite lookup_insert_ne.
Qed.

Lemma active_payload_insert_ne (h : Heap) (a : Address) (c : HeapCell) (o : Object) :
  o ≠ HeapObject a →
  active_payload (<[a := c]> h) o = active_payload h o.
Proof.
  intros Hne. destruct o as [| | | |b]; try done. simpl.
  rewrite lookup_insert_ne; [done|congruence].
Qed.

Lemma active_payload_store (h : Heap) (this : Address)
    (r r' : SharedFunctionInfo) (o : Object) :
  load h this = Ok r →
  active_payload (store h this r') o = active_payload h o.
Proof.
  intros Hload%load_Some. unfold store. destruct o as [| | | |b]; try done.
  simpl. destruct (decide (this = b)) as [->|Hne].
  - by rewrite lookup_insert_eq, Hload.
  - by rewrite lookup_insert_ne.
Qed.

Lemma scope_descriptor_store (h : Heap) (this : Address)
    (r r' : SharedFunctionInfo) (o : Object) :
  load h this = Ok r →
  scope_descriptor (store h this r') o = scope_descriptor h o.
Proof.
  intros Hload%load_Some. apply scope_descriptor_insert; [done|].
  rewrite Hload. congruence.
Qed.

Lemma load_store (h : Heap) (this : Address) (r : SharedFunctionInfo) :
  load (store h this r) this = Ok r.
Proof. unfold load, store. by rewrite lookup_insert_eq. Qed.

Lemma cell_of_insert (h : Heap) (a : Address) (c : HeapCell) (o : Object) :
  cell_of (<[a := c]> h) o
    = if decide (o = HeapObject a) then Some c else cell_of h o.
Proof.
  destruct o as [| | | |b]; try done. simpl. case_decide as Hb.
  - simplify_eq. by rewrite lookup_insert_eq.
  - rewrite lookup_insert_ne; [done|congruence].
Qed.

Lemma load_insert_ne (h : Heap) (a this : Address) (c : HeapCell) :
  a ≠ this → load (<[a := c]> h) this = load h this.
Proof. intros Hne. unfold load. by rewrite lookup_insert_ne. Qed.

Lemma is_compiled_payload (h : Heap) (this : Address) (r : SharedFunctionInfo) :
  load h this = Ok r →
  is_compiled h this = Ok true →
  function_data r ≠ Smi kCompileLazy
  ∧ ∀ summary cache,
      active_payload h (function_data r) ≠ DeferredParseSummary summary cache.
Proof.
  intros Hload. unfold is_compiled. rewrite Hload. simpl. intros [= Hc].
  apply andb_true_iff in Hc as [Hlazy Hdata].
  apply negb_true_iff, bool_decide_eq_false in Hlazy.
  apply negb_true_iff in Hdata. split; [done|]. intros summary cache Hpayload.
  unfold_payload_tests. destruct (function_data r) as [| | | |a]; try done.
  simpl in *. destruct (h !! a) as [[]|]; simplify_eq; done.
Qed.

Lemma DiscardCompiledMetadata_compiled (h : Heap) (this : Address)
    (r : SharedFunctionInfo) :
  load h this = Ok r →
  is_compiled h this = Ok true →
  ∃ outer,
    DiscardCompiledMetadata h this (λ _ _ h, Ok h)
      = Ok (store h this
              (with_raw_outer_scope_info_or_feedback_metadata r outer)).
Proof.
  intros Hload Hcompiled. unfold DiscardCompiledMetadata.
  rewrite Hcompiled. simpl. unfold scope_info. rewrite Hload. simpl.
  unfold IsScopeInfo, ScopeInfo_cast,
    set_raw_outer_scope_info_or_feedback_metadata.
  destruct (cell_of h (name_or_scope_info r)) as [[]|]; simpl;
    rewrite Hload; simpl; eauto.
Qed.

Lemma DiscardCompiledMetadata_uncompiled (h : Heap) (this : Address)
    (r : SharedFunctionInfo) :
  load h this = Ok r →
  is_compiled h this = Ok false →
  (DEBUG = true →
   IsScopeInfo h (raw_outer_scope_info_or_feedback_metadata r)
   || IsTheHole (raw_outer_scope_info_or_feedback_metadata r) = true) →
  DiscardCompiledMetadata h this (λ _ _ h, Ok h) = Ok h.
Proof.
  intros Hload Hcompiled Houter. unfold DiscardCompiledMetadata.
  rewrite Hcompiled. simpl.
  destruct DEBUG eqn:Hdebug; [|unfold DCHECK; by rewrite Hdebug].
  specialize (Houter eq_refl). rewrite DCHECK_true; [done|].
  unfold outer_scope_info.
  rewrite (DCHECK_true (negb <$> is_compiled h this)) by by rewrite Hcompiled.
  simpl. rewrite DCHECK_true.
  - simpl. rewrite Hload. simpl. by rewrite Houter.
  - unfold HasFeedbackMetadata. rewrite Hload. simpl.
    unfold IsScopeInfo in Houter.
    destruct (cell_of h (raw_outer_scope_info_or_feedback_metadata r))
      as [[]|] eqn:Hcell; try done;
      by destruct (raw_outer_scope_info_or_feedback_metadata r).
Qed.

(** The other eligible case: a record that is still uncompiled but carries a
    pre-parse cache.  Its summary is kept and the cache is dropped in place;
    positions and inferred name are reported as before.  The debug check of
    the outer-scope slot has to pass. *)
Lemma DiscardCompiled_drops_cache_in_place (h : Heap) (this a : Address)
    (r : SharedFunctionInfo) (summary : UncompiledData) (cache : Object) :
  load h this = Ok r →
  function_data r = HeapObject a →
  h !! a = Some (UncompiledDataWithPreparseDataCell summary cache) →
  (DEBUG = true →
   IsScopeInfo h (raw_outer_scope_info_or_feedback_metadata r)
   || IsTheHole (raw_outer_scope_info_or_feedback_metadata r) = true) →
  let h' := <[a := UncompiledDataWithoutPreparseDataCell summary]> h in
  DiscardCompiled h this = Ok h'
  ∧ load h' this = Ok r
  ∧ active_payload h' (function_data r) = DeferredParseSummary summary None
  ∧ StartPosition h' this = StartPosition h this
  ∧ EndPosition h' this = EndPosition h this
  ∧ inferred_name h' this = inferred_name h this.
Proof.
  intros Hload Hdata Hcell Houter h'.
  assert (a ≠ this) as Hne.
  { intros ->. apply load_Some in Hload. congruence. }
  assert (load h' this = Ok r) as Hload' by by (unfold h'; rewrite load_insert_ne).
  assert (active_payload h (function_data r)
          = DeferredParseSummary summary (Some cache)) as Hpayload
    by (rewrite Hdata; simpl; by rewrite Hcell).
  assert (active_payload h' (function_data r)
          = DeferredParseSummary summary None) as Hpayload'
    by (rewrite Hdata; simpl; unfold h'; by rewrite lookup_insert_eq).
  assert (∀ o, scope_descriptor h' o = scope_descriptor h o) as Hscope.
  { intros o. apply scope_descriptor_insert; [done|]. rewrite Hcell.
    congruence. }
  assert (Hlazy : ∀ h0 : Heap, scope_positions h0 (name_or_scope_info r) = None →
                  function_data r ≠ Smi kCompileLazy)
    by (intros _ _; by rewrite Hdata).
  assert (StartPosition h' this = StartPosition h this) as HS.
  { rewrite (StartPosition_resolve h' this r), (StartPosition_resolve h this r)
      by eauto.
    unfold resolve_position, scope_positions.
    by rewrite Hscope, Hpayload, Hpayload'. }
  assert (EndPosition h' this = EndPosition h this) as HE.
  { rewrite (EndPosition_resolve h' this r), (EndPosition_resolve h this r)
      by eauto.
    unfold resolve_position, scope_positions.
    by rewrite Hscope, Hpayload, Hpayload'. }
  assert (inferred_name h' this = inferred_name h this) as HN.
  { rewrite (inferred_name_reported h' this r), (inferred_name_reported h this r)
      by done.
    unfold reported_inferred_name. by rewrite Hscope, Hpayload, Hpayload'. }
  split; [|done].
  assert (IsUncompiledDataWithPreparseData h (function_data r) = true) as Hwith
    by by rewrite IsUncompiledDataWithPreparseData_payload, Hpayload.
  assert (IsUncompiledData h (function_data r) = true) as Huncompiled
    by by rewrite IsUncompiledData_payload, Hpayload.
  assert (is_compiled h this = Ok false) as Hcompiled.
  { unfold is_compiled. rewrite Hload. simpl. rewrite Huncompiled.
    by rewrite andb_false_r. }
  unfold DiscardCompiled. rewrite DCHECK_true.
  2: { unfold CanDiscardCompiled, HasBytecodeArray, HasAsmWasmData,
         HasUncompiledDataWithPreparseData. rewrite Hload. simpl.
       rewrite Hwith. by rewrite orb_true_r. }
  simpl. rewrite (inferred_name_reported h this r Hload). simpl.
  rewrite (StartPosition_resolve h this r), (EndPosition_resolve h this r)
    by eauto.
  unfold resolve_position. rewrite Hpayload.
  rewrite (DiscardCompiledMetadata_uncompiled h this r Hload Hcompiled Houter).
  assert (ClearPreparseData h this = Ok h') as Hclear.
  { unfold ClearPreparseData. rewrite DCHECK_true.
    - simpl. rewrite Hload. simpl. rewrite Hdata. by rewrite Hcell.
    - unfold HasUncompiledDataWithPreparseData. rewrite Hload. simpl.
      by rewrite Hwith. }
  unfold HasUncompiledDataWithPreparseData.
  destruct (scope_positions h (name_or_scope_info r)) as [[? ?]|]; simpl;
    rewrite Hload; simpl; by rewrite Hwith.
Qed.

(** C3.  Discard round trip: a compiled, discard-eligible record that reports
    start S, end E and inferred name N is turned by DiscardCompiled into a
    record whose payload is a deferred-parse summary without pre-parse cache
    holding N, S and E, and which still reports start S, end E and inferred
    name N. *)
Theorem DiscardCompiled_round_trip (h : Heap) (this : Address)
    (S E : Z) (N : string) :
  is_compiled h this = Ok true →
  CanDiscardCompiled h this = Ok true →
  StartPosition h this = Ok S →
  EndPosition h this = Ok E →
  inferred_name h this = Ok N →
  ∃ h' r',
    DiscardCompiled h this = Ok h'
    ∧ load h' this = Ok r'
    ∧ active_payload h' (function_data r')
        = DeferredParseSummary
            {| UncompiledData_inferred_name := N;
               start_position := S; end_position := E |} None
    ∧ StartPosition h' this = Ok S
    ∧ EndPosition h' this = Ok E
    ∧ inferred_name h' this = Ok N.
Proof.
  intros Hcompiled Hcan HS HE HN.
  destruct (load h this) as [r|] eqn:Hload;
    [|by unfold is_compiled in Hcompiled; rewrite Hload in Hcompiled].
  destruct (is_compiled_payload h this r Hload Hcompiled) as [Hlazy Hnot].
  unfold DiscardCompiled. rewrite (DCHECK_true _ Hcan), HN, HS, HE. simpl.
  destruct (DiscardCompiledMetadata_compiled h this r Hload Hcompiled)
    as [outer ->]. simpl.
  set (r1 := with_raw_outer_scope_info_or_feedback_metadata r outer).
  set (h1 := store h this r1).
  assert (load h1 this = Ok r1) as Hload1 by apply load_store.
  unfold HasUncompiledDataWithPreparseData. rewrite Hload1. simpl.
  assert (IsUncompiledDataWithPreparseData h1 (function_data r) = false) as ->.
  { rewrite IsUncompiledDataWithPreparseData_payload.
    unfold h1. rewrite (active_payload_store h this r r1) by done.
    destruct (active_payload h (function_data r)) as [| | |d c| | | | | |] eqn:Hp;
      try done. by destruct (Hnot d c). }
  set (a := fresh (dom h1)).
  set (summary := {| UncompiledData_inferred_name := N;
                     start_position := S; end_position := E |}).
  set (h2 := <[a := UncompiledDataWithoutPreparseDataCell summary]> h1).
  assert (h1 !! a = None) as Hfresh.
  { apply not_elem_of_dom. apply is_fresh. }
  assert (a ≠ this) as Hne.
  { intros ->. apply load_Some in Hload1. congruence. }
  assert (load h2 this = Ok r1) as Hload2.
  { apply load_Some. unfold h2. rewrite lookup_insert_ne by done.
    by apply load_Some. }
  unfold set_function_data. rewrite Hload2. simpl.
  set (r3 := with_function_data r1 (HeapObject a)).
  set (h3 := store h2 this r3).
  assert (load h3 this = Ok r3) as Hload3 by apply load_store.
  assert (active_payload h3 (function_data r3)
          = DeferredParseSummary summary None) as Hpayload.
  { unfold h3. rewrite (active_payload_store h2 this r1 r3) by done.
    simpl. unfold h2. by rewrite lookup_insert_eq. }
  assert (∀ o, scope_descriptor h3 o = scope_descriptor h o) as Hscope.
  { intros o. unfold h3.
    rewrite (scope_descriptor_store h2 this r1 r3) by done. unfold h2.
    rewrite scope_descriptor_insert; [|done|by rewrite Hfresh].
    unfold h1. by rewrite (scope_descriptor_store h this r r1). }
  exists h3, r3. split; [done|]. split; [done|]. split; [done|].
  rewrite (StartPosition_resolve h3 this r3), (EndPosition_resolve h3 this r3),
    (inferred_name_reported h3 this r3) by done.
  rewrite (StartPosition_resolve h this r) in HS by done.
  rewrite (EndPosition_resolve h this r) in HE by done.
  rewrite (inferred_name_reported h this r) in HN by done.
  unfold resolve_position, reported_inferred_name, scope_positions in *.
  rewrite !Hscope, Hpayload. simpl.
  destruct (scope_descriptor h (name_or_scope_info r)) as [info|]; simpl in *.
  - destruct (PositionInfo info); simpl in *; done.
  - done.
Qed.

(** *** SetPosition, branch by branch *)

Lemma SetPosition_scope (h : Heap) (this : Address) (r : SharedFunctionInfo)
    (b : Address) (info : ScopeInfo) (old : Z * Z) (start_pos end_pos : Z) :
  load h this = Ok r →
  name_or_scope_info r = HeapObject b →
  h !! b = Some (ScopeInfoCell info) →
  PositionInfo info = Some old →
  SetPosition h this start_pos end_pos
    = Ok (<[b := ScopeInfoCell
                   {| PositionInfo := Some (start_pos, end_pos);
                      OuterScopeInfo := OuterScopeInfo info;
                      FunctionName := FunctionName info;
                      InferredFunctionName := InferredFunctionName info |}]> h).
Proof.
  intros Hload Hname Hcell Hpos. unfold SetPosition. rewrite Hload. simpl.
  unfold IsScopeInfo, ScopeInfo_cast, SetPositionInfo, ScopeInfo_cast,
    HasPositionInfo.
  rewrite Hname. simpl. rewrite Hcell. simpl. rewrite Hpos. simpl.
  by rewrite DCHECK_true.
Qed.

Lemma SetPosition_scope_without_positions (h : Heap) (this : Address)
    (r : SharedFunctionInfo) (info : ScopeInfo) (start_pos end_pos : Z) :
  load h this = Ok r →
  scope_descriptor h (name_or_scope_info r) = Some info →
  PositionInfo info = None →
  SetPosition h this start_pos end_pos = Ok h.
Proof.
  intros Hload Hscope Hpos. unfold SetPosition. rewrite Hload. simpl.
  unfold scope_descriptor in Hscope.
  unfold IsScopeInfo, ScopeInfo_cast, HasPositionInfo.
  destruct (cell_of h (name_or_scope_info r)) as [[]|]; simplify_eq.
  simpl. rewrite Hpos. rewrite bool_decide_eq_false_2; [done|].
  by intros [? ?].
Qed.

Lemma SetPosition_summary (h : Heap) (this : Address) (r : SharedFunctionInfo)
    (a : Address) (summary : UncompiledData) (cache : option Object)
    (start_pos end_pos : Z) :
  load h this = Ok r →
  scope_descriptor h (name_or_scope_info r) = None →
  function_data r = HeapObject a →
  active_payload h (HeapObject a) = DeferredParseSummary summary cache →
  SetPosition h this start_pos end_pos
    = Ok (<[a := UncompiledDataWithoutPreparseDataCell
                   {| UncompiledData_inferred_name :=
                        UncompiledData_inferred_name summary;
                      start_position := start_pos;
                      end_position := end_pos |}]> h).
Proof.
  intros Hload Hscope Hdata Hpayload. unfold SetPosition. rewrite Hload. simpl.
  assert (IsScopeInfo h (name_or_scope_info r) = false) as ->.
  { unfold IsScopeInfo. unfold scope_descriptor in Hscope.
    by destruct (cell_of h (name_or_scope_info r)) as [[]|]. }
  assert (a ≠ this) as Hne.
  { intros ->. apply load_Some in Hload. simpl in Hpayload.
    by rewrite Hload in Hpayload. }
  simpl in Hpayload.
  destruct (h !! a) as [c|] eqn:Hcell; [|done].
  destruct c; simplify_eq;
    unfold HasUncompiledData, HasUncompiledDataWithPreparseData,
      ClearPreparseData, set_start_position, set_end_position,
      UncompiledData_set_positions, HasUncompiledDataWithPreparseData,
      HasUncompiledData, DCHECK, load, IsUncompiledData,
      IsUncompiledDataWithoutPreparseData, IsUncompiledDataWithPreparseData;
    apply load_Some in Hload;
    repeat (simpl; rewrite ?Hload, ?Hdata, ?Hcell, ?lookup_insert_eq,
              ?(lookup_insert_ne _ a this) by done);
    destruct DEBUG; simpl;
    repeat (simpl; rewrite ?Hload, ?Hdata, ?Hcell, ?lookup_insert_eq,
              ?(lookup_insert_ne _ a this) by done);
    by rewrite ?insert_insert_eq.
Qed.

Lemma scope_descriptor_Some (h : Heap) (o : Object) (info : ScopeInfo) :
  scope_descriptor h o = Some info →
  ∃ b, o = HeapObject b ∧ h !! b = Some (ScopeInfoCell info).
Proof.
  unfold scope_descriptor. destruct o as [| | | |b]; try done. simpl.
  destruct (h !! b) as [[]|] eqn:Hcell; try done. intros [= ->]. eauto.
Qed.

Lemma DeferredParseSummary_ref (h : Heap) (o : Object)
    (summary : UncompiledData) (cache : option Object) :
  active_payload h o = DeferredParseSummary summary cache →
  ∃ a, o = HeapObject a.
Proof.
  destruct o as [| | | |a]; try done. eauto.
Qed.

Lemma SetPosition_unreachable (h : Heap) (this : Address)
    (r : SharedFunctionInfo) (start_pos end_pos : Z) :
  load h this = Ok r →
  scope_descriptor h (name_or_scope_info r) = None →
  (∀ summary cache,
     active_payload h (function_data r) ≠ DeferredParseSummary summary cache) →
  SetPosition h this start_pos end_pos = Fatal.
Proof.
  intros Hload Hscope Hpayload. unfold SetPosition. rewrite Hload. simpl.
  assert (IsScopeInfo h (name_or_scope_info r) = false) as ->.
  { unfold IsScopeInfo. unfold scope_descriptor in Hscope.
    by destruct (cell_of h (name_or_scope_info r)) as [[]|]. }
  unfold HasUncompiledData. rewrite Hload. simpl.
  rewrite IsUncompiledData_payload.
  destruct (active_payload h (function_data r)) as [| | |d c| | | | | |];
    try done. by destruct (Hpayload d c).
Qed.

(** SetPosition, branch by branch.  It writes through the scope descriptor
    when the name slot holds one with position data; it changes nothing, and
    does not fail, when the name slot holds a scope descriptor without
    position data; otherwise, when the payload is a deferred-parse summary,
    it drops the pre-parse cache first and writes the summary's positions,
    after which the source size is end - start taken as an int.  It is fatal
    exactly when the name slot holds no scope descriptor and the payload is
    not a deferred-parse summary. *)
Theorem SetPosition_writes_back (h : Heap) (this : Address)
    (r : SharedFunctionInfo) (start_pos end_pos : Z) :
  load h this = Ok r →
  (∀ info, scope_descriptor h (name_or_scope_info r) = Some info →
     is_Some (PositionInfo info) →
     ∃ h', SetPosition h this start_pos end_pos = Ok h'
           ∧ load h' this = Ok r
           ∧ scope_positions h' (name_or_scope_info r)
               = Some (start_pos, end_pos)
           ∧ StartPosition h' this = Ok start_pos
           ∧ EndPosition h' this = Ok end_pos)
  ∧ (∀ info, scope_descriptor h (name_or_scope_info r) = Some info →
       PositionInfo info = None →
       SetPosition h this start_pos end_pos = Ok h)
  ∧ (∀ summary cache,
       scope_descriptor h (name_or_scope_info r) = None →
       active_payload h (function_data r)
         = DeferredParseSummary summary cache →
       ∃ h', SetPosition h this start_pos end_pos = Ok h'
             ∧ load h' this = Ok r
             ∧ active_payload h' (function_data r)
                 = DeferredParseSummary
                     {| UncompiledData_inferred_name :=
                          UncompiledData_inferred_name summary;
                        start_position := start_pos;
                        end_position := end_pos |} None
             ∧ StartPosition h' this = Ok start_pos
             ∧ EndPosition h' this = Ok end_pos
             ∧ SourceSize h' this = Ok (to_int32 (end_pos - start_pos)))
  ∧ (SetPosition h this start_pos end_pos = Fatal
     ↔ scope_descriptor h (name_or_scope_info r) = None
       ∧ ∀ summary cache,
           active_payload h (function_data r)
             ≠ DeferredParseSummary summary cache).
Proof.
  intros Hload.
  assert (Hscope : ∀ info,
    scope_descriptor h (name_or_scope_info r) = Some info →
    is_Some (PositionInfo info) →
    ∃ h', SetPosition h this start_pos end_pos = Ok h'
          ∧ load h' this = Ok r
          ∧ scope_positions h' (name_or_scope_info r)
              = Some (start_pos, end_pos)
          ∧ StartPosition h' this = Ok start_pos
          ∧ EndPosition h' this = Ok end_pos).
  { intros info Hinfo [old Hold].
    destruct (scope_descriptor_Some _ _ _ Hinfo) as (b & Hname & Hcell).
    eexists. split; [by apply (SetPosition_scope h this r b info old)|].
    assert (b ≠ this) as Hne.
    { intros ->. apply load_Some in Hload. congruence. }
    match goal with |- load ?h' _ = _ ∧ _ => set (h1 := h') end.
    assert (load h1 this = Ok r) as Hload1.
    { apply load_Some. unfold h1. rewrite lookup_insert_ne by done.
      by apply load_Some. }
    assert (scope_positions h1 (name_or_scope_info r)
            = Some (start_pos, end_pos)) as Hpos1.
    { unfold scope_positions, scope_descriptor, h1. rewrite Hname. simpl.
      by rewrite lookup_insert_eq. }
    split; [done|]. split; [done|].
    rewrite (StartPosition_resolve h1 this r), (EndPosition_resolve h1 this r);
      [|done|by rewrite Hpos1|done|by rewrite Hpos1].
    unfold resolve_position. by rewrite Hpos1. }
  assert (Hsummary : ∀ summary cache,
    scope_descriptor h (name_or_scope_info r) = None →
    active_payload h (function_data r) = DeferredParseSummary summary cache →
    ∃ h', SetPosition h this start_pos end_pos = Ok h'
          ∧ load h' this = Ok r
          ∧ active_payload h' (function_data r)
              = DeferredParseSummary
                  {| UncompiledData_inferred_name :=
                       UncompiledData_inferred_name summary;
                     start_position := start_pos;
                     end_position := end_pos |} None
          ∧ StartPosition h' this = Ok start_pos
          ∧ EndPosition h' this = Ok end_pos
          ∧ SourceSize h' this = Ok (to_int32 (end_pos - start_pos))).
  { intros summary cache Hnone Hpayload.
    destruct (DeferredParseSummary_ref _ _ _ _ Hpayload) as [a Hdata].
    rewrite Hdata in Hpayload.
    eexists.
    split; [by apply (SetPosition_summary h this r a summary cache)|].
    match goal with |- load ?h' _ = _ ∧ _ => set (h1 := h') end.
    assert (a ≠ this) as Hne.
    { intros ->. apply load_Some in Hload. simpl in Hpayload.
      by rewrite Hload in Hpayload. }
    assert (load h1 this = Ok r) as Hload1.
    { apply load_Some. unfold h1. rewrite lookup_insert_ne by done.
      by apply load_Some. }
    assert (scope_positions h1 (name_or_scope_info r) = None) as Hpos1.
    { unfold scope_positions, h1. rewrite scope_descriptor_insert.
      - by rewrite Hnone.
      - done.
      - intros info Hcell. simpl in Hpayload. by rewrite Hcell in Hpayload. }
    assert (active_payload h1 (function_data r)
            = DeferredParseSummary
                {| UncompiledData_inferred_name :=
                     UncompiledData_inferred_name summary;
                   start_position := start_pos;
                   end_position := end_pos |} None) as Hpayload1.
    { rewrite Hdata. simpl. unfold h1. by rewrite lookup_insert_eq. }
    assert (StartPosition h1 this = Ok start_pos) as HS.
    { rewrite (StartPosition_resolve h1 this r);
        [|done|intros _; by rewrite Hdata].
      unfold resolve_position. by rewrite Hpos1, Hpayload1. }
    assert (EndPosition h1 this = Ok end_pos) as HE.
    { rewrite (EndPosition_resolve h1 this r);
        [|done|intros _; by rewrite Hdata].
      unfold resolve_position. by rewrite Hpos1, Hpayload1. }
    repeat (split; [done|]). unfold SourceSize. by rewrite HS, HE. }
  split; [exact Hscope|]. split.
  { intros info. by apply SetPosition_scope_without_positions. }
  split; [exact Hsummary|]. split.
  - intros Hfatal.
    destruct (scope_descriptor h (name_or_scope_info r)) as [info|] eqn:Hinfo.
    + destruct (PositionInfo info) as [old|] eqn:Hold.
      * destruct (Hscope info eq_refl) as (h' & Hok & _); [by eauto|].
        congruence.
      * rewrite (SetPosition_scope_without_positions h this r info) in Hfatal;
          done.
    + split; [done|]. intros summary cache Hpayload.
      destruct (Hsummary summary cache eq_refl Hpayload) as (h' & Hok & _).
      congruence.
  - intros [Hnone Hpayload]. by apply (SetPosition_unreachable h this r).
Qed.

(** C2.  StartPosition and EndPosition follow the fixed precedence of
    [resolve_position]: (1) the positions embedded in the scope descriptor
    of the name slot, (2) else those stored in the deferred-parse summary,
    (3) else 0 for a host-API function or a builtin id, (4) else the offset
    and end offset of the foreign module's per-function table for exported
    foreign-function data, (5) else the no-position sentinel.  Where the
    scope descriptor does not settle the position, the builtin id is not the
    lazy-compile builtin. *)
Theorem position_precedence (h : Heap) (this : Address) (r : SharedFunctionInfo) :
  load h this = Ok r →
  (scope_positions h (name_or_scope_info r) = None →
   function_data r ≠ Smi kCompileLazy) →
  StartPosition h this = resolve_position fst start_position code_offset h r
  ∧ EndPosition h this = resolve_position snd end_position code_end_offset h r.
Proof.
  intros Hload Hlazy. split.
  - by apply StartPosition_resolve.
  - by apply EndPosition_resolve.
Qed.

Lemma Hash_combines (h : Heap) (this : Address) :
  Hash h this
    = (start_pos ← StartPosition h this;
       unit ← script h this;
       Ok (to_uint32 (hash_combine start_pos (owning_unit_id h unit)))).
Proof.
  unfold Hash. destruct (StartPosition h this) as [start_pos|]; [|done].
  simpl. destruct (script h this) as [unit|]; [|done]. simpl.
  unfold IsScript, Script_cast, owning_unit_id.
  by destruct (cell_of h unit) as [[]|].
Qed.

(** C6.  Hash reads the heap and returns a value without changing anything,
    and the value is a function of two inputs only: the start position and
    the owning unit's identity, taken as 0 when no unit is associated.  Two
    records with equal start positions and equal unit identities (in
    particular the same unit, or no unit on either side) hash identically. *)
Theorem Hash_pure_function (h1 h2 : Heap) (this1 this2 : Address)
    (start_pos : Z) (unit1 unit2 : Object) :
  StartPosition h1 this1 = Ok start_pos →
  StartPosition h2 this2 = Ok start_pos →
  script h1 this1 = Ok unit1 →
  script h2 this2 = Ok unit2 →
  (Hash h1 this1
     = Ok (to_uint32 (hash_combine start_pos (owning_unit_id h1 unit1))))
  ∧ (owning_unit_id h1 unit1 = owning_unit_id h2 unit2 →
     Hash h1 this1 = Hash h2 this2)
  ∧ (IsScript h1 unit1 = false → IsScript h2 unit2 = false →
     Hash h1 this1 = Ok (to_uint32 (hash_combine start_pos 0))
     ∧ Hash h1 this1 = Hash h2 this2).
Proof.
  intros HS1 HS2 Hu1 Hu2. rewrite !Hash_combines, HS1, HS2, Hu1, Hu2. simpl.
  split; [done|]. split.
  - by intros ->.
  - unfold IsScript, owning_unit_id. intros H1 H2.
    destruct (cell_of h1 unit1) as [[]|]; try done;
      destruct (cell_of h2 unit2) as [[]|]; done.
Qed.

Lemma script_source_unit_ref (h : Heap) (this : Address) (r : SharedFunctionInfo) :
  load h this = Ok r → script h this = Ok (source_unit_ref h r).
Proof.
  intros Hload. unfold script, source_unit_ref. rewrite Hload. simpl.
  unfold IsDebugInfo, DebugInfo_cast.
  by destruct (cell_of h (script_or_debug_info r)) as [[]|].
Qed.

Lemma IsScript_source_unit (h : Heap) (r : SharedFunctionInfo) :
  IsScript h (source_unit_ref h r) = bool_decide (is_Some (source_unit h r)).
Proof.
  unfold IsScript, source_unit.
  by destruct (cell_of h (source_unit_ref h r)) as [[]|].
Qed.

Lemma HasBuiltinId_payload (h : Heap) (this : Address) (r : SharedFunctionInfo) :
  load h this = Ok r →
  HasBuiltinId h this
    = Ok match active_payload h (function_data r) with
         | BuiltinReference _ => true
         | _ => false
         end.
Proof.
  intros Hload. unfold HasBuiltinId. rewrite Hload. simpl.
  destruct (function_data r) as [| | | |a]; try done. simpl.
  by destruct (h !! a) as [[]|].
Qed.

Lemma HasBytecodeArray_payload (h : Heap) (this : Address)
    (r : SharedFunctionInfo) :
  load h this = Ok r →
  HasBytecodeArray h this = Ok (has_bytecode_program h r).
Proof.
  intros Hload. unfold HasBytecodeArray, has_bytecode_program.
  rewrite Hload. simpl. unfold IsBytecodeArray, IsInterpreterData.
  destruct (function_data r) as [| | | |a]; try done. simpl.
  by destruct (h !! a) as [[]|].
Qed.

Lemma IsUserJavaScript_unit (h : Heap) (this : Address)
    (r : SharedFunctionInfo) (unit : Script) :
  load h this = Ok r →
  source_unit h r = Some unit →
  IsUserJavaScript h this = Ok (Script_IsUserJavaScript unit).
Proof.
  intros Hload Hunit. unfold IsUserJavaScript.
  rewrite (script_source_unit_ref h this r Hload). simpl.
  unfold source_unit in Hunit. unfold Script_cast.
  destruct (source_unit_ref h r) as [| | | |a]; try done. simpl in *.
  destruct (h !! a) as [[]|]; by simplify_eq.
Qed.

Lemma HasBreakInfo_debug_info (h : Heap) (this : Address)
    (r : SharedFunctionInfo) :
  load h this = Ok r →
  HasBreakInfo h this
    = Ok match attached_debug_info h r with
         | Some d => DebugInfo_HasBreakInfo d
         | None => false
         end.
Proof.
  intros Hload.
  unfold HasBreakInfo, GetDebugInfo, HasDebugInfo, attached_debug_info.
  rewrite Hload. simpl. unfold IsDebugInfo.
  destruct (cell_of h (script_or_debug_info r)) as [[]|] eqn:Hcell;
    simpl; try done.
  rewrite DCHECK_true.
  - simpl. unfold DebugInfo_cast. by rewrite Hcell.
  - done.
Qed.

Lemma bytecode_length_program_aux (h : Heap) (this : Address)
    (r : SharedFunctionInfo) :
  load h this = Ok r →
  has_bytecode_program h r = true →
  (bytecode ← GetBytecodeArray h this; BytecodeArray_length h bytecode)
    = match bytecode_program_length h r with
      | Some len => Ok len
      | None => Fatal
      end.
Proof.
  intros Hload Hprogram. unfold GetBytecodeArray.
  rewrite DCHECK_true
    by (by rewrite (HasBytecodeArray_payload h this r Hload), Hprogram).
  simpl. unfold bytecode_program_length, attached_debug_info, HasDebugInfo,
    GetDebugInfo.
  rewrite Hload. simpl. unfold IsDebugInfo, BytecodeArray_length.
  assert (∀ o, (if IsBytecodeArray h (function_data r) then Ok (function_data r)
                else match cell_of h (function_data r) with
                     | Some (InterpreterDataCell bytecode _) => Ok bytecode
                     | _ => Fatal
                     end) = Ok o →
           match cell_of h o with
           | Some (BytecodeArrayCell n) => Ok n
           | _ => Fatal
           end
           = match
               match active_payload h (function_data r) with
               | BytecodeProgram n => Some n
               | InterpreterTrampolineData bytecode _ =>
                   match cell_of h bytecode with
                   | Some (BytecodeArrayCell n) => Some n
                   | _ => None
                   end
               | _ => None
               end
             with Some len => Ok len | None => Fatal end) as Hpayload.
  { intros o. unfold has_bytecode_program in Hprogram. unfold IsBytecodeArray.
    destruct (function_data r) as [| | | |a]; try done. simpl in *.
    destruct (h !! a) as [[]|] eqn:Hcell; try done; intros [= <-]; simpl.
    - by rewrite Hcell.
    - by destruct (cell_of h bytecode_array) as [[]|]. }
  destruct (cell_of h (script_or_debug_info r)) as [[]|] eqn:Hcell; simpl;
    try (destruct (if IsBytecodeArray h (function_data r) then _ else _)
           as [o|] eqn:Ho; simpl; [by apply Hpayload|];
         unfold has_bytecode_program in Hprogram;
         unfold IsBytecodeArray in Ho;
         destruct (function_data r) as [| | | |a]; try done; simpl in *;
         by destruct (h !! a) as [[]|]).
  rewrite DCHECK_true
    by (unfold HasDebugInfo, IsDebugInfo; rewrite Hload; simpl;
        by rewrite Hcell).
  simpl. unfold DebugInfo_cast. rewrite Hcell. simpl.
  destruct (OriginalBytecodeArray info) as [original|]; simpl.
  - by destruct (cell_of h original) as [[]|].
  - destruct (if IsBytecodeArray h (function_data r) then _ else _)
      as [o|] eqn:Ho; simpl; [by apply Hpayload|].
    unfold has_bytecode_program in Hprogram. unfold IsBytecodeArray in Ho.
    destruct (function_data r) as [| | | |a]; try done; simpl in *.
    by destruct (h !! a) as [[]|].
Qed.

Lemma bytecode_length_program_then {A : Type} (h : Heap) (this : Address)
    (r : SharedFunctionInfo) (k : Z → result A) :
  load h this = Ok r →
  has_bytecode_program h r = true →
  (bytecode ← GetBytecodeArray h this;
   len ← BytecodeArray_length h bytecode; k len)
    = match bytecode_program_length h r with
      | Some len => k len
      | None => Fatal
      end.
Proof.
  intros Hload Hprogram.
  pose proof (bytecode_length_program_aux h this r Hload Hprogram) as Haux.
  destruct (bytecode_program_length h r) as [len|];
    destruct (GetBytecodeArray h this) as [bytecode|]; simpl in *;
    try done; by rewrite Haux.
Qed.

(** C5.  GetInlineability is the ordered, first-match-wins decision list
    [inlineability_rules]: no source unit, pending precise coverage,
    optimization disabled, builtin id, not user code, no bytecode program,
    bytecode over the configured maximum, active breakpoints, and otherwise
    inlineable.  The length rule is reached only by records with a bytecode
    program, whose length is then readable.  In particular a record with a
    source unit, no pending coverage and optimization disabled yields
    OptimizationDisabled whatever its payload. *)
Theorem GetInlineability_decision_list (h : Heap) (this : Address)
    (r : SharedFunctionInfo) :
  load h this = Ok r →
  (has_bytecode_program h r = true → is_Some (bytecode_program_length h r)) →
  GetInlineability h this
    = Ok (first_match (inlineability_rules h r) kIsInlineable)
  ∧ (is_Some (source_unit h r) →
     is_precise_binary_code_coverage && negb (has_reported_binary_coverage r)
       = false →
     disable_optimization_reason r ≠ kNoReason →
     GetInlineability h this = Ok kHasOptimizationDisabled).
Proof.
  intros Hload Hlen.
  assert (GetInlineability h this
          = Ok (first_match (inlineability_rules h r) kIsInlineable)) as Hmain.
  { unfold GetInlineability, inlineability_rules, first_match.
    rewrite (script_source_unit_ref h this r Hload). simpl.
    rewrite IsScript_source_unit.
    destruct (source_unit h r) as [unit|] eqn:Hunit; simpl; [|done].
    rewrite Hload. simpl.
    destruct (is_precise_binary_code_coverage
              && negb (has_reported_binary_coverage r)); [done|].
    unfold optimization_disabled. rewrite Hload. simpl.
    destruct (decide (disable_optimization_reason r = kNoReason)) as [Hr|Hr].
    2: { rewrite (bool_decide_eq_false_2 _ Hr), (bool_decide_eq_true_2 _ Hr).
         done. }
    rewrite (bool_decide_eq_true_2 _ Hr). simpl.
    rewrite bool_decide_eq_false_2 by (intros Hne; by apply Hne).
    rewrite (HasBuiltinId_payload h this r Hload). simpl.
    destruct (active_payload h (function_data r)) eqn:Hpayload; try done;
      rewrite (IsUserJavaScript_unit h this r unit Hload Hunit); simpl;
      (destruct (Script_IsUserJavaScript unit); simpl; [|done]);
      rewrite (HasBytecodeArray_payload h this r Hload);
      unfold has_bytecode_program in *; rewrite Hpayload in *; simpl;
      try done;
      rewrite (bytecode_length_program_then h this r _ Hload)
        by (unfold has_bytecode_program; by rewrite Hpayload);
      (destruct Hlen as [len Hlen]; [done|]); rewrite Hlen; simpl;
      (destruct (bool_decide (len > FLAG_max_inlined_bytecode_size)); [done|]);
      rewrite (HasBreakInfo_debug_info h this r Hload); simpl;
      by destruct (match attached_debug_info h r with
                   | Some d => DebugInfo_HasBreakInfo d
                   | None => false
                   end). }
  split; [exact Hmain|].
  intros [unit Hunit] Hcoverage Hdisabled. rewrite Hmain.
  unfold inlineability_rules, first_match. rewrite Hunit, Hcoverage.
  rewrite bool_decide_eq_false_2 by done.
  by rewrite bool_decide_eq_true_2 by done.
Qed.

(** *** The source-unit reference and its setter *)

Lemma IsDebugInfo_insert (h : Heap) (a : Address) (c : HeapCell) (o : Object) :
  (∀ d, c ≠ DebugInfoCell d) →
  (∀ d, h !! a ≠ Some (DebugInfoCell d)) →
  IsDebugInfo (<[a := c]> h) o = IsDebugInfo h o.
Proof.
  intros Hc Hold. unfold IsDebugInfo. rewrite cell_of_insert.
  case_decide as Ho; [|done]. subst o. simpl.
  destruct c; try done; try (by edestruct Hc);
    destruct (h !! a) as [[]|] eqn:Hcell; try done; by edestruct Hold.
Qed.

Lemma script_insert (h : Heap) (a this : Address) (c : HeapCell) :
  a ≠ this →
  (∀ d, c ≠ DebugInfoCell d) →
  (∀ d, h !! a ≠ Some (DebugInfoCell d)) →
  script (<[a := c]> h) this = script h this.
Proof.
  intros Hne Hc Hold. unfold script. rewrite load_insert_ne by done.
  destruct (load h this) as [r|]; [|done]. simpl.
  rewrite IsDebugInfo_insert by done.
  unfold IsDebugInfo, DebugInfo_cast. rewrite cell_of_insert.
  case_decide as Ho; [|done]. rewrite Ho. simpl.
  destruct (h !! a) as [[]|] eqn:Hcell; try done. by edestruct Hold.
Qed.

Lemma set_script_script (h h' : Heap) (this : Address) (unit : Object) :
  IsDebugInfo h unit = false →
  set_script h this unit = Ok h' →
  script h' this = Ok unit.
Proof.
  intros Hunit. unfold set_script, set_script_or_debug_info.
  destruct (load h this) as [r|] eqn:Hload; [|done]. simpl.
  pose proof Hload as Hthis%load_Some.
  assert (Hstore : script (store h this (with_script_or_debug_info r unit)) this
                   = Ok unit).
  { unfold script. rewrite load_store. simpl. unfold store.
    rewrite IsDebugInfo_insert; [by rewrite Hunit|done|].
    rewrite Hthis. congruence. }
  destruct (script_or_debug_info r) as [| | | |a] eqn:Hslot;
    try (by intros [= <-]).
  destruct (h !! a) as [c|] eqn:Hcell; [|by intros [= <-]].
  destruct c; try (by intros [= <-]). intros [= <-].
  assert (a ≠ this) as Hne by congruence.
  unfold script. rewrite load_insert_ne, Hload by done. simpl.
  unfold IsDebugInfo, DebugInfo_cast. rewrite Hslot. simpl.
  by rewrite lookup_insert_eq.
Qed.

Lemma set_script_total (h : Heap) (this : Address) (r : SharedFunctionInfo)
    (unit : Object) :
  load h this = Ok r → ∃ h', set_script h this unit = Ok h'.
Proof.
  intros Hload. unfold set_script, set_script_or_debug_info.
  rewrite Hload. simpl.
  destruct (script_or_debug_info r) as [| | | |a]; eauto.
  destruct (h !! a) as [[]|]; eauto.
Qed.

(** [set_script] touches the record or its debug info, nothing else. *)
Lemma set_script_frame (h h' : Heap) (this b : Address) (unit : Object)
    (c : HeapCell) :
  set_script h this unit = Ok h' →
  h !! b = Some c →
  (∀ r, c ≠ SharedFunctionInfoCell r) →
  (∀ d, c ≠ DebugInfoCell d) →
  h' !! b = Some c.
Proof.
  unfold set_script, set_script_or_debug_info.
  destruct (load h this) as [r|] eqn:Hload; [|done]. simpl.
  apply load_Some in Hload. intros Hset Hb Hsfi Hdebug.
  assert (b ≠ this) as Hthis.
  { intros ->. rewrite Hload in Hb. simplify_eq. by edestruct Hsfi. }
  assert (store h this (with_script_or_debug_info r unit) !! b = Some c)
    as Hstore.
  { unfold store. by rewrite lookup_insert_ne. }
  destruct (script_or_debug_info r) as [| | | |a] eqn:Hslot;
    try (by simplify_eq).
  destruct (h !! a) as [c'|] eqn:Hcell; [|by simplify_eq].
  destruct c'; try (by simplify_eq). simplify_eq.
  rewrite lookup_insert_ne; [done|]. intros ->. rewrite Hcell in Hb.
  simplify_eq. by edestruct Hdebug.
Qed.

Lemma ClearPreparseData_inv (h h' : Heap) (this : Address) :
  ClearPreparseData h this = Ok h' →
  ∃ a d p, h !! a = Some (UncompiledDataWithPreparseDataCell d p)
           ∧ h' = <[a := UncompiledDataWithoutPreparseDataCell d]> h.
Proof.
  unfold ClearPreparseData.
  destruct (DCHECK _) as [[]|]; [|done]. simpl.
  destruct (load h this) as [r|]; [|done]. simpl.
  destruct (function_data r) as [| | | |a]; try done.
  destruct (h !! a) as [[]|] eqn:Hcell; try done. intros [= <-]. eauto.
Qed.

Lemma WeakFixedArray_Set_inv (h h' : Heap) (o : Object) (index : Z)
    (value : MaybeObject) :
  WeakFixedArray_Set h o index value = Ok h' →
  ∃ t slots, o = HeapObject t
             ∧ h !! t = Some (WeakFixedArrayCell slots)
             ∧ 0 ≤ index < Z.of_nat (length slots)
             ∧ h' = <[t := WeakFixedArrayCell
                              (<[Z.to_nat index := value]> slots)]> h.
Proof.
  unfold WeakFixedArray_Set, WeakFixedArray_cast.
  destruct o as [| | | |t]; try done. simpl.
  destruct (h !! t) as [[]|] eqn:Hcell; try done. simpl.
  case_decide as Hindex; [|done]. intros [= <-]. eauto 10.
Qed.

(** A call of SetScript that gets past the early return ends in [set_script]
    on a heap in which the same values are debug infos. *)
Lemma SetScript_inv (h h' : Heap) (this : Address) (unit : Object)
    (function_literal_id : Z) (reset : bool) :
  SetScript h this unit function_literal_id reset = Ok h' →
  (script h this = Ok unit ∧ h' = h)
  ∨ ∃ h2, (∀ o, IsDebugInfo h2 o = IsDebugInfo h o)
          ∧ set_script h2 this unit = Ok h'.
Proof.
  unfold SetScript. destruct (script h this) as [current|]; [|done]. simpl.
  case_bool_decide as Hcurrent.
  { intros [= <-]. left. by subst. }
  intros Hcall. right.
  destruct (if reset then HasUncompiledDataWithPreparseData h this else Ok false)
    as [with_preparse_data|]; [|done]. simpl in Hcall.
  destruct (if with_preparse_data then ClearPreparseData h this else Ok h)
    as [h1|] eqn:Hclear; [|done]. simpl in Hcall.
  assert (∀ o, IsDebugInfo h1 o = IsDebugInfo h o) as Hsame1.
  { destruct with_preparse_data; [|by simplify_eq].
    apply ClearPreparseData_inv in Hclear as (a & d & p & Hcell & ->).
    intros o. apply IsDebugInfo_insert; [done|]. rewrite Hcell. congruence. }
  match type of Hcall with
  | (?step ≫= _) = _ => destruct step as [h2|] eqn:Hstep; [|done]
  end.
  simpl in Hcall. exists h2. split; [|done].
  assert (∀ o index value h2,
            WeakFixedArray_Set h1 o index value = Ok h2 →
            ∀ o, IsDebugInfo h2 o = IsDebugInfo h o) as Hset.
  { intros o index value h2' Hset.
    apply WeakFixedArray_Set_inv in Hset as (t & slots & -> & Hcell & _ & ->).
    intros o. rewrite <- Hsame1. apply IsDebugInfo_insert; [done|].
    rewrite Hcell. congruence. }
  destruct (IsScript h1 unit).
  - destruct (DCHECK _) as [[]|]; [|done]. simpl in Hstep.
    destruct (Script_cast h1 unit) as [new_script|]; [|done]. simpl in Hstep.
    match type of Hstep with
    | (?check ≫= _) = _ => destruct check; [|done]
    end.
    simpl in Hstep. by eapply Hset.
  - destruct (DCHECK _) as [[]|]; [|done]. simpl in Hstep.
    destruct (script h1 this) as [old|]; [|done]. simpl in Hstep.
    destruct (Script_cast h1 old) as [old_script|]; [|done]. simpl in Hstep.
    destruct (WeakFixedArray_length _ _) as [len|]; [|done]. simpl in Hstep.
    case_bool_decide; [|by simplify_eq].
    destruct (WeakFixedArray_Get _ _ _) as [raw|]; [|done]. simpl in Hstep.
    destruct (GetHeapObjectIfWeak raw) as [heap_object|]; [|by simplify_eq].
    case_bool_decide; [|by simplify_eq]. by eapply Hset.
Qed.

(** C7.  Idempotence of association: once SetScript has associated a record
    with a unit (or with none), calling it again with the same unit returns
    at the comparison with the current unit and leaves the whole heap as it
    is: no table write, no pre-parse-cache reset, no change of the record's
    source-unit reference. *)
Theorem SetScript_idempotent (h h' : Heap) (this : Address) (unit : Object)
    (function_literal_id : Z) (reset : bool) :
  IsDebugInfo h unit = false →
  SetScript h this unit function_literal_id reset = Ok h' →
  script h' this = Ok unit
  ∧ ∀ reset', SetScript h' this unit function_literal_id reset' = Ok h'.
Proof.
  intros Hunit Hcall.
  assert (script h' this = Ok unit) as Hscript.
  { apply SetScript_inv in Hcall as [[Hscript ->]|(h2 & Hsame & Hset)];
      [done|].
    apply (set_script_script h2); [|done]. by rewrite Hsame. }
  split; [done|]. intros reset'. unfold SetScript. rewrite Hscript. simpl.
  by rewrite bool_decide_eq_true_2.
Qed.

Lemma script_load (h : Heap) (this : Address) (unit : Object) :
  script h this = Ok unit → ∃ r, load h this = Ok r.
Proof.
  unfold script. destruct (load h this) as [r|]; [eauto|done].
Qed.

(** The optional drop of the pre-parse cache at the start of SetScript
    succeeds and leaves records, scripts, debug infos and weak tables as
    they are. *)
Lemma SetScript_reset_step (h : Heap) (this : Address) (r : SharedFunctionInfo)
    (reset : bool) :
  load h this = Ok r →
  ∃ with_preparse_data h1,
    (if reset then HasUncompiledDataWithPreparseData h this else Ok false)
      = Ok with_preparse_data
    ∧ (if with_preparse_data : bool then ClearPreparseData h this else Ok h)
        = Ok h1
    ∧ load h1 this = Ok r
    ∧ script h1 this = script h this
    ∧ (∀ o, IsDebugInfo h1 o = IsDebugInfo h o)
    ∧ (∀ o, IsScript h1 o = IsScript h o)
    ∧ (∀ b s, h !! b = Some (ScriptCell s) → h1 !! b = Some (ScriptCell s))
    ∧ (∀ b l, h !! b = Some (WeakFixedArrayCell l) →
              h1 !! b = Some (WeakFixedArrayCell l)).
Proof.
  intros Hload.
  destruct reset; [|by exists false, h].
  unfold HasUncompiledDataWithPreparseData. rewrite Hload. simpl.
  destruct (IsUncompiledDataWithPreparseData h (function_data r)) eqn:Hdata;
    [|by exists false, h].
  exists true. unfold ClearPreparseData.
  rewrite DCHECK_true
    by (unfold HasUncompiledDataWithPreparseData; rewrite Hload; simpl;
        by rewrite Hdata).
  simpl. rewrite Hload. simpl.
  unfold IsUncompiledDataWithPreparseData in Hdata.
  destruct (function_data r) as [| | | |a]; try done. simpl in Hdata.
  destruct (h !! a) as [[]|] eqn:Hcell; try done.
  eexists. split; [done|]. split; [done|].
  assert (a ≠ this) as Hne.
  { intros ->. apply load_Some in Hload. congruence. }
  split; [by rewrite load_insert_ne|].
  split; [apply script_insert; [done|done|rewrite Hcell; congruence]|].
  split; [intros o; apply IsDebugInfo_insert;
            [done|rewrite Hcell; congruence]|].
  split.
  { intros o. unfold IsScript. rewrite cell_of_insert.
    case_decide as Ho; [|done]. subst o. simpl. by rewrite Hcell. }
  split; intros b ? Hb; (rewrite lookup_insert_ne; [done|congruence]).
Qed.

(** C8.  Tolerant detach: when a record that belongs to an old unit is
    re-targeted to something that is not a unit, with a position id (an
    index, so not negative), SetScript never fails; the old unit's table slot
    at that id is overwritten with the cleared marker (a strong reference to
    undefined) exactly when the slot still weakly refers to this very
    record, and the table is left as it was when the slot refers to another
    record, is cleared or strong, or the id is at or beyond the table's
    length; in every case the record's own source-unit reference is updated
    to the new target. *)
Theorem SetScript_tolerant_detach (h : Heap) (this old t : Address)
    (old_script : Script) (slots : list MaybeObject) (target : Object)
    (function_literal_id : Z) (reset : bool) :
  script h this = Ok (HeapObject old) →
  h !! old = Some (ScriptCell old_script) →
  shared_function_infos old_script = HeapObject t →
  h !! t = Some (WeakFixedArrayCell slots) →
  IsScript h target = false →
  IsDebugInfo h target = false →
  0 ≤ function_literal_id →
  ∃ h', SetScript h this target function_literal_id reset = Ok h'
        ∧ h' !! t
            = Some (WeakFixedArrayCell
                (if bool_decide (slots !! Z.to_nat function_literal_id
                                 = Some (Weak this))
                 then <[Z.to_nat function_literal_id
                        := Strong undefined_value]> slots
                 else slots))
        ∧ script h' this = Ok target.
Proof.
  intros Hscript Hold Htable Hslots Htarget Hdebug Hid.
  destruct (script_load _ _ _ Hscript) as [r Hload].
  unfold SetScript. rewrite Hscript. simpl.
  rewrite bool_decide_eq_false_2.
  2: { intros <-. unfold IsScript in Htarget. simpl in Htarget.
       by rewrite Hold in Htarget. }
  destruct (SetScript_reset_step h this r reset Hload)
    as (with_preparse_data & h1 & -> & Hclear & Hload1 & Hscript1 & Hdebug1
        & Hscripts1 & Hcells1 & Htables1).
  simpl. rewrite Hclear. simpl. rewrite Hscripts1, Htarget.
  rewrite Hscript1, Hscript. simpl.
  pose proof (Hcells1 _ _ Hold) as Hold1.
  pose proof (Htables1 _ _ Hslots) as Hslots1.
  rewrite DCHECK_true by (unfold IsScript; simpl; by rewrite Hold1).
  simpl. unfold Script_cast. simpl. rewrite Hold1. simpl. rewrite Htable.
  unfold WeakFixedArray_length, WeakFixedArray_cast. simpl.
  rewrite Hslots1. simpl.
  match goal with
  | |- ∃ h', (?step ≫= _) = Ok h' ∧ _ =>
      assert (∃ h2 : Heap,
        step = Ok h2
        ∧ load h2 this = Ok r
        ∧ (∀ o, IsDebugInfo h2 o = IsDebugInfo h1 o)
        ∧ h2 !! t
            = Some (WeakFixedArrayCell
                (if bool_decide (slots !! Z.to_nat function_literal_id
                                 = Some (Weak this))
                 then <[Z.to_nat function_literal_id
                        := Strong undefined_value]> slots
                 else slots))) as (h2 & -> & Hload2 & Hdebug2 & Hslots2)
  end.
  { case_bool_decide as Hlen.
    - destruct (slots !! Z.to_nat function_literal_id) as [raw|] eqn:Hraw.
      2: { apply lookup_ge_None in Hraw. lia. }
      rewrite (WeakFixedArray_Get_in_bounds h1 t slots function_literal_id raw)
        by done.
      simpl. destruct raw as [o|b|]; simpl.
      + exists h1. by rewrite ?bool_decide_eq_false_2.
      + case_bool_decide as Hb.
        * subst b. unfold WeakFixedArray_Set, WeakFixedArray_cast. simpl.
          rewrite Hslots1. simpl. rewrite decide_True by done.
          eexists. split; [done|].
          assert (t ≠ this) as Hne.
          { intros ->. apply load_Some in Hload1. congruence. }
          split; [by rewrite load_insert_ne|].
          split; [intros o; apply IsDebugInfo_insert;
                    [done|rewrite Hslots1; congruence]|].
          by rewrite lookup_insert_eq, ?bool_decide_eq_true_2.
        * exists h1. rewrite ?bool_decide_eq_false_2; [done|congruence].
      + exists h1. by rewrite ?bool_decide_eq_false_2.
    - exists h1. rewrite bool_decide_eq_false_2; [done|].
      intros Hraw%lookup_lt_Some. lia. }
  simpl. destruct (set_script_total h2 this r target Hload2) as [h' Hset].
  exists h'. split; [done|]. split.
  - eapply set_script_frame; [exact Hset|exact Hslots2|done|done].
  - apply (set_script_script h2); [|done]. by rewrite Hdebug2, Hdebug1.
Qed.

(** *** The property-count estimate *)

Lemma to_uint8_capped (z : Z) :
  0 ≤ z → to_uint8 (Z.min z kMaxUInt8) = Z.min z kMaxUInt8.
Proof.
  intros Hz. unfold to_uint8, kMaxUInt8. apply Z.mod_small. lia.
Qed.

Lemma get_property_estimate_range (h : Heap) (this : Address)
    (r : SharedFunctionInfo) (literal : FunctionLiteral) :
  load h this = Ok r →
  ∃ estimate,
    get_property_estimate_from_literal h this literal = Ok estimate
    ∧ 0 ≤ estimate < 2 ^ 16
    ∧ (let sum := expected_property_count literal
                  + (if is_class_constructor r
                     then expected_nof_properties r else 0) in
       0 ≤ sum < 2 ^ 16 → estimate = sum).
Proof.
  intros Hload. unfold get_property_estimate_from_literal. rewrite Hload.
  simpl. eexists. split; [done|]. unfold to_uint16. split.
  - apply Z.mod_pos_bound. lia.
  - simpl. intros Hsum. destruct (is_class_constructor r).
    + by apply Z.mod_small.
    + rewrite Z.add_0_r in *. by apply Z.mod_small.
Qed.

(** C9 (as amended).  Every update of the expected property count stores a
    value between 0 and the 8-bit maximum; for an estimate that fits in 16
    bits the stored value is the estimate capped at the 8-bit maximum (the
    finalizing update first replaces an estimate of 0 by 2).  The finalized
    state exists for class constructors only: a finalizing update that finds
    the record not finalized leaves a class constructor finalized and any
    other record not finalized, and on a finalized record it changes
    nothing.  The non-finalizing update is not gated by the finalized
    state. *)
Theorem expected_nof_properties_updates (h : Heap) (this : Address)
    (r : SharedFunctionInfo) (literal : FunctionLiteral) :
  load h this = Ok r →
  let sum := expected_property_count literal
             + (if is_class_constructor r
                then expected_nof_properties r else 0) in
  (∃ h' r',
     UpdateExpectedNofPropertiesFromEstimate h this literal = Ok h'
     ∧ load h' this = Ok r'
     ∧ 0 ≤ expected_nof_properties r' ≤ kMaxUInt8
     ∧ (0 ≤ sum < 2 ^ 16 →
        expected_nof_properties r' = Z.min sum kMaxUInt8))
  ∧ (ShouldEagerCompile literal = true →
     are_properties_final h this = Ok false →
     ∃ h' r',
       UpdateAndFinalizeExpectedNofPropertiesFromEstimate h this literal
         = Ok h'
       ∧ load h' this = Ok r'
       ∧ are_properties_final h' this = Ok (is_class_constructor r)
       ∧ 0 ≤ expected_nof_properties r' ≤ kMaxUInt8
       ∧ (0 ≤ sum < 2 ^ 16 →
          expected_nof_properties r'
            = Z.min (if bool_decide (sum = 0) then 2 else sum) kMaxUInt8))
  ∧ (are_properties_final h this = Ok true →
     (∀ h', UpdateAndFinalizeExpectedNofPropertiesFromEstimate h this literal
              = Ok h' → h' = h)
     ∧ (ShouldEagerCompile literal = true →
        UpdateAndFinalizeExpectedNofPropertiesFromEstimate h this literal
          = Ok h)).
Proof.
  intros Hload sum.
  destruct (get_property_estimate_range h this r literal Hload)
    as (estimate & Hestimate & Hrange & Hsum).
  fold sum in Hsum. split; [|split].
  - unfold UpdateExpectedNofPropertiesFromEstimate, set_expected_nof_properties.
    rewrite Hestimate. simpl. rewrite Hload. simpl.
    eexists _, _. split; [done|]. split; [apply load_store|]. simpl.
    rewrite to_uint8_capped by lia. split; [unfold kMaxUInt8; lia|].
    intros Hfit. by rewrite Hsum.
  - intros Heager Hfinal.
    unfold UpdateAndFinalizeExpectedNofPropertiesFromEstimate,
      set_expected_nof_properties, set_are_properties_final.
    rewrite DCHECK_true by by rewrite Heager. simpl.
    rewrite Hfinal, Hestimate. simpl. rewrite Hload. simpl.
    rewrite load_store. simpl.
    rewrite to_uint8_capped by (case_bool_decide; lia).
    unfold are_properties_final.
    destruct (is_class_constructor r) eqn:Hconstructor.
    + eexists _, _. split; [done|]. rewrite !load_store. simpl.
      split; [done|]. rewrite Hconstructor. split; [done|]. simpl.
      split; [unfold kMaxUInt8; case_bool_decide; lia|].
      intros Hfit. by rewrite Hsum.
    + eexists _, _. split; [done|]. rewrite !load_store. simpl.
      split; [done|]. rewrite Hconstructor, andb_false_r. split; [done|].
      simpl. split; [unfold kMaxUInt8; case_bool_decide; lia|].
      intros Hfit. by rewrite Hsum.
  - intros Hfinal.
    unfold UpdateAndFinalizeExpectedNofPropertiesFromEstimate. split.
    + intros h'. destruct (DCHECK _) as [[]|]; [|done]. simpl.
      rewrite Hfinal. by intros [= <-].
    + intros Heager. rewrite DCHECK_true by by rewrite Heager. simpl.
      by rewrite Hfinal.
Qed.

(** *** Names *)

Lemma Name_resolved (h : Heap) (this : Address) (r : SharedFunctionInfo) :
  load h this = Ok r → Name h this = resolved_name h r.
Proof.
  intros Hload. unfold Name, resolved_name, scope_descriptor, name_of_value.
  rewrite Hload. simpl. unfold IsScopeInfo, ScopeInfo_cast.
  by destruct (cell_of h (name_or_scope_info r)) as [[]|].
Qed.

Lemma active_payload_insert_debug_info (h : Heap) (a : Address)
    (d d' : DebugInfo) (o : Object) :
  h !! a = Some (DebugInfoCell d) →
  active_payload (<[a := DebugInfoCell d']> h) o = active_payload h o.
Proof.
  intros Hcell. destruct o as [| | | |b]; try done. simpl.
  destruct (decide (a = b)) as [->|Hne].
  - by rewrite lookup_insert_eq, Hcell.
  - by rewrite lookup_insert_ne.
Qed.

Lemma DebugName_views (h : Heap) (this : Address) (r : SharedFunctionInfo) :
  load h this = Ok r →
  DebugName h this
    = (function_name ← resolved_name h r;
       if bool_decide (0 < Z.of_nat (String.length function_name))
       then Ok function_name
       else Ok (reported_inferred_name h r)).
Proof.
  intros Hload. unfold DebugName.
  rewrite (Name_resolved h this r Hload).
  destruct (resolved_name h r) as [function_name|]; [|done]. simpl.
  case_bool_decide; [done|]. by apply inferred_name_reported.
Qed.

Lemma name_of_value_is_name (o : Object) :
  is_name_value o = true → ∃ name, name_of_value o = Ok name.
Proof.
  unfold is_name_value, name_of_value.
  destruct o; case_bool_decide; simpl; eauto; done.
Qed.

Lemma resolved_name_well_formed (h : Heap) (r : SharedFunctionInfo) :
  name_slot_well_formed h r = true → ∃ name, resolved_name h r = Ok name.
Proof.
  unfold name_slot_well_formed, resolved_name.
  destruct (scope_descriptor h (name_or_scope_info r)) as [info|].
  - destruct (FunctionName info) as [name|]; [|by eauto].
    apply name_of_value_is_name.
  - apply name_of_value_is_name.
Qed.

(** C10.  DebugName returns the record's resolved name when that name is
    not empty and the record's inferred name otherwise.  On a record whose
    name slot holds what the data model allows it returns a name and never
    fails, and it does not read the debug info: replacing the record's
    script-or-debug-info slot, or the contents of any debug info object,
    leaves the result as it is. *)
Theorem DebugName_resolved_or_inferred (h : Heap) (this : Address)
    (r : SharedFunctionInfo) :
  load h this = Ok r →
  name_slot_well_formed h r = true →
  (∃ function_name inferred,
     Name h this = Ok function_name
     ∧ inferred_name h this = Ok inferred
     ∧ DebugName h this
         = Ok (if bool_decide (0 < Z.of_nat (String.length function_name))
               then function_name else inferred))
  ∧ (∀ value,
       DebugName (store h this (with_script_or_debug_info r value)) this
         = DebugName h this)
  ∧ (∀ a d d', h !! a = Some (DebugInfoCell d) →
       DebugName (<[a := DebugInfoCell d']> h) this = DebugName h this).
Proof.
  intros Hload Hwf. split; [|split].
  - rewrite (DebugName_views h this r Hload), (Name_resolved h this r Hload),
      (inferred_name_reported h this r Hload).
    destruct (resolved_name_well_formed h r Hwf) as [function_name ->].
    exists function_name, (reported_inferred_name h r). simpl.
    split; [done|]. split; [done|]. by case_bool_decide.
  - intros value.
    rewrite (DebugName_views _ this _ (load_store h this _)),
      (DebugName_views h this r Hload).
    unfold resolved_name, reported_inferred_name. simpl.
    by rewrite !(scope_descriptor_store h this r),
      !(active_payload_store h this r).
  - intros a d d' Hcell.
    assert (a ≠ this) as Hne.
    { intros ->. apply load_Some in Hload. congruence. }
    assert (load (<[a := DebugInfoCell d']> h) this = Ok r) as Hload'
      by by rewrite load_insert_ne.
    rewrite (DebugName_views _ this r Hload'),
      (DebugName_views h this r Hload).
    unfold resolved_name, reported_inferred_name.
    rewrite !scope_descriptor_insert, !(active_payload_insert_debug_info h a d);
      try done; rewrite Hcell; congruence.
Qed.

(** *** The iterator *)

Lemma drop_cons_inv {A : Type} (l : list A) (n : nat) (x : A) (rest : list A) :
  drop n l = x :: rest →
  l !! n = Some x ∧ drop (S n) l = rest ∧ (n < length l)%nat.
Proof.
  intros Hdrop.
  assert (l !! n = Some x) as Hx.
  { pose proof (lookup_drop l n 0) as Hl. rewrite Hdrop in Hl. simpl in Hl.
    by rewrite Nat.add_0_r in Hl. }
  split; [done|]. split.
  - rewrite (drop_S l x n Hx) in Hdrop. by simplify_eq.
  - by apply lookup_lt_Some in Hx.
Qed.

Lemma ScriptIterator_Next_loop_find (h : Heap) (t : Address)
    (slots rest : list MaybeObject) :
  h !! t = Some (WeakFixedArrayCell slots) →
  ∀ (rounds : nat) (index : Z),
    0 ≤ index →
    drop (Z.to_nat index) slots = rest →
    (length rest ≤ rounds)%nat →
    ScriptIterator_Next_loop rounds h (HeapObject t) index
      = match list_find (λ m, live_slot m = true) rest with
        | Some (k, m) =>
            a ← SharedFunctionInfo_cast h (default undefined_value
                                             (GetHeapObject m));
            Ok (Some a, index + Z.of_nat k + 1)
        | None => Ok (None, index + Z.of_nat (length rest))
        end.
Proof.
  intros Htable. induction rest as [|m rest IH]; intros rounds index Hindex Hdrop Hrounds.
  - assert (¬ index < Z.of_nat (length slots)) as Hend.
    { intros Hlt. apply drop_nil_inv in Hdrop. lia. }
    destruct rounds; simpl; unfold WeakFixedArray_length, WeakFixedArray_cast;
      simpl; rewrite Htable; simpl;
      rewrite bool_decide_eq_false_2 by done; f_equal; f_equal; lia.
  - destruct (drop_cons_inv _ _ _ _ Hdrop) as (Hm & Hrest & Hlt).
    destruct rounds as [|rounds]; [simpl in Hrounds; lia|].
    simpl. unfold WeakFixedArray_length, WeakFixedArray_cast. simpl.
    rewrite Htable. simpl. rewrite bool_decide_eq_true_2 by lia.
    rewrite (WeakFixedArray_Get_in_bounds h t slots index m) by done. simpl.
    assert (ScriptIterator_Next_loop rounds h (HeapObject t) (index + 1)
            = match list_find (λ m, live_slot m = true) rest with
              | Some (k, m) =>
                  a ← SharedFunctionInfo_cast h (default undefined_value
                                                   (GetHeapObject m));
                  Ok (Some a, index + 1 + Z.of_nat k + 1)
              | None => Ok (None, index + 1 + Z.of_nat (length rest))
              end) as Hnext.
    { apply IH; [lia| |simpl in Hrounds; lia].
      by replace (Z.to_nat (index + 1)) with (S (Z.to_nat index)) by lia. }
    destruct (decide (live_slot m = true)) as [Hlive|Hlive];
      unfold live_slot in Hlive;
      destruct (GetHeapObject m) as [o|] eqn:Ho; simpl; try done.
    + destruct (IsUndefined o) eqn:Hundefined; [done|].
      destruct (SharedFunctionInfo_cast h o); simpl; [|done].
      f_equal. f_equal. lia.
    + destruct (IsUndefined o) eqn:Hundefined; [|done]. rewrite Hnext.
      destruct (list_find _ rest) as [[k m']|]; simpl.
      * destruct (SharedFunctionInfo_cast h _); simpl; [|done].
        f_equal. f_equal. lia.
      * f_equal. f_equal. lia.
    + rewrite Hnext.
      destruct (list_find _ rest) as [[k m']|]; simpl.
      * destruct (SharedFunctionInfo_cast h _); simpl; [|done].
        f_equal. f_equal. lia.
      * f_equal. f_equal. lia.
Qed.

Lemma ScriptIterator_Next_find (h : Heap) (t : Address)
    (slots : list MaybeObject) (index : Z) :
  h !! t = Some (WeakFixedArrayCell slots) →
  0 ≤ index →
  ScriptIterator_Next h {| shared_function_infos_ := HeapObject t;
                           index_ := index |}
    = match list_find (λ m, live_slot m = true)
              (drop (Z.to_nat index) slots) with
      | Some (k, m) =>
          a ← SharedFunctionInfo_cast h (default undefined_value
                                           (GetHeapObject m));
          Ok (Some a, {| shared_function_infos_ := HeapObject t;
                         index_ := index + Z.of_nat k + 1 |})
      | None =>
          Ok (None, {| shared_function_infos_ := HeapObject t;
                       index_ := Z.max index (Z.of_nat (length slots)) |})
      end.
Proof.
  intros Htable Hindex. unfold ScriptIterator_Next. simpl.
  unfold WeakFixedArray_length at 1, WeakFixedArray_cast. simpl.
  rewrite Htable. simpl.
  rewrite (ScriptIterator_Next_loop_find h t slots
             (drop (Z.to_nat index) slots) Htable); [|done|done|].
  2: { rewrite length_drop. lia. }
  destruct (list_find _ _) as [[k m]|]; simpl.
  - by destruct (SharedFunctionInfo_cast h _).
  - rewrite length_drop. f_equal. f_equal. f_equal. lia.
Qed.


(** X1.  Next returns the object of the first slot at or after the
    iterator's index that refers to a heap object other than undefined, and
    leaves the index just past that slot; Smi, cleared and undefined slots
    are skipped.  The object is returned as a record: that it is one is
    checked where debug checks are on, where any other object is fatal, and
    is not checked otherwise.  When no such slot is left Next returns none
    and the index ends at the table's length. *)
Theorem ScriptIterator_Next_first_live (h : Heap) (t : Address)
    (slots : list MaybeObject) (index : Z) :
  h !! t = Some (WeakFixedArrayCell slots) →
  0 ≤ index →
  ScriptIterator_Next h {| shared_function_infos_ := HeapObject t;
                           index_ := index |}
    = match list_find (λ m, live_slot m = true)
              (drop (Z.to_nat index) slots) with
      | Some (k, m) =>
          a ← SharedFunctionInfo_cast h (default undefined_value
                                           (GetHeapObject m));
          Ok (Some a, {| shared_function_infos_ := HeapObject t;
                         index_ := index + Z.of_nat k + 1 |})
      | None =>
          Ok (None, {| shared_function_infos_ := HeapObject t;
                       index_ := Z.max index (Z.of_nat (length slots)) |})
      end.
Proof. apply ScriptIterator_Next_find. Qed.

Lemma ScriptIterator_Next_at_end (h : Heap) (t : Address)
    (slots : list MaybeObject) (index : Z) :
  h !! t = Some (WeakFixedArrayCell slots) →
  0 ≤ index →
  drop (Z.to_nat index) slots = [] →
  ScriptIterator_Next h {| shared_function_infos_ := HeapObject t;
                           index_ := index |}
    = Ok (None, {| shared_function_infos_ := HeapObject t; index_ := index |}).
Proof.
  intros Htable Hindex Hdrop.
  rewrite (ScriptIterator_Next_find h t slots) by done. rewrite Hdrop. simpl.
  apply drop_nil_inv in Hdrop. f_equal. f_equal. f_equal. lia.
Qed.

Lemma ScriptIterator_Next_skip (h : Heap) (t : Address)
    (slots rest : list MaybeObject) (m : MaybeObject) (index : Z) :
  h !! t = Some (WeakFixedArrayCell slots) →
  0 ≤ index →
  drop (Z.to_nat index) slots = m :: rest →
  live_slot m = false →
  ScriptIterator_Next h {| shared_function_infos_ := HeapObject t;
                           index_ := index |}
    = ScriptIterator_Next h {| shared_function_infos_ := HeapObject t;
                               index_ := index + 1 |}.
Proof.
  intros Htable Hindex Hdrop Hlive.
  destruct (drop_cons_inv _ _ _ _ Hdrop) as (Hm & Hrest & Hlt).
  rewrite !(ScriptIterator_Next_find h t slots) by (done || lia).
  rewrite Hdrop.
  replace (Z.to_nat (index + 1)) with (S (Z.to_nat index)) by lia.
  rewrite Hrest. simpl. rewrite decide_False by by rewrite Hlive.
  destruct (list_find _ rest) as [[k m']|]; simpl.
  - destruct (SharedFunctionInfo_cast h _); simpl; [|done].
    f_equal. f_equal. f_equal. lia.
  - f_equal. f_equal. f_equal. lia.
Qed.

Lemma ScriptIterator_Next_live (h : Heap) (t : Address)
    (slots rest : list MaybeObject) (m : MaybeObject) (index : Z) :
  h !! t = Some (WeakFixedArrayCell slots) →
  0 ≤ index →
  drop (Z.to_nat index) slots = m :: rest →
  live_slot m = true →
  ScriptIterator_Next h {| shared_function_infos_ := HeapObject t;
                           index_ := index |}
    = (a ← SharedFunctionInfo_cast h (default undefined_value
                                        (GetHeapObject m));
       Ok (Some a, {| shared_function_infos_ := HeapObject t;
                      index_ := index + 1 |})).
Proof.
  intros Htable Hindex Hdrop Hlive.
  rewrite (ScriptIterator_Next_find h t slots) by done.
  rewrite Hdrop. simpl. rewrite decide_True by done.
  destruct (SharedFunctionInfo_cast h _); simpl; [|done].
  f_equal. f_equal. f_equal. lia.
Qed.

Lemma ScriptIterator_collect_from (h : Heap) (t : Address)
    (slots rest : list MaybeObject) :
  h !! t = Some (WeakFixedArrayCell slots) →
  ∀ (index : Z) (n : nat),
    0 ≤ index →
    drop (Z.to_nat index) slots = rest →
    table_of_records h rest = true →
    (length rest < n)%nat →
    ScriptIterator_collect n h {| shared_function_infos_ := HeapObject t;
                                  index_ := index |}
      = Ok (table_records rest).
Proof.
  intros Htable. induction rest as [|m rest IH]; intros index n Hindex Hdrop Hwf Hn.
  - destruct n as [|n]; [simpl in Hn; lia|]. simpl.
    by rewrite (ScriptIterator_Next_at_end h t slots).
  - destruct (drop_cons_inv _ _ _ _ Hdrop) as (Hm & Hrest & Hlt).
    simpl in Hwf. apply andb_true_iff in Hwf as [Hslot Hwf].
    assert (drop (Z.to_nat (index + 1)) slots = rest) as Hdrop'
      by by replace (Z.to_nat (index + 1)) with (S (Z.to_nat index)) by lia.
    destruct (live_slot m) eqn:Hlive.
    + destruct n as [|n]; [simpl in Hn; lia|]. simpl.
      rewrite (ScriptIterator_Next_live h t slots rest m) by done.
      unfold live_slot in Hlive.
      destruct (GetHeapObject m) as [o|] eqn:Ho; [|done]. simpl.
      apply negb_true_iff in Hlive. rewrite Hlive in Hslot. simpl in Hslot.
      unfold SharedFunctionInfo_cast. rewrite DCHECK_true by by rewrite Hslot.
      simpl. rewrite (IH (index + 1) n) by (done || lia || (simpl in Hn; lia)).
      simpl. unfold table_records. simpl. unfold live_slot.
      by rewrite Ho, Hlive.
    + assert (ScriptIterator_collect n h
                {| shared_function_infos_ := HeapObject t; index_ := index |}
              = ScriptIterator_collect n h
                  {| shared_function_infos_ := HeapObject t;
                     index_ := index + 1 |}) as ->.
      { destruct n as [|n]; [done|]. simpl.
        by rewrite (ScriptIterator_Next_skip h t slots rest m). }
      rewrite (IH (index + 1) n) by (done || lia || (simpl in Hn; lia)).
      unfold table_records. simpl. by rewrite Hlive.
Qed.

(** X2.  Iterator exhaustion: over a table whose live slots all refer to
    records, a fresh iterator called until it returns none yields exactly the
    records of the table's live slots, in slot order (one per slot, so a
    record held by two slots is yielded twice), whatever the number of calls
    allowed beyond the table's length. *)
Theorem ScriptIterator_yields_table_records (h : Heap) (t : Address)
    (slots : list MaybeObject) (n : nat) :
  h !! t = Some (WeakFixedArrayCell slots) →
  table_of_records h slots = true →
  (length slots < n)%nat →
  ScriptIterator_collect n h (ScriptIterator_of_table (HeapObject t))
    = Ok (table_records slots).
Proof.
  intros Htable Hwf Hn. unfold ScriptIterator_of_table.
  by apply (ScriptIterator_collect_from h t slots slots).
Qed.

(** X3.  Reset re-binds an iterator to a unit and restarts it: whatever
    table and index the iterator had (exhausted or not), after Reset it
    yields, called until it returns none, the records of the live slots of
    the given unit's table in slot order, as a fresh iterator does. *)
Theorem ScriptIterator_Reset_restarts (h : Heap) (it : ScriptIterator)
    (unit t : Address) (s : Script) (slots : list MaybeObject) (n : nat) :
  h !! unit = Some (ScriptCell s) →
  shared_function_infos s = HeapObject t →
  h !! t = Some (WeakFixedArrayCell slots) →
  table_of_records h slots = true →
  (length slots < n)%nat →
  ∃ it', ScriptIterator_Reset h it (HeapObject unit) = Ok it'
         ∧ ScriptIterator_of_script h (HeapObject unit) = Ok it'
         ∧ ScriptIterator_collect n h it' = Ok (table_records slots).
Proof.
  intros Hunit Htable Hslots Hrecords Hn.
  exists {| shared_function_infos_ := HeapObject t; index_ := 0 |}.
  unfold ScriptIterator_Reset, ScriptIterator_of_script,
    ScriptIterator_of_table, Script_cast.
  simpl. rewrite Hunit. simpl. rewrite Htable. split; [done|]. split; [done|].
  by apply (ScriptIterator_collect_from h t slots slots).
Qed.

Lemma ScriptIterator_Next_loop_none (h : Heap) (table : Object) :
  ∀ (rounds : nat) (index index' : Z),
    ScriptIterator_Next_loop rounds h table index = Ok (None, index') →
    ∃ len, WeakFixedArray_length h table = Ok len ∧ ¬ index' < len.
Proof.
  induction rounds as [|rounds IH]; intros index index'; simpl;
    destruct (WeakFixedArray_length h table) as [len|] eqn:Hlen; simpl;
    try done; case_bool_decide as Hlt; try done;
    try (intros [= <-]; by eauto).
  destruct (WeakFixedArray_Get h table index) as [raw|]; [|done]. simpl.
  destruct (GetHeapObject raw) as [o|].
  - destruct (IsUndefined o).
    + intros Hloop. destruct (IH _ _ Hloop) as (len' & Hlen' & Hend).
      simplify_eq. eauto.
    + by destruct (SharedFunctionInfo_cast h o).
  - intros Hloop. destruct (IH _ _ Hloop) as (len' & Hlen' & Hend).
    simplify_eq. eauto.
Qed.

(** X4.  An exhausted iterator stays exhausted: once Next has returned none,
    calling it again on the iterator it left returns none again and leaves
    the iterator as it is; the iterator does not restart by itself. *)
Theorem ScriptIterator_exhausted_stays (h : Heap) (it it' : ScriptIterator) :
  ScriptIterator_Next h it = Ok (None, it') →
  ScriptIterator_Next h it' = Ok (None, it').
Proof.
  unfold ScriptIterator_Next.
  destruct (WeakFixedArray_length h (shared_function_infos_ it))
    as [len|] eqn:Hlen; [|done]. simpl.
  destruct (ScriptIterator_Next_loop _ h _ (index_ it))
    as [[found index']|] eqn:Hloop; [|done]. simpl.
  intros [= -> <-]. simpl. rewrite Hlen. simpl.
  destruct (ScriptIterator_Next_loop_none _ _ _ _ _ Hloop)
    as (len' & Hlen' & Hend).
  rewrite Hlen in Hlen'. injection Hlen' as <-.
  replace (Z.to_nat (len - index')) with O by lia. simpl. rewrite Hlen.
  simpl. by rewrite bool_decide_eq_false_2.
Qed.

(** *** What SetScript leaves alone *)

Lemma SetScript_may_change_refl (c : HeapCell) : SetScript_may_change c c.
Proof.
  destruct c; simpl; try done.
  - exists (script_or_debug_info sfi). by destruct sfi.
  - exists (DebugInfo_script info). by destruct info.
  - eauto.
  - by left.
Qed.

Lemma SetScript_may_change_trans (c1 c2 c3 : HeapCell) :
  SetScript_may_change c1 c2 → SetScript_may_change c2 c3 →
  SetScript_may_change c1 c3.
Proof.
  destruct c1; simpl; try (by intros ->).
  - intros [unit ->]. simpl. intros [unit' ->]. by exists unit'.
  - intros [unit ->]. simpl. intros [unit' ->]. by exists unit'.
  - intros (slots' & -> & Hlen). simpl. intros (slots'' & -> & Hlen').
    exists slots''. split; [done|congruence].
  - intros [->| ->]; simpl; [done|]. intros ->. by right.
Qed.

Lemma SetScript_frame_refl (h : Heap) : SetScript_frame h h.
Proof.
  intros b. destruct (h !! b) as [c|]; [|done].
  exists c. split; [done|]. apply SetScript_may_change_refl.
Qed.

Lemma SetScript_frame_trans (h1 h2 h3 : Heap) :
  SetScript_frame h1 h2 → SetScript_frame h2 h3 → SetScript_frame h1 h3.
Proof.
  intros H12 H23 b. specialize (H12 b). specialize (H23 b).
  destruct (h1 !! b) as [c1|].
  - destruct H12 as (c2 & Hc2 & Hchange12). rewrite Hc2 in H23.
    destruct H23 as (c3 & Hc3 & Hchange23). exists c3. split; [done|].
    by eapply SetScript_may_change_trans.
  - by rewrite H12 in H23.
Qed.

Lemma SetScript_frame_insert (h : Heap) (a : Address) (c c' : HeapCell) :
  h !! a = Some c → SetScript_may_change c c' →
  SetScript_frame h (<[a := c']> h).
Proof.
  intros Hcell Hchange b. destruct (decide (a = b)) as [<-|Hne].
  - rewrite Hcell, lookup_insert_eq. eauto.
  - rewrite lookup_insert_ne by done. destruct (h !! b) as [cb|]; [|done].
    exists cb. split; [done|]. apply SetScript_may_change_refl.
Qed.

Lemma set_script_SetScript_frame (h h' : Heap) (this : Address) (unit : Object) :
  set_script h this unit = Ok h' → SetScript_frame h h'.
Proof.
  unfold set_script, set_script_or_debug_info.
  destruct (load h this) as [r|] eqn:Hload; [|done]. simpl.
  apply load_Some in Hload.
  assert (SetScript_frame h (store h this (with_script_or_debug_info r unit)))
    as Hstore.
  { apply (SetScript_frame_insert h this (SharedFunctionInfoCell r));
      [done|]. simpl. eauto. }
  destruct (script_or_debug_info r) as [| | | |a]; try (by intros [= <-]).
  destruct (h !! a) as [c|] eqn:Hcell; [|by intros [= <-]].
  destruct c; try (by intros [= <-]). intros [= <-].
  apply (SetScript_frame_insert h a (DebugInfoCell info)); [done|].
  simpl. eauto.
Qed.

Lemma SetScript_SetScript_frame (h h' : Heap) (this : Address) (unit : Object)
    (function_literal_id : Z) (reset : bool) :
  SetScript h this unit function_literal_id reset = Ok h' →
  SetScript_frame h h'.
Proof.
  unfold SetScript. destruct (script h this) as [current|]; [|done]. simpl.
  case_bool_decide as Hcurrent.
  { intros [= <-]. apply SetScript_frame_refl. }
  intros Hcall.
  destruct (if reset then HasUncompiledDataWithPreparseData h this else Ok false)
    as [with_preparse_data|]; [|done]. simpl in Hcall.
  destruct (if with_preparse_data then ClearPreparseData h this else Ok h)
    as [h1|] eqn:Hclear; [|done]. simpl in Hcall.
  assert (SetScript_frame h h1) as Hframe1.
  { destruct with_preparse_data;
      [|simplify_eq; apply SetScript_frame_refl].
    apply ClearPreparseData_inv in Hclear as (a & d & p & Hcell & ->).
    apply (SetScript_frame_insert h a _ _ Hcell). simpl. by right. }
  match type of Hcall with
  | (?step ≫= _) = _ => destruct step as [h2|] eqn:Hstep; [|done]
  end.
  simpl in Hcall.
  apply (SetScript_frame_trans h h1 h'); [done|].
  apply (SetScript_frame_trans h1 h2 h');
    [|by apply (set_script_SetScript_frame h2 h' this unit)].
  assert (∀ o index value h2,
            WeakFixedArray_Set h1 o index value = Ok h2 →
            SetScript_frame h1 h2) as Hset.
  { intros o index value h2' Hset.
    apply WeakFixedArray_Set_inv in Hset as (t & slots & -> & Hcell & _ & ->).
    apply (SetScript_frame_insert h1 t _ _ Hcell). simpl.
    eexists. split; [done|]. apply length_insert. }
  destruct (IsScript h1 unit).
  - destruct (DCHECK _) as [[]|]; [|done]. simpl in Hstep.
    destruct (Script_cast h1 unit) as [new_script|]; [|done]. simpl in Hstep.
    match type of Hstep with
    | (?check ≫= _) = _ => destruct check; [|done]
    end.
    simpl in Hstep. by eapply Hset.
  - destruct (DCHECK _) as [[]|]; [|done]. simpl in Hstep.
    destruct (script h1 this) as [old|]; [|done]. simpl in Hstep.
    destruct (Script_cast h1 old) as [old_script|]; [|done]. simpl in Hstep.
    destruct (WeakFixedArray_length _ _) as [len|]; [|done]. simpl in Hstep.
    case_bool_decide; [|simplify_eq; apply SetScript_frame_refl].
    destruct (WeakFixedArray_Get _ _ _) as [raw|]; [|done]. simpl in Hstep.
    destruct (GetHeapObjectIfWeak raw) as [heap_object|];
      [|simplify_eq; apply SetScript_frame_refl].
    case_bool_decide; [|simplify_eq; apply SetScript_frame_refl].
    by eapply Hset.
Qed.

(** X5.  SetScript allocates nothing and frees nothing, and of the cells it
    finds it only rewrites the source-unit reference of a record or of a
    debug info, overwrites slots of a weak table without changing its length,
    or turns a deferred-parse summary with pre-parse cache into the same
    summary without it.  Scope infos, bytecode, scripts, code and every field
    of the record other than its source-unit slot are left as they are. *)
Theorem SetScript_touches_only_association (h h' : Heap) (this : Address)
    (unit : Object) (function_literal_id : Z) (reset : bool) :
  SetScript h this unit function_literal_id reset = Ok h' →
  dom h' = dom h
  ∧ ∀ b c, h !! b = Some c →
      ∃ c', h' !! b = Some c' ∧ SetScript_may_change c c'.
Proof.
  intros Hframe%SetScript_SetScript_frame. split.
  - apply set_eq. intros b. rewrite !elem_of_dom. specialize (Hframe b).
    destruct (h !! b) as [c|] eqn:Hb.
    + destruct Hframe as (c' & -> & _). split; eauto.
    + rewrite Hframe. split; intros [? ?]; done.
  - intros b c Hb. specialize (Hframe b). by rewrite Hb in Hframe.
Qed.

(** *** What the record reports across SetScript *)

Lemma SetScript_frame_load (h h' : Heap) (this : Address)
    (r : SharedFunctionInfo) :
  SetScript_frame h h' → load h this = Ok r →
  ∃ unit, load h' this = Ok (with_script_or_debug_info r unit).
Proof.
  intros Hframe Hload%load_Some. specialize (Hframe this).
  rewrite Hload in Hframe. destruct Hframe as (c' & Hc' & unit & ->).
  exists unit. by apply load_Some.
Qed.

Lemma SetScript_frame_scope_descriptor (h h' : Heap) (o : Object) :
  SetScript_frame h h' → scope_descriptor h' o = scope_descriptor h o.
Proof.
  intros Hframe. unfold scope_descriptor. destruct o as [| | | |b]; try done.
  simpl. specialize (Hframe b). destruct (h !! b) as [c|]; [|by rewrite Hframe].
  destruct Hframe as (c' & -> & Hchange).
  destruct c; simpl in Hchange; try (by subst).
  - by destruct Hchange as [unit ->].
  - by destruct Hchange as [unit ->].
  - by destruct Hchange as (slots' & -> & _).
  - by destruct Hchange as [->| ->].
Qed.

Lemma SetScript_frame_module_function (h h' : Heap) (instance : Object)
    (func_index : Z) :
  SetScript_frame h h' →
  module_function h' instance func_index = module_function h instance func_index.
Proof.
  intros Hframe. unfold module_function.
  destruct instance as [| | | |b]; try done.
  simpl. specialize (Hframe b). destruct (h !! b) as [c|]; [|by rewrite Hframe].
  destruct Hframe as (c' & -> & Hchange).
  destruct c; simpl in Hchange; try (by subst).
  - by destruct Hchange as [unit ->].
  - by destruct Hchange as [unit ->].
  - by destruct Hchange as (slots' & -> & _).
  - by destruct Hchange as [->| ->].
Qed.

(** The payload keeps its variant and contents; only a pre-parse cache may
    go. *)
Lemma SetScript_frame_active_payload (h h' : Heap) (o : Object) :
  SetScript_frame h h' →
  match active_payload h o with
  | DeferredParseSummary summary cache =>
      active_payload h' o = DeferredParseSummary summary cache
      ∨ active_payload h' o = DeferredParseSummary summary None
  | payload => active_payload h' o = payload
  end.
Proof.
  intros Hframe. destruct o as [| | | |b]; try done.
  simpl. specialize (Hframe b). destruct (h !! b) as [c|]; [|by rewrite Hframe].
  destruct Hframe as (c' & -> & Hchange).
  destruct c; simpl in Hchange; try (by subst); try (subst; by left).
  - by destruct Hchange as [unit ->].
  - by destruct Hchange as [unit ->].
  - by destruct Hchange as (slots' & -> & _).
  - destruct Hchange as [->| ->]; [by left|by right].
Qed.

Lemma SetScript_frame_resolve_position (h h' : Heap)
    (r r' : SharedFunctionInfo) (of_scope : Z * Z → Z)
    (of_summary : UncompiledData → Z) (of_table : WasmFunction → Z) :
  SetScript_frame h h' →
  function_data r' = function_data r →
  name_or_scope_info r' = name_or_scope_info r →
  resolve_position of_scope of_summary of_table h' r'
    = resolve_position of_scope of_summary of_table h r.
Proof.
  intros Hframe Hdata Hname. unfold resolve_position, scope_positions.
  rewrite Hdata, Hname.
  rewrite (SetScript_frame_scope_descriptor h h' _ Hframe).
  pose proof (SetScript_frame_active_payload h h' (function_data r) Hframe)
    as Hpayload.
  destruct (scope_descriptor h (name_or_scope_info r)) as [info|];
    [destruct (PositionInfo info); [done|]|];
    (destruct (active_payload h (function_data r));
     try (by rewrite Hpayload);
     [by destruct Hpayload as [->| ->]
     |rewrite Hpayload;
      by rewrite (SetScript_frame_module_function h h' _ _ Hframe)]).
Qed.

(** X6.  Re-associating a record never moves it: after a successful
    SetScript the record reports the start position, end position and
    inferred name it reported before, whether or not the call dropped the
    pre-parse cache. *)
Theorem SetScript_keeps_positions_and_name (h h' : Heap) (this : Address)
    (r : SharedFunctionInfo) (unit : Object) (function_literal_id : Z)
    (reset : bool) :
  load h this = Ok r →
  (scope_positions h (name_or_scope_info r) = None →
   function_data r ≠ Smi kCompileLazy) →
  SetScript h this unit function_literal_id reset = Ok h' →
  StartPosition h' this = StartPosition h this
  ∧ EndPosition h' this = EndPosition h this
  ∧ inferred_name h' this = inferred_name h this.
Proof.
  intros Hload Hlazy Hframe%SetScript_SetScript_frame.
  destruct (SetScript_frame_load h h' this r Hframe Hload) as [unit' Hload'].
  set (r' := with_script_or_debug_info r unit') in *.
  assert (scope_positions h' (name_or_scope_info r') = None →
          function_data r' ≠ Smi kCompileLazy) as Hlazy'.
  { unfold scope_positions. simpl.
    by rewrite (SetScript_frame_scope_descriptor h h' _ Hframe). }
  rewrite (StartPosition_resolve h' this r'), (StartPosition_resolve h this r),
    (EndPosition_resolve h' this r'), (EndPosition_resolve h this r),
    (inferred_name_reported h' this r'), (inferred_name_reported h this r)
    by done.
  rewrite !(SetScript_frame_resolve_position h h' r r' _ _ _ Hframe eq_refl
              eq_refl).
  split; [done|]. split; [done|]. f_equal.
  unfold reported_inferred_name. simpl.
  rewrite (SetScript_frame_scope_descriptor h h' _ Hframe).
  destruct (scope_descriptor h (name_or_scope_info r)) as [info|]; [done|].
  pose proof (SetScript_frame_active_payload h h' (function_data r) Hframe)
    as Hpayload.
  destruct (active_payload h (function_data r));
    try (by rewrite Hpayload).
  by destruct Hpayload as [->| ->].
Qed.

(** *** Attaching a record to a unit *)

Lemma SetScript_attach_effect (h : Heap) (this tgt t : Address)
    (current : Object) (s : Script) (slots : list MaybeObject)
    (function_literal_id : Z) (reset : bool) :
  script h this = Ok current →
  IsScript h current = false →
  h !! tgt = Some (ScriptCell s) →
  shared_function_infos s = HeapObject t →
  h !! t = Some (WeakFixedArrayCell slots) →
  0 ≤ function_literal_id < Z.of_nat (length slots) →
  (DEBUG = true →
   ∀ b, slots !! Z.to_nat function_literal_id = Some (Weak b) → b = this) →
  ∃ h', SetScript h this (HeapObject tgt) function_literal_id reset = Ok h'
        ∧ h' !! t
            = Some (WeakFixedArrayCell
                      (<[Z.to_nat function_literal_id := Weak this]> slots))
        ∧ script h' this = Ok (HeapObject tgt).
Proof.
  intros Hscript Hcurrent Htgt Htable Hslots Hid Hslot.
  destruct (script_load _ _ _ Hscript) as [r Hload].
  unfold SetScript. rewrite Hscript. simpl.
  rewrite bool_decide_eq_false_2.
  2: { intros ->. unfold IsScript in Hcurrent. simpl in Hcurrent.
       by rewrite Htgt in Hcurrent. }
  destruct (SetScript_reset_step h this r reset Hload)
    as (with_preparse_data & h1 & -> & Hclear & Hload1 & Hscript1 & Hdebug1
        & Hscripts1 & Hcells1 & Htables1).
  simpl. rewrite Hclear. simpl.
  pose proof (Hcells1 _ _ Htgt) as Htgt1.
  pose proof (Htables1 _ _ Hslots) as Hslots1.
  assert (IsScript h1 (HeapObject tgt) = true) as ->
    by (unfold IsScript; simpl; by rewrite Htgt1).
  rewrite Hscript1, Hscript. simpl.
  rewrite DCHECK_true by by rewrite Hscripts1, Hcurrent.
  simpl. unfold Script_cast. simpl. rewrite Htgt1. simpl. rewrite Htable.
  destruct (slots !! Z.to_nat function_literal_id) as [m|] eqn:Hm.
  2: { apply lookup_ge_None in Hm. lia. }
  assert ((if DEBUG
           then
             DCHECK ((λ len, bool_decide (function_literal_id < len))
                     <$> WeakFixedArray_length h1 (HeapObject t));;
             maybe_object ← WeakFixedArray_Get h1 (HeapObject t)
                              function_literal_id;
             match GetHeapObjectIfWeak maybe_object with
             | Some heap_object =>
                 DCHECK (Ok (bool_decide (heap_object = this)))
             | None => Ok ()
             end
           else Ok ()) = Ok ()) as ->.
  { destruct DEBUG eqn:Hdebug; [|done].
    rewrite (WeakFixedArray_Get_in_bounds h1 t slots function_literal_id m)
      by (done || lia).
    unfold WeakFixedArray_length, WeakFixedArray_cast.
    simpl. rewrite Hslots1. simpl.
    rewrite DCHECK_true by by rewrite bool_decide_eq_true_2 by lia.
    simpl. destruct m as [o|b|]; simpl; try done.
    rewrite DCHECK_true; [done|].
    by rewrite bool_decide_eq_true_2 by by apply Hslot. }
  simpl. unfold WeakFixedArray_Set, WeakFixedArray_cast. simpl.
  rewrite Hslots1. simpl. rewrite decide_True by done. simpl.
  match goal with
  | |- ∃ h', set_script ?h2' _ _ = _ ∧ _ => set (h2 := h2')
  end.
  assert (t ≠ this) as Hne.
  { intros ->. apply load_Some in Hload1. congruence. }
  assert (load h2 this = Ok r) as Hload2
    by (unfold h2; by rewrite load_insert_ne).
  destruct (set_script_total h2 this r (HeapObject tgt) Hload2) as [h' Hset].
  exists h'. split; [done|]. split.
  - eapply set_script_frame; [exact Hset| |done|done].
    unfold h2. by rewrite lookup_insert_eq.
  - apply (set_script_script h2); [|done].
    unfold IsDebugInfo. simpl. unfold h2.
    rewrite lookup_insert_ne by congruence. by rewrite Htgt1.
Qed.

(** X7.  Attaching: for a record that belongs to no unit, SetScript with a
    unit and a position id inside the unit's table writes a weak reference
    to the record into that slot, leaves every other slot as it was, keeps
    the unit itself unchanged and makes the unit the record's source unit.
    With debug checks on, the slot must not hold a weak reference to another
    record. *)
Theorem SetScript_attaches (h : Heap) (this tgt t : Address)
    (current : Object) (s : Script) (slots : list MaybeObject)
    (function_literal_id : Z) (reset : bool) :
  script h this = Ok current →
  IsScript h current = false →
  h !! tgt = Some (ScriptCell s) →
  shared_function_infos s = HeapObject t →
  h !! t = Some (WeakFixedArrayCell slots) →
  0 ≤ function_literal_id < Z.of_nat (length slots) →
  (DEBUG = true →
   ∀ b, slots !! Z.to_nat function_literal_id = Some (Weak b) → b = this) →
  ∃ h' slots',
    SetScript h this (HeapObject tgt) function_literal_id reset = Ok h'
    ∧ h' !! t = Some (WeakFixedArrayCell slots')
    ∧ slots' !! Z.to_nat function_literal_id = Some (Weak this)
    ∧ (∀ i, i ≠ Z.to_nat function_literal_id → slots' !! i = slots !! i)
    ∧ length slots' = length slots
    ∧ h' !! tgt = Some (ScriptCell s)
    ∧ script h' this = Ok (HeapObject tgt).
Proof.
  intros Hscript Hcurrent Htgt Htable Hslots Hid Hslot.
  destruct (SetScript_attach_effect h this tgt t current s slots
              function_literal_id reset) as (h' & Hcall & Hslots' & Hscript');
    try done.
  exists h', (<[Z.to_nat function_literal_id := Weak this]> slots).
  split; [done|]. split; [done|].
  split; [apply list_lookup_insert_eq; lia|].
  split; [intros i Hi; by apply list_lookup_insert_ne|].
  split; [apply length_insert|]. split; [|done].
  pose proof (SetScript_SetScript_frame _ _ _ _ _ _ Hcall tgt) as Hframe.
  rewrite Htgt in Hframe. by destruct Hframe as (c' & -> & ->).
Qed.

Lemma table_of_records_Forall (h : Heap) (slots : list MaybeObject) :
  table_of_records h slots = true
  ↔ Forall (λ m, ∀ o, GetHeapObject m = Some o →
                 IsUndefined o = false →
                 ∃ a r, o = HeapObject a
                        ∧ h !! a = Some (SharedFunctionInfoCell r)) slots.
Proof.
  unfold table_of_records. rewrite <- Is_true_true, forallb_True.
  apply Forall_proper; [|done]. intros m.
  destruct (GetHeapObject m) as [o|]; [|by split].
  destruct (IsUndefined o) eqn:Hundefined; simpl.
  { split; [|done]. intros _ o' [= <-]. congruence. }
  unfold IsSharedFunctionInfo. split.
  - intros Hcast o' [= <-] _. destruct o as [| | | |a]; try done.
    simpl in Hcast. destruct (h !! a) as [[]|] eqn:Ha; try done. eauto.
  - intros Hrecord. destruct (Hrecord o eq_refl Hundefined) as (a & r & -> & Ha).
    simpl. by rewrite Ha.
Qed.

Lemma SetScript_frame_table_of_records (h h' : Heap)
    (slots : list MaybeObject) :
  SetScript_frame h h' →
  table_of_records h slots = true → table_of_records h' slots = true.
Proof.
  intros Hframe. rewrite !table_of_records_Forall.
  intros Hrecords. apply (Forall_impl _ _ _ Hrecords).
  intros m Hm o Ho Hundefined.
  destruct (Hm o Ho Hundefined) as (a & r & -> & Ha).
  specialize (Hframe a). rewrite Ha in Hframe.
  destruct Hframe as (c' & Hc' & unit & ->). eauto.
Qed.

(** X8.  A record attached to a unit is found by iterating over the unit:
    after SetScript has attached a record, an iterator made from the unit
    and run to its end yields the records of the table, and the attached
    record is among them. *)
Theorem SetScript_attached_record_is_iterated (h : Heap) (this tgt t : Address)
    (current : Object) (s : Script) (slots : list MaybeObject)
    (function_literal_id : Z) (reset : bool) :
  script h this = Ok current →
  IsScript h current = false →
  h !! tgt = Some (ScriptCell s) →
  shared_function_infos s = HeapObject t →
  h !! t = Some (WeakFixedArrayCell slots) →
  0 ≤ function_literal_id < Z.of_nat (length slots) →
  (DEBUG = true →
   ∀ b, slots !! Z.to_nat function_literal_id = Some (Weak b) → b = this) →
  table_of_records h slots = true →
  ∃ h' it records,
    SetScript h this (HeapObject tgt) function_literal_id reset = Ok h'
    ∧ ScriptIterator_of_script h' (HeapObject tgt) = Ok it
    ∧ ScriptIterator_collect (S (length slots)) h' it = Ok records
    ∧ HeapObject this ∈ records.
Proof.
  intros Hscript Hcurrent Htgt Htable Hslots Hid Hslot Hrecords.
  destruct (script_load _ _ _ Hscript) as [r Hload].
  destruct (SetScript_attach_effect h this tgt t current s slots
              function_literal_id reset) as (h' & Hcall & Hslots' & Hscript');
    try done.
  pose proof (SetScript_SetScript_frame _ _ _ _ _ _ Hcall) as Hframe.
  assert (h' !! tgt = Some (ScriptCell s)) as Htgt'.
  { specialize (Hframe tgt). rewrite Htgt in Hframe.
    by destruct Hframe as (c' & -> & ->). }
  destruct (SetScript_frame_load h h' this r Hframe Hload) as [unit' Hload'].
  set (slots' := <[Z.to_nat function_literal_id := Weak this]> slots) in *.
  assert (table_of_records h' slots' = true) as Hrecords'.
  { apply table_of_records_Forall. apply Forall_insert.
    - apply table_of_records_Forall.
      by apply (SetScript_frame_table_of_records h h').
    - intros o [= <-] _. apply load_Some in Hload'. eauto. }
  exists h', (ScriptIterator_of_table (HeapObject t)), (table_records slots').
  split; [done|]. split.
  { unfold ScriptIterator_of_script, Script_cast. simpl.
    rewrite Htgt'. simpl. by rewrite Htable. }
  split.
  - apply (ScriptIterator_collect_from h' t slots' slots'); try done.
    unfold slots'. rewrite length_insert. lia.
  - unfold table_records. apply list_elem_of_omap. exists (Weak this).
    split; [|done]. apply list_elem_of_lookup.
    exists (Z.to_nat function_literal_id). unfold slots'.
    apply list_lookup_insert_eq. lia.
Qed.

Lemma SetScript_detach_effect (h : Heap) (this old t : Address)
    (old_script : Script) (slots : list MaybeObject) (target : Object)
    (function_literal_id : Z) (reset : bool) :
  script h this = Ok (HeapObject old) →
  h !! old = Some (ScriptCell old_script) →
  shared_function_infos old_script = HeapObject t →
  h !! t = Some (WeakFixedArrayCell slots) →
  IsScript h target = false →
  0 ≤ function_literal_id →
  slots !! Z.to_nat function_literal_id = Some (Weak this) →
  ∃ h', SetScript h this target function_literal_id reset = Ok h'
        ∧ h' !! t
            = Some (WeakFixedArrayCell
                      (<[Z.to_nat function_literal_id
                         := Strong undefined_value]> slots))
        ∧ h' !! old = Some (ScriptCell old_script).
Proof.
  intros Hscript Hold Htable Hslots Htarget Hid Hslot.
  destruct (script_load _ _ _ Hscript) as [r Hload].
  pose proof (lookup_lt_Some _ _ _ Hslot) as Hlen.
  unfold SetScript. rewrite Hscript. simpl.
  rewrite bool_decide_eq_false_2.
  2: { intros <-. unfold IsScript in Htarget. simpl in Htarget.
       by rewrite Hold in Htarget. }
  destruct (SetScript_reset_step h this r reset Hload)
    as (with_preparse_data & h1 & -> & Hclear & Hload1 & Hscript1 & Hdebug1
        & Hscripts1 & Hcells1 & Htables1).
  simpl. rewrite Hclear. simpl. rewrite Hscripts1, Htarget.
  rewrite Hscript1, Hscript. simpl.
  pose proof (Hcells1 _ _ Hold) as Hold1.
  pose proof (Htables1 _ _ Hslots) as Hslots1.
  rewrite DCHECK_true by (unfold IsScript; simpl; by rewrite Hold1).
  simpl. unfold Script_cast. simpl. rewrite Hold1. simpl. rewrite Htable.
  rewrite (WeakFixedArray_Get_in_bounds h1 t slots function_literal_id
             (Weak this)) by done.
  unfold WeakFixedArray_length, WeakFixedArray_Set, WeakFixedArray_cast.
  simpl. rewrite Hslots1. simpl.
  rewrite bool_decide_eq_true_2 by lia.
  simpl. rewrite bool_decide_eq_true_2 by done.
  rewrite decide_True by lia. simpl.
  match goal with
  | |- ∃ h', set_script ?h2' _ _ = _ ∧ _ => set (h2 := h2')
  end.
  assert (t ≠ this) as Hne.
  { intros ->. apply load_Some in Hload1. congruence. }
  assert (load h2 this = Ok r) as Hload2
    by (unfold h2; by rewrite load_insert_ne).
  destruct (set_script_total h2 this r target Hload2) as [h' Hset].
  exists h'. split; [done|]. split.
  - eapply set_script_frame; [exact Hset| |done|done].
    unfold h2. by rewrite lookup_insert_eq.
  - eapply set_script_frame; [exact Hset| |done|done].
    unfold h2. rewrite lookup_insert_ne; [done|congruence].
Qed.

(** X9.  A record detached from a unit is no longer found by iterating
    over that unit: when the record's slot still refers to it and no other
    slot of the table does, SetScript to something that is not a unit clears
    the slot, and an iterator made from the old unit and run to its end
    yields records among which the detached one is not. *)
Theorem SetScript_detached_record_is_not_iterated (h : Heap)
    (this old t : Address) (old_script : Script) (slots : list MaybeObject)
    (target : Object) (function_literal_id : Z) (reset : bool) :
  script h this = Ok (HeapObject old) →
  h !! old = Some (ScriptCell old_script) →
  shared_function_infos old_script = HeapObject t →
  h !! t = Some (WeakFixedArrayCell slots) →
  IsScript h target = false →
  0 ≤ function_literal_id →
  slots !! Z.to_nat function_literal_id = Some (Weak this) →
  (∀ i m, slots !! i = Some m → i ≠ Z.to_nat function_literal_id →
          GetHeapObject m ≠ Some (HeapObject this)) →
  table_of_records h slots = true →
  ∃ h' it records,
    SetScript h this target function_literal_id reset = Ok h'
    ∧ ScriptIterator_of_script h' (HeapObject old) = Ok it
    ∧ ScriptIterator_collect (S (length slots)) h' it = Ok records
    ∧ HeapObject this ∉ records.
Proof.
  intros Hscript Hold Htable Hslots Htarget Hid Hslot Hothers Hrecords.
  destruct (SetScript_detach_effect h this old t old_script slots target
              function_literal_id reset) as (h' & Hcall & Hslots' & Hold');
    try done.
  pose proof (SetScript_SetScript_frame _ _ _ _ _ _ Hcall) as Hframe.
  set (slots' := <[Z.to_nat function_literal_id := Strong undefined_value]>
                   slots) in *.
  assert (table_of_records h' slots' = true) as Hrecords'.
  { apply table_of_records_Forall. apply Forall_insert.
    - apply table_of_records_Forall.
      by apply (SetScript_frame_table_of_records h h').
    - by intros o [= <-] [=]. }
  exists h', (ScriptIterator_of_table (HeapObject t)), (table_records slots').
  split; [done|]. split.
  { unfold ScriptIterator_of_script, Script_cast. simpl.
    rewrite Hold'. simpl. by rewrite Htable. }
  split.
  - apply (ScriptIterator_collect_from h' t slots' slots'); try done.
    unfold slots'. rewrite length_insert. lia.
  - unfold table_records. intros (m & Hm & Hthis)%list_elem_of_omap.
    apply list_elem_of_lookup in Hm as [i Hi].
    destruct (decide (i = Z.to_nat function_literal_id)) as [->|Hne].
    + unfold slots' in Hi. rewrite list_lookup_insert_eq in Hi
        by by eapply lookup_lt_Some.
      by simplify_eq.
    + unfold slots' in Hi. rewrite list_lookup_insert_ne in Hi by done.
      apply (Hothers i m Hi Hne). by destruct (live_slot m).
Qed.

(** *** SetScript with a debug info attached *)

Lemma SetScript_inv_keeps (h h' : Heap) (this : Address) (unit : Object)
    (function_literal_id : Z) (reset : bool) :
  SetScript h this unit function_literal_id reset = Ok h' →
  (script h this = Ok unit ∧ h' = h)
  ∨ ∃ h2, (∀ b c, h !! b = Some c →
             (∀ d p, c ≠ UncompiledDataWithPreparseDataCell d p) →
             (∀ l, c ≠ WeakFixedArrayCell l) →
             h2 !! b = Some c)
          ∧ set_script h2 this unit = Ok h'.
Proof.
  unfold SetScript. destruct (script h this) as [current|]; [|done]. simpl.
  case_bool_decide as Hcurrent.
  { intros [= <-]. left. by subst. }
  intros Hcall. right.
  destruct (if reset then HasUncompiledDataWithPreparseData h this else Ok false)
    as [with_preparse_data|]; [|done]. simpl in Hcall.
  destruct (if with_preparse_data then ClearPreparseData h this else Ok h)
    as [h1|] eqn:Hclear; [|done]. simpl in Hcall.
  assert (∀ b c, h !! b = Some c →
            (∀ d p, c ≠ UncompiledDataWithPreparseDataCell d p) →
            (∀ l, c ≠ WeakFixedArrayCell l) →
            h1 !! b = Some c) as Hkeep1.
  { destruct with_preparse_data; [|by simplify_eq].
    apply ClearPreparseData_inv in Hclear as (a & d & p & Hcell & ->).
    intros b c Hb Hc _. rewrite lookup_insert_ne; [done|].
    intros ->. rewrite Hcell in Hb. simplify_eq. by edestruct Hc. }
  match type of Hcall with
  | (?step ≫= _) = _ => destruct step as [h2|] eqn:Hstep; [|done]
  end.
  simpl in Hcall. exists h2. split; [|done].
  assert (∀ o index value h2,
            WeakFixedArray_Set h1 o index value = Ok h2 →
            ∀ b c, h !! b = Some c →
              (∀ d p, c ≠ UncompiledDataWithPreparseDataCell d p) →
              (∀ l, c ≠ WeakFixedArrayCell l) →
              h2 !! b = Some c) as Hset.
  { intros o index value h2' Hset.
    apply WeakFixedArray_Set_inv in Hset as (t & slots & -> & Hcell & _ & ->).
    intros b c Hb Hc1 Hc2. pose proof (Hkeep1 b c Hb Hc1 Hc2) as Hb1.
    rewrite lookup_insert_ne; [done|].
    intros ->. rewrite Hcell in Hb1. simplify_eq. by edestruct Hc2. }
  destruct (IsScript h1 unit).
  - destruct (DCHECK _) as [[]|]; [|done]. simpl in Hstep.
    destruct (Script_cast h1 unit) as [new_script|]; [|done]. simpl in Hstep.
    match type of Hstep with
    | (?check ≫= _) = _ => destruct check; [|done]
    end.
    simpl in Hstep. by eapply Hset.
  - destruct (DCHECK _) as [[]|]; [|done]. simpl in Hstep.
    destruct (script h1 this) as [old|]; [|done]. simpl in Hstep.
    destruct (Script_cast h1 old) as [old_script|]; [|done]. simpl in Hstep.
    destruct (WeakFixedArray_length _ _) as [len|]; [|done]. simpl in Hstep.
    case_bool_decide; [|by simplify_eq].
    destruct (WeakFixedArray_Get _ _ _) as [raw|]; [|done]. simpl in Hstep.
    destruct (GetHeapObjectIfWeak raw) as [heap_object|]; [|by simplify_eq].
    case_bool_decide; [|by simplify_eq]. by eapply Hset.
Qed.

(** X10.  A record with a debug info attached keeps it across SetScript: the
    new source unit is written into the debug info, the record's own slot
    still refers to the debug info, the debug info's break-info flag and
    saved bytecode stay, and the record's source unit reads as the new one. *)
Theorem SetScript_keeps_debug_info (h h' : Heap) (this a : Address)
    (r : SharedFunctionInfo) (d : DebugInfo) (unit : Object)
    (function_literal_id : Z) (reset : bool) :
  load h this = Ok r →
  script_or_debug_info r = HeapObject a →
  h !! a = Some (DebugInfoCell d) →
  SetScript h this unit function_literal_id reset = Ok h' →
  load h' this = Ok r
  ∧ h' !! a = Some (DebugInfoCell
                      {| DebugInfo_script := unit;
                         DebugInfo_HasBreakInfo := DebugInfo_HasBreakInfo d;
                         OriginalBytecodeArray := OriginalBytecodeArray d |})
  ∧ script h' this = Ok unit
  ∧ HasBreakInfo h' this = Ok (DebugInfo_HasBreakInfo d).
Proof.
  intros Hload Hslot Hcell Hcall.
  assert (a ≠ this) as Hne.
  { intros ->. apply load_Some in Hload. congruence. }
  assert (∀ h0 d0, load h0 this = Ok r → h0 !! a = Some (DebugInfoCell d0) →
            script h0 this = Ok (DebugInfo_script d0)
            ∧ HasBreakInfo h0 this = Ok (DebugInfo_HasBreakInfo d0)) as Hread.
  { intros h0 d0 Hload0 Hcell0. split.
    - unfold script. rewrite Hload0. simpl. unfold IsDebugInfo, DebugInfo_cast.
      rewrite Hslot. simpl. by rewrite Hcell0.
    - rewrite (HasBreakInfo_debug_info h0 this r Hload0).
      unfold attached_debug_info. rewrite Hslot. simpl. by rewrite Hcell0. }
  apply SetScript_inv_keeps in Hcall as [[Hscript ->]|(h2 & Hkeep & Hset)].
  - destruct (Hread h d Hload Hcell) as [Hscript' Hbreak].
    rewrite Hscript' in Hscript. injection Hscript as <-.
    split; [done|]. split; [by destruct d|]. done.
  - assert (load h2 this = Ok r) as Hload2.
    { apply load_Some. apply load_Some in Hload.
      by apply (Hkeep _ _ Hload). }
    assert (h2 !! a = Some (DebugInfoCell d)) as Hcell2
      by by apply (Hkeep _ _ Hcell).
    unfold set_script in Hset. rewrite Hload2 in Hset. simpl in Hset.
    rewrite Hslot, Hcell2 in Hset. injection Hset as <-.
    assert (load (<[a := DebugInfoCell
                           {| DebugInfo_script := unit;
                              DebugInfo_HasBreakInfo := DebugInfo_HasBreakInfo d;
                              OriginalBytecodeArray := OriginalBytecodeArray d |}]>
                    h2) this = Ok r) as Hload'
      by by rewrite load_insert_ne.
    split; [done|]. split; [by rewrite lookup_insert_eq|].
    apply (Hread _ {| DebugInfo_script := unit;
                      DebugInfo_HasBreakInfo := DebugInfo_HasBreakInfo d;
                      OriginalBytecodeArray := OriginalBytecodeArray d |} Hload').
    by rewrite lookup_insert_eq.
Qed.

(** X11.  Re-targeting a record straight from one unit to another is not a
    supported transition: with debug checks on, SetScript with a unit as the
    new target fails for a record that already belongs to a different unit.
    The record has to be detached first. *)
Theorem SetScript_rejects_unit_to_unit (h : Heap) (this : Address)
    (current target : Object) (function_literal_id : Z) (reset : bool) :
  DEBUG = true →
  script h this = Ok current →
  IsScript h current = true →
  IsScript h target = true →
  current ≠ target →
  SetScript h this target function_literal_id reset = Fatal.
Proof.
  intros Hdebug Hscript Hcurrent Htarget Hne.
  destruct (script_load _ _ _ Hscript) as [r Hload].
  unfold SetScript. rewrite Hscript. simpl.
  rewrite bool_decide_eq_false_2 by done.
  destruct (SetScript_reset_step h this r reset Hload)
    as (with_preparse_data & h1 & -> & Hclear & Hload1 & Hscript1 & Hdebug1
        & Hscripts1 & Hcells1 & Htables1).
  simpl. rewrite Hclear. simpl. rewrite Hscripts1, Htarget.
  rewrite Hscript1, Hscript. simpl. rewrite Hscripts1, Hcurrent. simpl.
  unfold DCHECK. by rewrite Hdebug.
Qed.

(** *** DiscardCompiled, whatever the record *)

Lemma DiscardCompiledMetadata_inv (h h1 : Heap) (this : Address) :
  DiscardCompiledMetadata h this (λ _ _ h, Ok h) = Ok h1 →
  ∃ r, load h this = Ok r
       ∧ ((is_compiled h this = Ok true
           ∧ ∃ outer,
               h1 = store h this
                      (with_raw_outer_scope_info_or_feedback_metadata r outer))
          ∨ (is_compiled h this = Ok false ∧ h1 = h)).
Proof.
  intros Hcall. destruct (load h this) as [r|] eqn:Hload.
  2: { unfold DiscardCompiledMetadata, is_compiled in Hcall.
       by rewrite Hload in Hcall. }
  exists r. split; [done|].
  destruct (is_compiled h this) as [[]|] eqn:Hcompiled.
  - left. split; [done|].
    destruct (DiscardCompiledMetadata_compiled h this r Hload Hcompiled)
      as [outer Hstep].
    rewrite Hstep in Hcall. injection Hcall as <-. eauto.
  - right. split; [done|]. unfold DiscardCompiledMetadata in Hcall.
    rewrite Hcompiled in Hcall. simpl in Hcall.
    destruct (DCHECK _) as [[]|]; [|done]. by injection Hcall as <-.
  - unfold is_compiled in Hcompiled. by rewrite Hload in Hcompiled.
Qed.

Lemma with_function_data_id (r : SharedFunctionInfo) :
  with_function_data
    (with_raw_outer_scope_info_or_feedback_metadata r
       (raw_outer_scope_info_or_feedback_metadata r))
    (function_data r) = r.
Proof. by destruct r. Qed.

Lemma DiscardCompiled_inv (h h' : Heap) (this : Address) :
  DiscardCompiled h this = Ok h' →
  ∃ r outer a d,
    load h this = Ok r
    ∧ a ≠ this
    ∧ (h !! a = None
       ∨ (function_data r = HeapObject a
          ∧ ∃ cache,
              h !! a = Some (UncompiledDataWithPreparseDataCell d cache)))
    ∧ h' = store (<[a := UncompiledDataWithoutPreparseDataCell d]> h) this
             (with_function_data
                (with_raw_outer_scope_info_or_feedback_metadata r outer)
                (HeapObject a))
    ∧ (scope_positions h (name_or_scope_info r) = None →
       StartPosition h this = Ok (start_position d)
       ∧ EndPosition h this = Ok (end_position d))
    ∧ (scope_descriptor h (name_or_scope_info r) = None →
       inferred_name h this = Ok (UncompiledData_inferred_name d)).
Proof.
  unfold DiscardCompiled. intros Hcall.
  destruct (DCHECK _) as [[]|]; [|done]. simpl in Hcall.
  destruct (inferred_name h this) as [N|] eqn:HN; [|done]. simpl in Hcall.
  destruct (StartPosition h this) as [S|] eqn:HS; [|done]. simpl in Hcall.
  destruct (EndPosition h this) as [E|] eqn:HE; [|done]. simpl in Hcall.
  destruct (DiscardCompiledMetadata h this _) as [h1|] eqn:Hmeta; [|done].
  simpl in Hcall.
  apply DiscardCompiledMetadata_inv in Hmeta as (r & Hload & Hmeta).
  assert (∃ outer r1,
            r1 = with_raw_outer_scope_info_or_feedback_metadata r outer
            ∧ h1 = store h this r1
            ∧ (is_compiled h this = Ok true ∨ h1 = h)) as
    (outer & r1 & Hr1 & Hh1 & Hcase).
  { destruct Hmeta as [[Hcompiled [outer ->]]|[Hcompiled ->]].
    - exists outer. eauto.
    - exists (raw_outer_scope_info_or_feedback_metadata r), r.
      split; [by destruct r|]. split; [|by right].
      unfold store. apply load_Some in Hload. by rewrite insert_id. }
  assert (load h1 this = Ok r1) as Hload1 by (rewrite Hh1; apply load_store).
  unfold HasUncompiledDataWithPreparseData in Hcall.
  rewrite Hload1 in Hcall. simpl in Hcall.
  assert (function_data r1 = function_data r) as Hdata1 by by rewrite Hr1.
  rewrite Hdata1 in Hcall.
  destruct (IsUncompiledDataWithPreparseData h1 (function_data r)) eqn:Hwith.
  - (* the cache is dropped in place *)
    assert (h1 = h) as ->.
    { destruct Hcase as [Hcompiled|]; [|done].
      destruct (is_compiled_payload h this r Hload Hcompiled) as [_ Hnot].
      rewrite IsUncompiledDataWithPreparseData_payload in Hwith.
      rewrite Hh1 in Hwith.
      rewrite (active_payload_store h this r r1) in Hwith by done.
      destruct (active_payload h (function_data r)) as [| | |d c| | | | | |]
        eqn:Hp; try done. by destruct (Hnot d c). }
    unfold ClearPreparseData in Hcall.
    destruct (DCHECK _) as [[]|]; [|done]. simpl in Hcall.
    rewrite Hload in Hcall. simpl in Hcall.
    destruct (function_data r) as [| | | |a] eqn:Hdata; try done.
    destruct (h !! a) as [[]|] eqn:Hcell; try done.
    injection Hcall as <-.
    match type of Hcell with
    | _ = Some (UncompiledDataWithPreparseDataCell ?d ?cache) =>
        exists r, (raw_outer_scope_info_or_feedback_metadata r), a, d
    end.
    assert (a ≠ this) as Hne.
    { intros ->. apply load_Some in Hload. congruence. }
    split; [done|]. split; [done|]. split; [right; eauto|].
    split.
    { rewrite <- Hdata, with_function_data_id. unfold store.
      symmetry. apply insert_id.
      rewrite lookup_insert_ne by done. by apply load_Some. }
    split.
    + intros Hpos.
      rewrite (StartPosition_resolve h this r) in HS;
        [|done|by rewrite Hdata].
      rewrite (EndPosition_resolve h this r) in HE;
        [|done|by rewrite Hdata].
      unfold resolve_position in HS, HE. rewrite Hpos, Hdata in HS, HE.
      simpl in HS, HE. rewrite Hcell in HS, HE. by simplify_eq.
    + intros Hscope. rewrite (inferred_name_reported h this r) in HN by done.
      unfold reported_inferred_name in HN. rewrite Hscope, Hdata in HN.
      simpl in HN. rewrite Hcell in HN. by simplify_eq.
  - (* a fresh summary is installed *)
    simpl in Hcall. unfold set_function_data in Hcall.
    set (a := fresh (dom h1)) in *.
    assert (h1 !! a = None) as Hfresh1.
    { apply not_elem_of_dom. apply is_fresh. }
    assert (a ≠ this) as Hne.
    { intros Heq. rewrite Heq in Hfresh1. apply load_Some in Hload1.
      congruence. }
    assert (h !! a = None) as Hfresh.
    { rewrite Hh1 in Hfresh1. unfold store in Hfresh1.
      by rewrite lookup_insert_ne in Hfresh1. }
    rewrite load_insert_ne, Hload1 in Hcall by done. simpl in Hcall.
    injection Hcall as <-.
    exists r, outer, a, {| UncompiledData_inferred_name := N;
                           start_position := S; end_position := E |}.
    split; [done|]. split; [done|]. split; [by left|].
    split.
    { rewrite Hr1, Hh1. unfold store.
      rewrite (insert_insert_ne _ a this) by done.
      by rewrite insert_insert_eq. }
    done.
Qed.

Lemma DiscardCompiled_cell_of (h : Heap) (this a : Address)
    (r r' : SharedFunctionInfo) (d : UncompiledData) (o : Object) :
  load h this = Ok r →
  a ≠ this →
  (h !! a = None
   ∨ ∃ cache, h !! a = Some (UncompiledDataWithPreparseDataCell d cache)) →
  let h' := store (<[a := UncompiledDataWithoutPreparseDataCell d]> h) this r' in
  cell_of h' o = cell_of h o
  ∨ (cell_of h o = Some (SharedFunctionInfoCell r)
     ∧ cell_of h' o = Some (SharedFunctionInfoCell r'))
  ∨ (o = HeapObject a
     ∧ cell_of h' o = Some (UncompiledDataWithoutPreparseDataCell d)
     ∧ (cell_of h o = None
        ∨ ∃ cache,
            cell_of h o = Some (UncompiledDataWithPreparseDataCell d cache))).
Proof.
  intros Hload%load_Some Hne Ha h'. destruct o as [| | | |b]; try by left.
  unfold h', store. simpl. destruct (decide (b = this)) as [->|Hthis].
  - right. left. by rewrite lookup_insert_eq.
  - rewrite lookup_insert_ne by done. destruct (decide (b = a)) as [->|Hb].
    + right. right. by rewrite lookup_insert_eq.
    + left. by rewrite lookup_insert_ne.
Qed.

Lemma DiscardCompiled_effect (h h' : Heap) (this : Address) :
  DiscardCompiled h this = Ok h' →
  ∃ r r' a d,
    load h this = Ok r
    ∧ load h' this = Ok r'
    ∧ (∃ outer,
         r' = with_function_data
                (with_raw_outer_scope_info_or_feedback_metadata r outer)
                (HeapObject a))
    ∧ a ≠ this
    ∧ h' !! a = Some (UncompiledDataWithoutPreparseDataCell d)
    ∧ (h !! a = None ∨ function_data r = HeapObject a)
    ∧ (∀ b, b ≠ this → b ≠ a → h' !! b = h !! b)
    ∧ (∀ o, scope_descriptor h' o = scope_descriptor h o)
    ∧ (∀ o, IsDebugInfo h' o = IsDebugInfo h o)
    ∧ (∀ o, DebugInfo_cast h' o = DebugInfo_cast h o)
    ∧ (∀ o, owning_unit_id h' o = owning_unit_id h o)
    ∧ StartPosition h this = StartPosition h' this
    ∧ EndPosition h this = EndPosition h' this
    ∧ inferred_name h this = inferred_name h' this.
Proof.
  intros (r & outer & a & d & Hload & Hne & Ha & -> & Hpos & Hname)
    %DiscardCompiled_inv.
  set (r' := with_function_data
               (with_raw_outer_scope_info_or_feedback_metadata r outer)
               (HeapObject a)).
  set (h' := store (<[a := UncompiledDataWithoutPreparseDataCell d]> h) this r').
  assert (h !! a = None
          ∨ ∃ cache, h !! a = Some (UncompiledDataWithPreparseDataCell d cache))
    as Ha' by (destruct Ha as [|[_ ?]]; eauto).
  pose proof (λ o, DiscardCompiled_cell_of h this a r r' d o Hload Hne Ha')
    as Hcells. fold h' in Hcells.
  assert (load h' this = Ok r') as Hload' by apply load_store.
  assert (h' !! a = Some (UncompiledDataWithoutPreparseDataCell d)) as Hcell'.
  { unfold h', store. rewrite lookup_insert_ne by done.
    by rewrite lookup_insert_eq. }
  assert (∀ o, scope_descriptor h' o = scope_descriptor h o) as Hscope.
  { intros o. unfold scope_descriptor.
    destruct (Hcells o) as [->|[[-> ->]|(_ & -> & [->|[? ->]])]]; done. }
  exists r, r', a, d.
  split; [done|]. split; [done|]. split; [by exists outer|].
  split; [done|]. split; [done|].
  split; [destruct Ha as [|[? _]]; eauto|].
  split.
  { intros b Hb1 Hb2. unfold h', store. by rewrite !lookup_insert_ne. }
  split; [done|]. split.
  { intros o. unfold IsDebugInfo.
    destruct (Hcells o) as [->|[[-> ->]|(_ & -> & [->|[? ->]])]]; done. }
  split.
  { intros o. unfold DebugInfo_cast.
    destruct (Hcells o) as [->|[[-> ->]|(_ & -> & [->|[? ->]])]]; done. }
  split.
  { intros o. unfold owning_unit_id.
    destruct (Hcells o) as [->|[[-> ->]|(_ & -> & [->|[? ->]])]]; done. }
  assert (active_payload h' (function_data r')
          = DeferredParseSummary d None) as Hpayload.
  { simpl. by rewrite Hcell'. }
  assert (name_or_scope_info r' = name_or_scope_info r) as Hslot by done.
  assert (∀ o, scope_positions h' o = scope_positions h o) as Hpositions.
  { intros o. unfold scope_positions. by rewrite Hscope. }
  rewrite (StartPosition_resolve h' this r'), (EndPosition_resolve h' this r'),
    (inferred_name_reported h' this r') by done.
  unfold resolve_position, reported_inferred_name.
  rewrite Hpayload, Hslot, Hscope, Hpositions.
  split; [|split].
  - destruct (scope_positions h (name_or_scope_info r)) as [p|] eqn:Hp.
    + rewrite (StartPosition_resolve h this r) by (done || by rewrite Hp).
      unfold resolve_position. by rewrite Hp.
    + by destruct (Hpos eq_refl) as [-> _].
  - destruct (scope_positions h (name_or_scope_info r)) as [p|] eqn:Hp.
    + rewrite (EndPosition_resolve h this r) by (done || by rewrite Hp).
      unfold resolve_position. by rewrite Hp.
    + by destruct (Hpos eq_refl) as [_ ->].
  - destruct (scope_descriptor h (name_or_scope_info r)) as [info|] eqn:Hinfo.
    + rewrite (inferred_name_reported h this r) by done.
      unfold reported_inferred_name. by rewrite Hinfo.
    + by rewrite (Hname eq_refl).
Qed.

(** X12.  Whatever DiscardCompiled starts from, a call that returns leaves a
    lazy record: the payload is a deferred-parse summary without pre-parse
    cache, the record is not compiled, its entry point is the lazy-compile
    builtin, and nothing is left to discard, so with debug checks on a
    second DiscardCompiled fails its eligibility check. *)
Theorem DiscardCompiled_leaves_lazy_record (h h' : Heap) (this : Address) :
  DiscardCompiled h this = Ok h' →
  HasUncompiledDataWithoutPreparseData h' this = Ok true
  ∧ is_compiled h' this = Ok false
  ∧ GetCode h' this = Ok (builtin kCompileLazy)
  ∧ CanDiscardCompiled h' this = Ok false
  ∧ (DEBUG = true → DiscardCompiled h' this = Fatal).
Proof.
  intros (r & r' & a & d & Hload & Hload' & [outer Hr'] & Hne & Hcell' & _)
    %DiscardCompiled_effect.
  assert (function_data r' = HeapObject a) as Hdata by by rewrite Hr'.
  assert (CanDiscardCompiled h' this = Ok false) as Hcan.
  { unfold CanDiscardCompiled. unfold_payload_tests.
    rewrite Hload'. simpl. rewrite Hdata. simpl. by rewrite Hcell'. }
  split; [|split; [|split; [|split]]]; [| | |done|].
  - unfold_payload_tests. rewrite Hload'. simpl. rewrite Hdata. simpl.
    by rewrite Hcell'.
  - unfold is_compiled. unfold_payload_tests. rewrite Hload'. simpl.
    rewrite Hdata. simpl. by rewrite Hcell'.
  - unfold GetCode. rewrite Hload'. simpl. rewrite Hdata. simpl.
    unfold_payload_tests. simpl. rewrite Hcell'. simpl.
    rewrite DCHECK_true; [done|]. rewrite Hload'. simpl. rewrite Hdata.
    simpl. by rewrite Hcell'.
  - intros Hdebug. unfold DiscardCompiled. rewrite Hcan.
    unfold DCHECK. by rewrite Hdebug.
Qed.

(** X13.  DiscardCompiled keeps what identifies the record: its hash, its
    owning source unit, its name and debug name and its source size are the
    same before and after the call. *)
Theorem DiscardCompiled_keeps_identity (h h' : Heap) (this : Address) :
  DiscardCompiled h this = Ok h' →
  Hash h' this = Hash h this
  ∧ script h' this = script h this
  ∧ Name h' this = Name h this
  ∧ DebugName h' this = DebugName h this
  ∧ SourceSize h' this = SourceSize h this.
Proof.
  intros (r & r' & a & d & Hload & Hload' & [outer Hr'] & Hne & Hcell' & Ha
          & Hframe & Hscope & Hdebug & Hcast & Hunit & HS & HE & HN)
    %DiscardCompiled_effect.
  assert (script h' this = script h this) as Hscript.
  { unfold script. rewrite Hload, Hload'. simpl.
    by rewrite Hr', Hdebug, Hcast. }
  assert (Name h' this = Name h this) as Hname.
  { rewrite (Name_resolved h this r), (Name_resolved h' this r') by done.
    unfold resolved_name. by rewrite Hr', Hscope. }
  split; [|split; [done|split; [done|split]]].
  - rewrite !Hash_combines, <- HS, Hscript.
    destruct (StartPosition h this); [|done]. simpl.
    destruct (script h this); [|done]. simpl. by rewrite Hunit.
  - unfold DebugName. by rewrite Hname, HN.
  - unfold SourceSize. by rewrite HS, HE.
Qed.

(** X14.  DiscardCompiled writes two places only: the record, where just the
    payload slot and the outer-scope/feedback slot may change, and the
    summary the payload refers to.  Every other cell of the heap is as
    before, and the only cell that can appear is the record's new payload. *)
Theorem DiscardCompiled_touches_record_and_summary (h h' : Heap)
    (this : Address) (r : SharedFunctionInfo) :
  load h this = Ok r →
  DiscardCompiled h this = Ok h' →
  ∃ r',
    load h' this = Ok r'
    ∧ name_or_scope_info r' = name_or_scope_info r
    ∧ script_or_debug_info r' = script_or_debug_info r
    ∧ expected_nof_properties r' = expected_nof_properties r
    ∧ properties_are_final r' = properties_are_final r
    ∧ is_class_constructor r' = is_class_constructor r
    ∧ has_reported_binary_coverage r' = has_reported_binary_coverage r
    ∧ disable_optimization_reason r' = disable_optimization_reason r
    ∧ (∀ b c, h !! b = Some c → b ≠ this → function_data r ≠ HeapObject b →
              h' !! b = Some c)
    ∧ (∀ b, h !! b = None → is_Some (h' !! b) →
            function_data r' = HeapObject b).
Proof.
  intros Hload0
    (r0 & r' & a & d & Hload & Hload' & [outer Hr'] & Hne & Hcell' & Ha
     & Hframe & _)%DiscardCompiled_effect.
  rewrite Hload0 in Hload. injection Hload as <-.
  exists r'. split; [done|]. rewrite Hr'. simpl.
  repeat (split; [done|]). split.
  - intros b c Hb Hthis Hdata. rewrite Hframe; [done|done|].
    intros ->. destruct Ha as [Ha|Ha]; [congruence|done].
  - intros b Hb Hb'. destruct (decide (b = a)) as [->|Hba]; [done|].
    destruct (decide (b = this)) as [->|Hbt].
    + apply load_Some in Hload0. congruence.
    + rewrite Hframe, Hb in Hb' by done. by destruct Hb'.
Qed.

(** X15.  DiscardCompiledMetadata is idempotent: a second call (with a
    notification that does nothing) leaves the heap the first call
    produced. *)
Theorem DiscardCompiledMetadata_idempotent (h h' : Heap) (this : Address) :
  DiscardCompiledMetadata h this (λ _ _ h, Ok h) = Ok h' →
  DiscardCompiledMetadata h' this (λ _ _ h, Ok h) = Ok h'.
Proof.
  intros Hcall.
  destruct (DiscardCompiledMetadata_inv _ _ _ Hcall)
    as (r & Hload & [[Hcompiled [outer ->]]|[Hcompiled ->]]); [|done].
  set (r1 := with_raw_outer_scope_info_or_feedback_metadata r outer) in *.
  assert (load (store h this r1) this = Ok r1) as Hload1 by apply load_store.
  assert (∀ o, cell_of (store h this r1) o = cell_of h o
               ∨ (cell_of h o = Some (SharedFunctionInfoCell r)
                  ∧ cell_of (store h this r1) o
                    = Some (SharedFunctionInfoCell r1))) as Hcells.
  { intros o. destruct o as [| | | |b]; try by left. unfold store. simpl.
    destruct (decide (b = this)) as [->|Hb].
    - right. rewrite lookup_insert_eq. by apply load_Some in Hload.
    - left. by rewrite lookup_insert_ne. }
  unfold DiscardCompiledMetadata in *.
  assert (is_compiled (store h this r1) this = Ok true) as ->.
  { unfold is_compiled in *. rewrite Hload in Hcompiled. rewrite Hload1.
    simpl in *. rewrite <- Hcompiled. do 3 f_equal.
    rewrite !IsUncompiledData_payload.
    by rewrite (active_payload_store h this r r1). }
  rewrite Hcompiled in Hcall. simpl in *.
  unfold scope_info, set_raw_outer_scope_info_or_feedback_metadata in *.
  rewrite Hload in Hcall. rewrite Hload1. simpl in *.
  unfold IsScopeInfo, ScopeInfo_cast in *.
  destruct (Hcells (name_or_scope_info r)) as [->|[Hc ->]].
  - destruct (cell_of h (name_or_scope_info r)) as [[]|]; simpl in *;
      rewrite ?Hload in Hcall; rewrite ?Hload1; simpl in *;
      injection Hcall as Hcall; f_equal; rewrite <- Hcall at 2;
      unfold store; by rewrite insert_insert_eq.
  - rewrite Hc in Hcall. simpl in *.
    rewrite ?Hload in Hcall; rewrite ?Hload1; simpl in *.
    injection Hcall as Hcall; f_equal; rewrite <- Hcall at 2.
    unfold store; by rewrite insert_insert_eq.
Qed.

(** *** What a detached or discarded record answers *)

Lemma SetScript_frame_IsScript (h h' : Heap) (o : Object) :
  SetScript_frame h h' → IsScript h' o = IsScript h o.
Proof.
  intros Hframe. unfold IsScript. destruct o as [| | | |b]; try done. simpl.
  specialize (Hframe b). destruct (h !! b) as [c|]; [|by rewrite Hframe].
  destruct Hframe as (c' & -> & Hchange).
  destruct c; simpl in Hchange; try (by subst);
    try (by destruct Hchange as [? ->]);
    try (by destruct Hchange as (? & -> & _));
    by destruct Hchange as [->| ->].
Qed.

Lemma SetScript_script (h h' : Heap) (this : Address) (unit : Object)
    (function_literal_id : Z) (reset : bool) :
  IsDebugInfo h unit = false →
  SetScript h this unit function_literal_id reset = Ok h' →
  script h' this = Ok unit.
Proof.
  intros Hunit Hcall.
  apply SetScript_inv in Hcall as [[Hscript ->]|(h2 & Hsame & Hset)]; [done|].
  apply (set_script_script h2); [|done]. by rewrite Hsame.
Qed.

(** X16.  A record that SetScript has set to something that is not a source
    unit (a detach) answers as a record without unit: it is not inlineable
    for lack of a script, and its hash combines the start position with
    unit id 0. *)
Theorem SetScript_detached_record_has_no_unit (h h' : Heap) (this : Address)
    (unit : Object) (function_literal_id : Z) (reset : bool) :
  IsScript h unit = false →
  IsDebugInfo h unit = false →
  SetScript h this unit function_literal_id reset = Ok h' →
  GetInlineability h' this = Ok kHasNoScript
  ∧ Hash h' this
      = (start_pos ← StartPosition h' this;
         Ok (to_uint32 (hash_combine start_pos 0))).
Proof.
  intros Hunit Hdebug Hcall.
  pose proof (SetScript_script _ _ _ _ _ _ Hdebug Hcall) as Hscript.
  pose proof (SetScript_SetScript_frame _ _ _ _ _ _ Hcall) as Hframe.
  assert (IsScript h' unit = false) as Hunit'
    by by rewrite (SetScript_frame_IsScript h h').
  split.
  - unfold GetInlineability. rewrite Hscript. simpl. by rewrite Hunit'.
  - unfold Hash. destruct (StartPosition h' this); [|done]. simpl.
    rewrite Hscript. simpl. by rewrite Hunit'.
Qed.

Lemma DiscardCompiled_units (h h' : Heap) (this : Address) :
  DiscardCompiled h this = Ok h' →
  ∀ o, IsScript h' o = IsScript h o
       ∧ Script_cast h' o = Script_cast h o.
Proof.
  intros (r & outer & a & d & Hload & Hne & Ha & -> & _)%DiscardCompiled_inv o.
  assert (h !! a = None
          ∨ ∃ cache, h !! a = Some (UncompiledDataWithPreparseDataCell d cache))
    as Ha' by (destruct Ha as [|[_ ?]]; eauto).
  unfold IsScript, Script_cast.
  destruct (DiscardCompiled_cell_of h this a r
              (with_function_data
                 (with_raw_outer_scope_info_or_feedback_metadata r outer)
                 (HeapObject a)) d o Hload Hne Ha')
    as [->|[[-> ->]|(_ & -> & [->|[? ->]])]]; done.
Qed.

(** X17.  Discarding the compiled data of a record changes its
    inlineability verdict in one way only: the verdicts that depend on the
    bytecode program (inlineable, over the size limit, may contain
    breakpoints) become "has no bytecode"; the verdicts decided before the
    payload is looked at stay as they are. *)
Theorem DiscardCompiled_inlineability (h h' : Heap) (this : Address)
    (verdict : Inlineability) :
  DiscardCompiled h this = Ok h' →
  GetInlineability h this = Ok verdict →
  verdict ≠ kIsBuiltin →
  GetInlineability h' this
    = Ok match verdict with
         | kIsInlineable | kExceedsBytecodeLimit | kMayContainBreakPoints =>
             kHasNoBytecode
         | _ => verdict
         end.
Proof.
  intros Hcall Hverdict Hbuiltin.
  pose proof (DiscardCompiled_units _ _ _ Hcall) as Hunits.
  destruct (DiscardCompiled_effect _ _ _ Hcall)
    as (r & r' & a & d & Hload & Hload' & [outer Hr'] & Hne & Hcell' & Ha
        & Hframe & Hscope & Hdebug & Hcast & _).
  assert (script h' this = script h this) as Hscript.
  { unfold script. rewrite Hload, Hload'. simpl.
    by rewrite Hr', Hdebug, Hcast. }
  assert (function_data r' = HeapObject a) as Hdata by by rewrite Hr'.
  unfold GetInlineability in *. rewrite Hscript.
  destruct (script h this) as [unit|] eqn:Hunit; [|done]. simpl in *.
  destruct (Hunits unit) as [-> Hcast_unit].
  destruct (IsScript h unit) eqn:Hisscript; simpl in *; [|by simplify_eq].
  rewrite Hload in Hverdict. rewrite Hload'. simpl in *.
  assert (has_reported_binary_coverage r' = has_reported_binary_coverage r)
    as -> by by rewrite Hr'.
  destruct (is_precise_binary_code_coverage
            && negb (has_reported_binary_coverage r)); [by simplify_eq|].
  unfold optimization_disabled in *.
  rewrite Hload in Hverdict. rewrite Hload'. simpl in *.
  assert (disable_optimization_reason r' = disable_optimization_reason r)
    as -> by by rewrite Hr'.
  destruct (negb (bool_decide (disable_optimization_reason r = kNoReason)));
    [by simplify_eq|].
  unfold HasBuiltinId in *. rewrite Hload in Hverdict. rewrite Hload'.
  simpl in *. rewrite Hdata. simpl.
  destruct (IsSmi (function_data r)); [by simplify_eq|].
  unfold IsUserJavaScript in *. rewrite Hscript. simpl.
  rewrite Hunit in Hverdict. simpl in Hverdict.
  rewrite Hcast_unit.
  destruct (IsUndefined unit); simpl in *; [by simplify_eq|].
  destruct (Script_cast h unit) as [s|]; [|done]. simpl in *.
  destruct (Script_IsUserJavaScript s); simpl in *; [|by simplify_eq].
  assert (HasBytecodeArray h' this = Ok false) as ->.
  { unfold HasBytecodeArray, IsBytecodeArray, IsInterpreterData.
    rewrite Hload'. simpl. rewrite Hdata. simpl. by rewrite Hcell'. }
  simpl.
  destruct (HasBytecodeArray h this) as [[]|]; simpl in *;
    [|by simplify_eq|done].
  destruct (GetBytecodeArray h this) as [bytecode|]; [|done]. simpl in *.
  destruct (BytecodeArray_length h bytecode) as [len|]; [|done]. simpl in *.
  case_bool_decide; [by simplify_eq|].
  destruct (HasBreakInfo h this) as [[]|]; simpl in *; by simplify_eq.
Qed.

(** *** SetPosition, call after call *)

Lemma SetPosition_inv (h h' : Heap) (this : Address)
    (start_pos end_pos : Z) :
  SetPosition h this start_pos end_pos = Ok h' →
  ∃ r, load h this = Ok r
    ∧ ((∃ b info old,
          name_or_scope_info r = HeapObject b
          ∧ h !! b = Some (ScopeInfoCell info)
          ∧ PositionInfo info = Some old
          ∧ h' = <[b := ScopeInfoCell
                          {| PositionInfo := Some (start_pos, end_pos);
                             OuterScopeInfo := OuterScopeInfo info;
                             FunctionName := FunctionName info;
                             InferredFunctionName :=
                               InferredFunctionName info |}]> h)
       ∨ (∃ info,
            scope_descriptor h (name_or_scope_info r) = Some info
            ∧ PositionInfo info = None ∧ h' = h)
       ∨ (∃ a summary cache,
            scope_descriptor h (name_or_scope_info r) = None
            ∧ function_data r = HeapObject a
            ∧ active_payload h (HeapObject a)
                = DeferredParseSummary summary cache
            ∧ h' = <[a := UncompiledDataWithoutPreparseDataCell
                             {| UncompiledData_inferred_name :=
                                  UncompiledData_inferred_name summary;
                                start_position := start_pos;
                                end_position := end_pos |}]> h)).
Proof.
  intros Hcall. destruct (load h this) as [r|] eqn:Hload;
    [|by unfold SetPosition in Hcall; rewrite Hload in Hcall].
  exists r. split; [done|].
  destruct (scope_descriptor h (name_or_scope_info r)) as [info|] eqn:Hscope.
  - destruct (PositionInfo info) as [old|] eqn:Hpos.
    + left. apply scope_descriptor_Some in Hscope as (b & Hname & Hcell).
      rewrite (SetPosition_scope h this r b info old) in Hcall by done.
      injection Hcall as <-. eauto 10.
    + right. left.
      rewrite (SetPosition_scope_without_positions h this r info) in Hcall
        by done.
      injection Hcall as <-. eauto.
  - right. right.
    destruct (active_payload h (function_data r)) as [| | |summary cache| | | | | |]
      eqn:Hpayload;
      try (rewrite (SetPosition_unreachable h this r) in Hcall;
           [done|done|done|intros ? ?; by rewrite Hpayload]).
    destruct (DeferredParseSummary_ref _ _ _ _ Hpayload) as [a Hdata].
    rewrite Hdata in Hpayload.
    rewrite (SetPosition_summary h this r a summary cache) in Hcall by done.
    injection Hcall as <-. eauto 10.
Qed.

(** X18.  The last SetPosition wins: after a SetPosition that returns, a
    second SetPosition gives the heap that the second call alone gives, so
    the first pair of positions leaves no trace. *)
Theorem SetPosition_last_write_wins (h h1 : Heap) (this : Address)
    (start1 end1 start2 end2 : Z) :
  SetPosition h this start1 end1 = Ok h1 →
  SetPosition h1 this start2 end2 = SetPosition h this start2 end2.
Proof.
  intros (r & Hload
          & [(b & info & old & Hname & Hcell & Hpos & ->)
            |[(info & Hscope & Hpos & ->)
             |(a & summary & cache & Hscope & Hdata & Hpayload & ->)]])
    %SetPosition_inv; [| done |].
  - assert (b ≠ this) as Hne.
    { intros ->. apply load_Some in Hload. congruence. }
    rewrite (SetPosition_scope h this r b info old) by done.
    set (info1 := {| PositionInfo := Some (start1, end1);
                     OuterScopeInfo := OuterScopeInfo info;
                     FunctionName := FunctionName info;
                     InferredFunctionName := InferredFunctionName info |}).
    rewrite (SetPosition_scope (<[b := ScopeInfoCell info1]> h) this r b
               info1 (start1, end1));
      [|by rewrite load_insert_ne|done|by rewrite lookup_insert_eq|done].
    simpl. by rewrite insert_insert_eq.
  - assert (a ≠ this) as Hne.
    { intros ->. apply load_Some in Hload. simpl in Hpayload.
      by rewrite Hload in Hpayload. }
    rewrite (SetPosition_summary h this r a summary cache) by done.
    set (summary1 := {| UncompiledData_inferred_name :=
                          UncompiledData_inferred_name summary;
                        start_position := start1;
                        end_position := end1 |}).
    rewrite (SetPosition_summary
               (<[a := UncompiledDataWithoutPreparseDataCell summary1]> h)
               this r a summary1 None);
      [|by rewrite load_insert_ne| |done|simpl; by rewrite lookup_insert_eq].
    + simpl. by rewrite insert_insert_eq.
    + rewrite scope_descriptor_insert; [done|done|].
      simpl in Hpayload. intros info Hcell. by rewrite Hcell in Hpayload.
Qed.

Lemma SetPosition_cell (h h' : Heap) (this : Address) (start_pos end_pos : Z) :
  SetPosition h this start_pos end_pos = Ok h' →
  h' = h
  ∨ ∃ x c c',
      h !! x = Some c ∧ x ≠ this ∧ h' = <[x := c']> h
      ∧ ((∃ info info',
            c = ScopeInfoCell info ∧ c' = ScopeInfoCell info'
            ∧ FunctionName info' = FunctionName info
            ∧ InferredFunctionName info' = InferredFunctionName info)
         ∨ (∃ summary cache summary',
              active_payload h (HeapObject x)
                = DeferredParseSummary summary cache
              ∧ c' = UncompiledDataWithoutPreparseDataCell summary'
              ∧ UncompiledData_inferred_name summary'
                = UncompiledData_inferred_name summary)).
Proof.
  intros (r & Hload
          & [(b & info & old & Hname & Hcell & Hpos & ->)
            |[(info & Hscope & Hpos & ->)
             |(a & summary & cache & Hscope & Hdata & Hpayload & ->)]])
    %SetPosition_inv; [|by left|].
  - right. eexists b, _, _. split; [done|]. split.
    { intros ->. apply load_Some in Hload. congruence. }
    split; [done|]. left. eauto 10.
  - right. pose proof Hpayload as Hcell. simpl in Hcell.
    destruct (h !! a) as [c|] eqn:Ha; [|done].
    eexists a, c, _. split; [done|]. split.
    { intros ->. apply load_Some in Hload. rewrite Hload in Ha.
      by simplify_eq. }
    split; [done|]. right. eauto 10.
Qed.

Lemma GetCode_insert_same_kind (h : Heap) (x this : Address) (c c' : HeapCell) :
  h !! x = Some c →
  x ≠ this →
  (∃ info info', c = ScopeInfoCell info ∧ c' = ScopeInfoCell info')
  ∨ (∃ summary cache summary',
       active_payload h (HeapObject x) = DeferredParseSummary summary cache
       ∧ c' = UncompiledDataWithoutPreparseDataCell summary') →
  GetCode (<[x := c']> h) this = GetCode h this.
Proof.
  intros Hcell Hne Hkind. unfold GetCode. rewrite load_insert_ne by done.
  destruct (load h this) as [r|] eqn:Hload; [|done]. simpl.
  assert (load (<[x := c']> h) this = Ok r) as Hload'
    by by rewrite load_insert_ne.
  destruct (function_data r) as [v| | | |b] eqn:Hdata; simpl; try done.
  { unfold HasBuiltinId, builtin_id. by rewrite Hload, Hload'. }
  unfold wasm_exported_function_data, wasm_js_function_data,
    wasm_capi_function_data, InterpreterTrampoline,
    WasmExportedFunctionData_cast, WasmJSFunctionData_cast,
    WasmCapiFunctionData_cast, Code_cast, IsCode.
  unfold_payload_tests. rewrite Hload, Hload'. simpl. rewrite Hdata. simpl.
  destruct (decide (b = x)) as [->|Hb].
  - rewrite lookup_insert_eq, Hcell.
    destruct Hkind as [(info & info' & -> & ->)
                      |(summary & cache & summary' & Hpayload & ->)];
      [done|].
    simpl in Hpayload. rewrite Hcell in Hpayload.
    destruct c; by simplify_eq.
  - rewrite lookup_insert_ne by done.
    destruct (h !! b) as [[]|] eqn:Hpayload; simpl; try done.
    destruct (DCHECK (Ok true)) as [[]|]; [|done]. simpl.
    rewrite !cell_of_insert. case_decide as Htrampoline; [|done].
    rewrite Htrampoline. simpl. rewrite Hcell.
    destruct Hkind as [(info & info' & -> & ->)
                      |(summary & cache & summary' & Hsummary & ->)];
      [done|].
    simpl in Hsummary. rewrite Hcell in Hsummary.
    destruct c; by simplify_eq.
Qed.

(** X19.  SetPosition moves the positions and leaves the rest of what the
    record reports alone: the record itself, its entry point, its owning
    unit, its name, its inferred name and its debug name are what they were
    before the call, also when the call drops the pre-parse cache. *)
Theorem SetPosition_keeps_entry_point_and_names (h h' : Heap) (this : Address)
    (start_pos end_pos : Z) :
  SetPosition h this start_pos end_pos = Ok h' →
  load h' this = load h this
  ∧ GetCode h' this = GetCode h this
  ∧ script h' this = script h this
  ∧ Name h' this = Name h this
  ∧ inferred_name h' this = inferred_name h this
  ∧ DebugName h' this = DebugName h this.
Proof.
  intros Hcall.
  destruct (SetPosition_inv _ _ _ _ _ Hcall) as [r [Hload _]].
  destruct (SetPosition_cell _ _ _ _ _ Hcall)
    as [->|(x & c & c' & Hcell & Hne & -> & Hkind)]; [done|].
  assert (load (<[x := c']> h) this = Ok r) as Hload'
    by by rewrite load_insert_ne.
  assert (Name (<[x := c']> h) this = Name h this) as Hname.
  { rewrite (Name_resolved _ this r Hload'), (Name_resolved h this r Hload).
    unfold resolved_name, scope_descriptor. rewrite cell_of_insert.
    case_decide as Hslot; [|done]. rewrite Hslot. simpl. rewrite Hcell.
    destruct Hkind as [(info & info' & -> & -> & -> & _)
                      |(summary & cache & summary' & Hpayload & -> & _)];
      [done|].
    simpl in Hpayload. rewrite Hcell in Hpayload. destruct c; by simplify_eq. }
  assert (inferred_name (<[x := c']> h) this = inferred_name h this) as Hinferred.
  { rewrite (inferred_name_reported _ this r Hload'),
      (inferred_name_reported h this r Hload).
    unfold reported_inferred_name, scope_descriptor. rewrite cell_of_insert.
    destruct Hkind as [(info & info' & -> & -> & _ & Hinfo)
                      |(summary & cache & summary' & Hpayload & -> & Hsummary)].
    - case_decide as Hslot.
      + rewrite Hslot. simpl. by rewrite Hcell, Hinfo.
      + destruct (cell_of h (name_or_scope_info r)) as [[]|]; try done;
          (destruct (function_data r) as [| | | |b] eqn:Hdata; try done; simpl;
           destruct (decide (b = x)) as [->|Hb];
           [by rewrite lookup_insert_eq, Hcell
           |by rewrite lookup_insert_ne]).
    - pose proof Hpayload as Hpayload0. simpl in Hpayload. rewrite Hcell in Hpayload.
      case_decide as Hslot.
      + rewrite Hslot. simpl. rewrite Hcell.
        destruct c; simplify_eq;
          (destruct (function_data r) as [| | | |b] eqn:Hdata; try done; simpl;
           destruct (decide (b = x)) as [->|Hb];
           [rewrite lookup_insert_eq, Hcell; by rewrite Hsummary
           |by rewrite lookup_insert_ne]).
      + destruct (cell_of h (name_or_scope_info r)) as [[]|]; try done;
          (destruct (function_data r) as [| | | |b] eqn:Hdata; try done; simpl;
           destruct (decide (b = x)) as [->|Hb];
           [rewrite lookup_insert_eq, Hcell;
            destruct c; simplify_eq; by rewrite Hsummary
           |by rewrite lookup_insert_ne]). }
  split; [by rewrite Hload, Hload'|]. split.
  { apply (GetCode_insert_same_kind h x this c c'); [done|done|].
    destruct Hkind as [(info & info' & -> & -> & _)
                      |(summary & cache & summary' & Hpayload & -> & _)];
      eauto 10. }
  split.
  { apply script_insert; [done| |].
    - destruct Hkind as [(info & info' & -> & -> & _)
                        |(summary & cache & summary' & Hpayload & -> & _)];
        done.
    - rewrite Hcell. intros d [= ->].
      destruct Hkind as [(info & info' & ? & _)
                        |(summary & cache & summary' & Hpayload & _)];
        [done|].
      simpl in Hpayload. by rewrite Hcell in Hpayload. }
  split; [done|]. split; [done|].
  unfold DebugName. by rewrite Hname, Hinferred.
Qed.

(** *** A record fresh from Init, and DisableOptimization *)

Lemma cell_of_store (h : Heap) (this : Address) (r r' : SharedFunctionInfo)
    (o : Object) :
  load h this = Ok r →
  cell_of (store h this r') o = cell_of h o
  ∨ (o = HeapObject this
     ∧ cell_of h o = Some (SharedFunctionInfoCell r)
     ∧ cell_of (store h this r') o = Some (SharedFunctionInfoCell r')).
Proof.
  intros Hload%load_Some. unfold store. rewrite cell_of_insert.
  case_decide as Ho; [|by left]. right. rewrite Ho. simpl. by rewrite Hload.
Qed.

Lemma Init_store (h : Heap) (this : Address) (r0 : SharedFunctionInfo)
    (unique_id : Z) :
  load h this = Ok r0 →
  Init h this unique_id
    = Ok (store h this
            {| function_data := Smi kIllegal;
               name_or_scope_info := kNoSharedNameSentinel;
               raw_outer_scope_info_or_feedback_metadata := the_hole_value;
               script_or_debug_info := undefined_value;
               expected_nof_properties := 0;
               properties_are_final := false;
               is_class_constructor := false;
               has_reported_binary_coverage := false;
               disable_optimization_reason := kNoReason |}).
Proof.
  intros Hload. unfold Init, set_builtin_id, set_function_data,
    set_name_or_scope_info, set_raw_outer_scope_info_or_feedback_metadata,
    set_script_or_debug_info, set_expected_nof_properties, set_flags.
  rewrite Hload. simpl. repeat (rewrite load_store; simpl).
  unfold store. by rewrite !insert_insert_eq.
Qed.

(** X20.  Init leaves nothing of the record's earlier contents: it succeeds
    on every record, writes only the record, and the heap it produces is the
    same whatever the record held before. *)
Theorem Init_forgets_earlier_contents (h : Heap) (this : Address)
    (r0 r1 : SharedFunctionInfo) (unique_id unique_id1 : Z) :
  load h this = Ok r0 →
  ∃ h', Init h this unique_id = Ok h'
        ∧ Init (store h this r1) this unique_id1 = Ok h'
        ∧ Init h' this unique_id1 = Ok h'
        ∧ ∀ b, b ≠ this → h' !! b = h !! b.
Proof.
  intros Hload. eexists. split; [by apply (Init_store h this r0)|].
  split; [|split].
  - rewrite (Init_store _ this r1) by apply load_store.
    unfold store. by rewrite insert_insert_eq.
  - erewrite Init_store by apply load_store.
    unfold store. by rewrite insert_insert_eq.
  - intros b Hb. unfold store. by rewrite lookup_insert_ne.
Qed.

(** X21.  What a record fresh from Init answers: its entry point is the
    illegal builtin, its positions and source size are 0, it has no owning
    unit, no name, no break info and nothing to discard, its hash combines
    0 with 0, and it is not inlineable for lack of a script.  The illegal
    builtin is not the lazy-compile builtin. *)
Theorem Init_record_reads (h h' : Heap) (this : Address) (unique_id : Z) :
  kIllegal ≠ kCompileLazy →
  Init h this unique_id = Ok h' →
  GetCode h' this = Ok (builtin kIllegal)
  ∧ is_compiled h' this = Ok true
  ∧ CanDiscardCompiled h' this = Ok false
  ∧ StartPosition h' this = Ok 0
  ∧ EndPosition h' this = Ok 0
  ∧ SourceSize h' this = Ok 0
  ∧ script h' this = Ok undefined_value
  ∧ Hash h' this = Ok (to_uint32 (hash_combine 0 0))
  ∧ DebugName h' this = Ok EmptyString
  ∧ HasBreakInfo h' this = Ok false
  ∧ GetInlineability h' this = Ok kHasNoScript.
Proof.
  intros Hillegal Hcall.
  destruct (load h this) as [r0|] eqn:Hload0.
  2: { unfold Init, set_builtin_id, set_function_data in Hcall.
       by rewrite Hload0 in Hcall. }
  rewrite (Init_store h this r0) in Hcall by done. injection Hcall as <-.
  match goal with
  | |- context [store h this ?r] => set (r' := r)
  end.
  assert (load (store h this r') this = Ok r') as Hload by apply load_store.
  assert (StartPosition (store h this r') this = Ok 0) as HS.
  { rewrite (StartPosition_resolve _ this r') by (done || (simpl; congruence)).
    done. }
  assert (EndPosition (store h this r') this = Ok 0) as HE.
  { rewrite (EndPosition_resolve _ this r') by (done || (simpl; congruence)).
    done. }
  assert (script (store h this r') this = Ok undefined_value) as Hscript.
  { by rewrite (script_source_unit_ref _ this r'). }
  split.
  { unfold GetCode. rewrite Hload. simpl.
    unfold HasBuiltinId, builtin_id. rewrite Hload. simpl.
    by rewrite DCHECK_true. }
  split.
  { unfold is_compiled. rewrite Hload. simpl.
    rewrite bool_decide_eq_false_2; [done|congruence]. }
  split.
  { unfold CanDiscardCompiled. unfold_payload_tests. by rewrite Hload. }
  split; [done|]. split; [done|].
  split; [unfold SourceSize; by rewrite HS, HE|].
  split; [done|].
  split; [by rewrite Hash_combines, HS, Hscript|].
  split; [by rewrite (DebugName_views _ this r')|].
  split; [by rewrite (HasBreakInfo_debug_info _ this r')|].
  unfold GetInlineability. by rewrite Hscript.
Qed.

(** X22.  DisableOptimization with a real reason records the reason and
    changes no other field and no other cell; afterwards the record reports
    optimization as disabled, and its inlineability verdict is decided by
    the first three rules alone: no script, pending binary coverage, or
    optimization disabled. *)
Theorem DisableOptimization_disables (h h' : Heap) (this : Address)
    (r : SharedFunctionInfo) (reason : BailoutReason) :
  reason ≠ kNoReason →
  load h this = Ok r →
  DisableOptimization h this reason = Ok h' →
  h' = store h this
         (with_flags r
            (DisabledOptimizationReasonBits_update (flags_of r) reason))
  ∧ optimization_disabled h' this = Ok true
  ∧ script h' this = script h this
  ∧ GetInlineability h' this
      = Ok (if bool_decide (source_unit h r = None) then kHasNoScript
            else if is_precise_binary_code_coverage
                    && negb (has_reported_binary_coverage r)
                 then kNeedsBinaryCoverage
                 else kHasOptimizationDisabled).
Proof.
  intros Hreason Hload Hcall. unfold DisableOptimization in Hcall.
  destruct (DCHECK (Ok _)) as [[]|]; [|done]. simpl in Hcall.
  unfold flags, set_flags in Hcall. rewrite Hload in Hcall. simpl in Hcall.
  destruct (DCHECK _) as [[]|]; [|done]. injection Hcall as <-.
  set (r' := with_flags r
               (DisabledOptimizationReasonBits_update (flags_of r) reason)).
  assert (load (store h this r') this = Ok r') as Hload' by apply load_store.
  assert (source_unit_ref (store h this r') r' = source_unit_ref h r) as Href.
  { unfold source_unit_ref. simpl.
    destruct (cell_of_store h this r r' (script_or_debug_info r) Hload)
      as [->|(_ & -> & ->)]; done. }
  assert (source_unit (store h this r') r' = source_unit h r) as Hunit.
  { unfold source_unit. rewrite Href.
    destruct (cell_of_store h this r r' (source_unit_ref h r) Hload)
      as [->|(_ & -> & ->)]; done. }
  assert (optimization_disabled (store h this r') this = Ok true) as Hdisabled.
  { unfold optimization_disabled. rewrite Hload'. simpl.
    by rewrite bool_decide_eq_false_2. }
  split; [done|]. split; [done|]. split.
  { by rewrite (script_source_unit_ref _ this r'),
      (script_source_unit_ref h this r), Href. }
  unfold GetInlineability.
  rewrite (script_source_unit_ref _ this r') by done. simpl.
  rewrite IsScript_source_unit, Hunit, Hload'. simpl.
  destruct (source_unit h r) as [unit|]; simpl; [|done].
  destruct (is_precise_binary_code_coverage
            && negb (has_reported_binary_coverage r)); [done|].
  by rewrite Hdisabled.
Qed.

(** *** The finalized property count *)

(** X23.  A finalizing update that finds the record not finalized stores a
    count of at least 1 (an estimate of 0, also one that wrapped to 0 in 16
    bits, is replaced by 2) and at most the 8-bit maximum, and touches no
    other field but the finalized bit, which it sets on a class constructor
    only.  A class constructor is finalized afterwards, and from then on a
    finalizing update with any literal returns the heap as it is; any other
    record is still not finalized. *)
Theorem finalized_property_count_is_positive (h h' : Heap) (this : Address)
    (r : SharedFunctionInfo) (literal : FunctionLiteral) :
  load h this = Ok r →
  are_properties_final h this = Ok false →
  UpdateAndFinalizeExpectedNofPropertiesFromEstimate h this literal = Ok h' →
  ∃ count,
    1 ≤ count ≤ kMaxUInt8
    ∧ h' = store h this
             (if is_class_constructor r
              then with_properties_are_final
                     (with_expected_nof_properties r count) true
              else with_expected_nof_properties r count)
    ∧ are_properties_final h' this = Ok (is_class_constructor r)
    ∧ (is_class_constructor r = true →
       ∀ literal',
         (DEBUG = true → ShouldEagerCompile literal' = true) →
         UpdateAndFinalizeExpectedNofPropertiesFromEstimate h' this literal'
           = Ok h').
Proof.
  intros Hload Hfinal Hcall.
  unfold UpdateAndFinalizeExpectedNofPropertiesFromEstimate in Hcall.
  destruct (DCHECK _) as [[]|]; [|done]. simpl in Hcall.
  rewrite Hfinal in Hcall. simpl in Hcall.
  destruct (get_property_estimate_range h this r literal Hload)
    as (estimate & Hestimate & Hrange & _).
  rewrite Hestimate in Hcall. simpl in Hcall.
  unfold set_expected_nof_properties, set_are_properties_final in Hcall.
  rewrite Hload in Hcall. simpl in Hcall. rewrite load_store in Hcall.
  simpl in Hcall.
  set (capped := Z.min (if bool_decide (estimate = 0) then 2 else estimate)
                   kMaxUInt8) in *.
  assert (1 ≤ capped ≤ kMaxUInt8) as Hcapped.
  { unfold capped, kMaxUInt8. case_bool_decide; lia. }
  assert (to_uint8 capped = capped) as Hsmall.
  { unfold to_uint8. apply Z.mod_small. unfold kMaxUInt8 in Hcapped. lia. }
  rewrite Hsmall in Hcall.
  exists capped. split; [done|].
  destruct (is_class_constructor r) eqn:Hconstructor;
    injection Hcall as <-.
  - assert (are_properties_final
              (store (store h this (with_expected_nof_properties r capped))
                 this
                 (with_properties_are_final
                    (with_expected_nof_properties r capped) true)) this
            = Ok true) as Hfinal'.
    { unfold are_properties_final. rewrite load_store. simpl.
      by rewrite Hconstructor. }
    split; [unfold store; by rewrite insert_insert_eq|].
    split; [done|]. intros _ literal' Heager.
    unfold UpdateAndFinalizeExpectedNofPropertiesFromEstimate.
    assert (DCHECK (Ok (ShouldEagerCompile literal')) = Ok ()) as ->.
    { unfold DCHECK. destruct DEBUG; [|done]. by rewrite Heager. }
    simpl. by rewrite Hfinal'.
  - split; [done|]. split; [|done].
    unfold are_properties_final. rewrite load_store. simpl.
    by rewrite Hconstructor, andb_false_r.
Qed.

End Engine.

(** ** The operations on concrete records *)

Import Examples.

(** *** The scenarios of the specification, run on the embedding *)

Example builtin_7_scenario :
  GetCode true builtin kInterpreterEntryTrampoline kInstantiateAsmJs
    kCompileLazy kHandleApiCall builtin_heap this = Ok (builtin 7)
  ∧ StartPosition true kCompileLazy kNoSourcePosition builtin_heap this = Ok 0.
Proof. split; reflexivity. Qed.

Example source_size_scenario :
  SourceSize true kCompileLazy kNoSourcePosition lazy_heap this = Ok 150
  ∧ ∃ h', SetPosition true lazy_heap this 120 260 = Ok h'
          ∧ SourceSize true kCompileLazy kNoSourcePosition h' this = Ok 140.
Proof. split; [reflexivity|]. eexists. split; reflexivity. Qed.

Example optimization_disabled_scenario :
  GetInlineability true false 500 disabled_heap this
    = Ok kHasOptimizationDisabled
  ∧ GetInlineability true false 500 disabled_lazy_heap this
      = Ok kHasOptimizationDisabled
  ∧ GetInlineability true false 500 compiled_heap this = Ok kIsInlineable.
Proof. repeat split; reflexivity. Qed.

(** An estimate beyond 16 bits is truncated by the [uint16_t] return type of
    the estimate helper before it is capped. *)
Example property_estimate_16_bit_truncation :
  ∃ h' r',
    UpdateExpectedNofPropertiesFromEstimate builtin_heap this (literal 65541)
      = Ok h'
    ∧ load h' this = Ok r'
    ∧ expected_nof_properties r' = 5.
Proof. eexists _, _. repeat split; reflexivity. Qed.

(** A position id is an index into the unit's table.  For the id -1, which
    is none, the detach path passes its upper-bound guard and reads the word
    before the table: a release build returns with the table as it was (the
    word is not a weak reference to the record), a debug build stops at the
    bounds check of the read. *)
Example negative_position_id_scenario :
  (∃ h', SetScript false out_of_bounds_read compiled_heap this
           undefined_value (-1) false = Ok h'
         ∧ h' !! 5%positive = compiled_heap !! 5%positive
         ∧ script h' this = Ok undefined_value)
  ∧ SetScript true out_of_bounds_read compiled_heap this undefined_value
      (-1) false = Fatal.
Proof. split; [eexists; repeat split; reflexivity|reflexivity]. Qed.

(** *** Witnesses *)

Lemma GetCode_dispatch_witness :
  load builtin_heap this = Ok builtin_record
  ∧ function_data builtin_record = Smi 7
  ∧ GetCode true builtin kInterpreterEntryTrampoline kInstantiateAsmJs
      kCompileLazy kHandleApiCall builtin_heap this = Ok (builtin 7).
Proof.
  split; [reflexivity|]. split; [reflexivity|].
  apply (proj1 (proj2 (GetCode_dispatch true builtin
           kInterpreterEntryTrampoline kInstantiateAsmJs kCompileLazy
           kHandleApiCall builtin_heap this)) builtin_record); reflexivity.
Defined.

Lemma position_precedence_witness :
  load lazy_heap this = Ok lazy_record
  ∧ (scope_positions lazy_heap (name_or_scope_info lazy_record) = None →
     function_data lazy_record ≠ Smi kCompileLazy)
  ∧ StartPosition true kCompileLazy kNoSourcePosition lazy_heap this
      = resolve_position kNoSourcePosition fst start_position code_offset
          lazy_heap lazy_record
  ∧ EndPosition true kCompileLazy kNoSourcePosition lazy_heap this
      = resolve_position kNoSourcePosition snd end_position code_end_offset
          lazy_heap lazy_record.
Proof.
  split; [reflexivity|]. split; [intros _; discriminate|].
  apply position_precedence; [reflexivity|intros _; discriminate].
Defined.

Lemma DiscardCompiled_round_trip_witness :
  is_compiled kCompileLazy compiled_heap this = Ok true
  ∧ CanDiscardCompiled compiled_heap this = Ok true
  ∧ StartPosition true kCompileLazy kNoSourcePosition compiled_heap this
      = Ok 100
  ∧ EndPosition true kCompileLazy kNoSourcePosition compiled_heap this
      = Ok 250
  ∧ inferred_name true compiled_heap this = Ok "obj.method"%string
  ∧ ∃ h' r',
      DiscardCompiled true kCompileLazy kNoSourcePosition compiled_heap this
        = Ok h'
      ∧ load h' this = Ok r'
      ∧ active_payload h' (function_data r')
          = DeferredParseSummary
              {| UncompiledData_inferred_name := "obj.method";
                 start_position := 100; end_position := 250 |} None
      ∧ StartPosition true kCompileLazy kNoSourcePosition h' this = Ok 100
      ∧ EndPosition true kCompileLazy kNoSourcePosition h' this = Ok 250
      ∧ inferred_name true h' this = Ok "obj.method"%string.
Proof.
  repeat (split; [reflexivity|]).
  apply DiscardCompiled_round_trip; reflexivity.
Defined.

Lemma SetPosition_writes_back_witness :
  load lazy_heap this = Ok lazy_record
  ∧ ∃ h', SetPosition true lazy_heap this 120 260 = Ok h'
          ∧ load h' this = Ok lazy_record
          ∧ active_payload h' (function_data lazy_record)
              = DeferredParseSummary
                  {| UncompiledData_inferred_name := "f";
                     start_position := 120; end_position := 260 |} None
          ∧ StartPosition true kCompileLazy kNoSourcePosition h' this = Ok 120
          ∧ EndPosition true kCompileLazy kNoSourcePosition h' this = Ok 260
          ∧ SourceSize true kCompileLazy kNoSourcePosition h' this
              = Ok (260 - 120).
Proof.
  split; [reflexivity|].
  apply (proj1 (proj2 (proj2 (SetPosition_writes_back true kCompileLazy
           kNoSourcePosition lazy_heap this lazy_record 120 260 eq_refl)))
         {| UncompiledData_inferred_name := "f";
            start_position := 100; end_position := 250 |} None);
    reflexivity.
Defined.

Lemma GetInlineability_decision_list_witness :
  load disabled_heap this = Ok (disabled compiled_record)
  ∧ (has_bytecode_program disabled_heap (disabled compiled_record) = true →
     is_Some (bytecode_program_length disabled_heap (disabled compiled_record)))
  ∧ GetInlineability true false 500 disabled_heap this
      = Ok (first_match
              (inlineability_rules false 500 disabled_heap
                 (disabled compiled_record)) kIsInlineable)
  ∧ (is_Some (source_unit disabled_heap (disabled compiled_record)) →
     false && negb (has_reported_binary_coverage (disabled compiled_record))
       = false →
     disable_optimization_reason (disabled compiled_record) ≠ kNoReason →
     GetInlineability true false 500 disabled_heap this
       = Ok kHasOptimizationDisabled).
Proof.
  split; [reflexivity|].
  split; [intros _; exists 40; reflexivity|].
  apply GetInlineability_decision_list;
    [reflexivity|intros _; exists 40; reflexivity].
Defined.

Lemma Hash_pure_function_witness :
  StartPosition true kCompileLazy kNoSourcePosition compiled_heap this = Ok 100
  ∧ StartPosition true kCompileLazy kNoSourcePosition repurposed_heap this
      = Ok 100
  ∧ script compiled_heap this = Ok (HeapObject 3%positive)
  ∧ script repurposed_heap this = Ok (HeapObject 3%positive)
  ∧ owning_unit_id compiled_heap (HeapObject 3%positive)
      = owning_unit_id repurposed_heap (HeapObject 3%positive)
  ∧ Hash true kCompileLazy kNoSourcePosition hash_combine compiled_heap this
      = Hash true kCompileLazy kNoSourcePosition hash_combine
          repurposed_heap this.
Proof.
  repeat (split; [reflexivity|]).
  apply (proj1 (proj2 (Hash_pure_function true kCompileLazy kNoSourcePosition
           hash_combine compiled_heap repurposed_heap this this 100
           (HeapObject 3%positive) (HeapObject 3%positive)
           eq_refl eq_refl eq_refl eq_refl))); reflexivity.
Defined.

Lemma SetScript_idempotent_witness :
  IsDebugInfo compiled_heap undefined_value = false
  ∧ ∃ h', SetScript true out_of_bounds_read compiled_heap this undefined_value 3 false = Ok h'
          ∧ script h' this = Ok undefined_value
          ∧ ∀ reset', SetScript true out_of_bounds_read h' this undefined_value 3 reset' = Ok h'.
Proof.
  split; [reflexivity|]. eexists. split; [reflexivity|].
  apply (SetScript_idempotent true out_of_bounds_read compiled_heap _ this undefined_value 3
           false); reflexivity.
Defined.

Lemma SetScript_tolerant_detach_witness :
  script repurposed_heap this = Ok (HeapObject 3%positive)
  ∧ repurposed_heap !! 3%positive
      = Some (ScriptCell {| Script_id := 12; Script_IsUserJavaScript := true;
                            shared_function_infos := HeapObject 5%positive |})
  ∧ repurposed_heap !! 5%positive
      = Some (WeakFixedArrayCell
                [ClearedWeak; ClearedWeak; ClearedWeak; Weak 9%positive])
  ∧ IsScript repurposed_heap undefined_value = false
  ∧ IsDebugInfo repurposed_heap undefined_value = false
  ∧ 0 ≤ 3
  ∧ ∃ h', SetScript true out_of_bounds_read repurposed_heap this undefined_value 3 false = Ok h'
          ∧ h' !! 5%positive
              = Some (WeakFixedArrayCell
                        [ClearedWeak; ClearedWeak; ClearedWeak;
                         Weak 9%positive])
          ∧ script h' this = Ok undefined_value.
Proof.
  repeat (split; [reflexivity|]). split; [discriminate|].
  apply (SetScript_tolerant_detach true out_of_bounds_read repurposed_heap this 3%positive
           5%positive
           {| Script_id := 12; Script_IsUserJavaScript := true;
              shared_function_infos := HeapObject 5%positive |}
           [ClearedWeak; ClearedWeak; ClearedWeak; Weak 9%positive]
           undefined_value 3 false);
    try reflexivity; discriminate.
Defined.

Lemma expected_nof_properties_updates_witness :
  load builtin_heap this = Ok builtin_record
  ∧ ∃ h' r',
      UpdateExpectedNofPropertiesFromEstimate builtin_heap this (literal 300)
        = Ok h'
      ∧ load h' this = Ok r'
      ∧ 0 ≤ expected_nof_properties r' ≤ kMaxUInt8
      ∧ (0 ≤ 300 + 0 < 2 ^ 16 →
         expected_nof_properties r' = Z.min (300 + 0) kMaxUInt8).
Proof.
  split; [reflexivity|].
  apply (proj1 (expected_nof_properties_updates true builtin_heap this
                  builtin_record (literal 300) eq_refl)).
Defined.

Lemma DebugName_resolved_or_inferred_witness :
  load compiled_heap this = Ok compiled_record
  ∧ name_slot_well_formed compiled_heap compiled_record = true
  ∧ ∃ function_name inferred,
      Name compiled_heap this = Ok function_name
      ∧ inferred_name true compiled_heap this = Ok inferred
      ∧ DebugName true compiled_heap this
          = Ok (if bool_decide (0 < Z.of_nat (String.length function_name))
                then function_name else inferred).
Proof.
  split; [reflexivity|]. split; [reflexivity|].
  apply (proj1 (DebugName_resolved_or_inferred true compiled_heap this
                  compiled_record eq_refl eq_refl)).
Defined.

(** *** Where the code departs from the claims, on the example heaps *)

(** C1 as stated: interpreter-trampoline data goes to a code object
    validated to be an interpreter trampoline.  Without debug checks the code
    object in the slot is returned although it is not a trampoline. *)
Lemma GetCode_returns_unvalidated_trampoline :
  active_payload unvalidated_trampoline_heap (HeapObject 2%positive)
    = InterpreterTrampolineData (HeapObject 3%positive) (HeapObject 6%positive)
  ∧ is_trampoline_code unvalidated_trampoline_heap (HeapObject 6%positive)
      = false
  ∧ GetCode false builtin kInterpreterEntryTrampoline kInstantiateAsmJs
      kCompileLazy kHandleApiCall unvalidated_trampoline_heap this
    = Ok (HeapObject 6%positive)
  ∧ GetCode false builtin kInterpreterEntryTrampoline kInstantiateAsmJs
      kCompileLazy kHandleApiCall unvalidated_trampoline_heap this
    ≠ ResolveEntryPoint builtin kInterpreterEntryTrampoline kInstantiateAsmJs
        kCompileLazy kHandleApiCall unvalidated_trampoline_heap
        (active_payload unvalidated_trampoline_heap (HeapObject 2%positive)).
Proof.
  repeat (split; [reflexivity|]). discriminate.
Qed.

(** C4.  On a record whose name slot holds a scope descriptor without
    position data and whose payload is a deferred-parse summary, the
    summary is the active representation: StartPosition and EndPosition
    fall through to it and read 100 and 250.  SetPosition(120, 260) does not
    fall through: it returns with the heap as it was, so that the positions
    still read 100 and 250 and the source size 150.  With a builtin payload
    behind the same name slot no representation is active and SetPosition
    returns as well. *)
Theorem SetPosition_skips_summary_behind_positionless_scope :
  scope_positions positionless_lazy_heap (HeapObject 4%positive) = None
  ∧ active_payload positionless_lazy_heap (HeapObject 2%positive)
    = DeferredParseSummary
        {| UncompiledData_inferred_name := "f";
           start_position := 100; end_position := 250 |} None
  ∧ StartPosition true kCompileLazy kNoSourcePosition positionless_lazy_heap
      this = Ok 100
  ∧ EndPosition true kCompileLazy kNoSourcePosition positionless_lazy_heap
      this = Ok 250
  ∧ (∀ debug,
       SetPosition debug positionless_lazy_heap this 120 260
       = Ok positionless_lazy_heap)
  ∧ SourceSize true kCompileLazy kNoSourcePosition positionless_lazy_heap
      this = Ok 150
  ∧ (∀ debug,
       SetPosition debug positionless_builtin_heap this 120 260
       = Ok positionless_builtin_heap).
Proof.
  repeat split; by intros [].
Qed.

(** C9 as stated: once the finalized bit is set no update changes the stored
    estimate.  The non-finalizing update writes a finalized class
    constructor: its count goes from 2 to 12, and the record stays
    finalized. *)
Lemma finalized_estimate_overwritten :
  load finalized_heap this = Ok finalized_record
  ∧ are_properties_final finalized_heap this = Ok true
  ∧ expected_nof_properties finalized_record = 2
  ∧ ∃ h' r',
      UpdateExpectedNofPropertiesFromEstimate finalized_heap this (literal 10)
        = Ok h'
      ∧ load h' this = Ok r'
      ∧ are_properties_final h' this = Ok true
      ∧ expected_nof_properties r' = 12.
Proof.
  repeat (split; [reflexivity|]). eexists _, _. repeat split; reflexivity.
Qed.

(** *** The further properties on the example heaps *)

Lemma ScriptIterator_Next_first_live_witness :
  compiled_heap !! 5%positive
    = Some (WeakFixedArrayCell
              [ClearedWeak; ClearedWeak; ClearedWeak; Weak 1%positive])
  ∧ 0 ≤ 0
  ∧ ScriptIterator_Next true out_of_bounds_read compiled_heap
      {| shared_function_infos_ := HeapObject 5%positive; index_ := 0 |}
    = Ok (Some (HeapObject this),
          {| shared_function_infos_ := HeapObject 5%positive; index_ := 4 |}).
Proof.
  split; [reflexivity|]. split; [lia|].
  exact (ScriptIterator_Next_first_live true out_of_bounds_read compiled_heap 5%positive
           [ClearedWeak; ClearedWeak; ClearedWeak; Weak 1%positive] 0
           eq_refl ltac:(lia)).
Defined.

Lemma ScriptIterator_yields_table_records_witness :
  table_of_records compiled_heap
    [ClearedWeak; ClearedWeak; ClearedWeak; Weak 1%positive] = true
  ∧ ScriptIterator_collect true out_of_bounds_read 5 compiled_heap
      (ScriptIterator_of_table (HeapObject 5%positive))
    = Ok [HeapObject this].
Proof.
  split; [reflexivity|].
  exact (ScriptIterator_yields_table_records true out_of_bounds_read compiled_heap 5%positive
           [ClearedWeak; ClearedWeak; ClearedWeak; Weak 1%positive] 5
           eq_refl eq_refl ltac:(simpl; lia)).
Defined.

Lemma ScriptIterator_Reset_restarts_witness :
  table_of_records compiled_heap
    [ClearedWeak; ClearedWeak; ClearedWeak; Weak 1%positive] = true
  ∧ ∃ it',
      ScriptIterator_Reset compiled_heap
        {| shared_function_infos_ := HeapObject 8%positive; index_ := 4 |}
        (HeapObject 3%positive) = Ok it'
      ∧ ScriptIterator_of_script compiled_heap (HeapObject 3%positive) = Ok it'
      ∧ ScriptIterator_collect true out_of_bounds_read 5 compiled_heap it' = Ok [HeapObject this].
Proof.
  split; [reflexivity|].
  apply (ScriptIterator_Reset_restarts true out_of_bounds_read compiled_heap
           {| shared_function_infos_ := HeapObject 8%positive; index_ := 4 |}
           3%positive 5%positive
           {| Script_id := 12; Script_IsUserJavaScript := true;
              shared_function_infos := HeapObject 5%positive |}
           [ClearedWeak; ClearedWeak; ClearedWeak; Weak 1%positive] 5);
    try reflexivity.
  simpl. lia.
Defined.

Lemma ScriptIterator_exhausted_stays_witness :
  ScriptIterator_Next true out_of_bounds_read compiled_heap
    {| shared_function_infos_ := HeapObject 5%positive; index_ := 4 |}
  = Ok (None,
        {| shared_function_infos_ := HeapObject 5%positive; index_ := 4 |}).
Proof.
  exact (ScriptIterator_exhausted_stays true out_of_bounds_read compiled_heap
           {| shared_function_infos_ := HeapObject 5%positive; index_ := 4 |}
           {| shared_function_infos_ := HeapObject 5%positive; index_ := 4 |}
           eq_refl).
Defined.

Lemma SetScript_touches_only_association_witness :
  ∃ h', SetScript true out_of_bounds_read compiled_heap this undefined_value 3 false = Ok h'
        ∧ dom h' = dom compiled_heap
        ∧ ∀ b c, compiled_heap !! b = Some c →
                 ∃ c', h' !! b = Some c' ∧ SetScript_may_change c c'.
Proof.
  eexists. split; [reflexivity|].
  apply (SetScript_touches_only_association true out_of_bounds_read compiled_heap _ this
           undefined_value 3 false).
  reflexivity.
Defined.

Lemma SetScript_keeps_positions_and_name_witness :
  load compiled_heap this = Ok compiled_record
  ∧ ∃ h', SetScript true out_of_bounds_read compiled_heap this undefined_value 3 false = Ok h'
          ∧ StartPosition true kCompileLazy kNoSourcePosition h' this
              = StartPosition true kCompileLazy kNoSourcePosition
                  compiled_heap this
          ∧ EndPosition true kCompileLazy kNoSourcePosition h' this
              = EndPosition true kCompileLazy kNoSourcePosition
                  compiled_heap this
          ∧ inferred_name true h' this = inferred_name true compiled_heap this.
Proof.
  split; [reflexivity|]. eexists. split; [reflexivity|].
  apply (SetScript_keeps_positions_and_name true kCompileLazy
           kNoSourcePosition out_of_bounds_read compiled_heap _ this compiled_record
           undefined_value 3 false);
    [reflexivity|discriminate|reflexivity].
Defined.

Lemma SetScript_attaches_witness :
  script unattached_heap this = Ok undefined_value
  ∧ IsScript unattached_heap undefined_value = false
  ∧ 0 ≤ 3 < Z.of_nat 4
  ∧ ∃ h' slots',
      SetScript true out_of_bounds_read unattached_heap this (HeapObject 3%positive) 3 false
        = Ok h'
      ∧ h' !! 5%positive = Some (WeakFixedArrayCell slots')
      ∧ slots' !! Z.to_nat 3 = Some (Weak this)
      ∧ (∀ i, i ≠ Z.to_nat 3 →
              slots' !! i
                = [ClearedWeak; ClearedWeak; ClearedWeak; ClearedWeak] !! i)
      ∧ length slots'
          = length [ClearedWeak; ClearedWeak; ClearedWeak; ClearedWeak]
      ∧ h' !! 3%positive
          = Some (ScriptCell {| Script_id := 12;
                                Script_IsUserJavaScript := true;
                                shared_function_infos := HeapObject 5%positive |})
      ∧ script h' this = Ok (HeapObject 3%positive).
Proof.
  split; [reflexivity|]. split; [reflexivity|]. split; [simpl; lia|].
  apply (SetScript_attaches true out_of_bounds_read unattached_heap this 3%positive 5%positive
           undefined_value
           {| Script_id := 12; Script_IsUserJavaScript := true;
              shared_function_infos := HeapObject 5%positive |}
           [ClearedWeak; ClearedWeak; ClearedWeak; ClearedWeak] 3 false);
    try reflexivity; [simpl; lia|intros _ b; discriminate].
Defined.

Lemma SetScript_attached_record_is_iterated_witness :
  table_of_records unattached_heap
    [ClearedWeak; ClearedWeak; ClearedWeak; ClearedWeak] = true
  ∧ ∃ h' it records,
      SetScript true out_of_bounds_read unattached_heap this (HeapObject 3%positive) 3 false
        = Ok h'
      ∧ ScriptIterator_of_script h' (HeapObject 3%positive) = Ok it
      ∧ ScriptIterator_collect true out_of_bounds_read
          (S (length [ClearedWeak; ClearedWeak; ClearedWeak; ClearedWeak]))
          h' it = Ok records
      ∧ HeapObject this ∈ records.
Proof.
  split; [reflexivity|].
  apply (SetScript_attached_record_is_iterated true out_of_bounds_read unattached_heap this
           3%positive 5%positive undefined_value
           {| Script_id := 12; Script_IsUserJavaScript := true;
              shared_function_infos := HeapObject 5%positive |}
           [ClearedWeak; ClearedWeak; ClearedWeak; ClearedWeak] 3 false);
    try reflexivity; [simpl; lia|intros _ b; discriminate].
Defined.

Lemma SetScript_detached_record_is_not_iterated_witness :
  script compiled_heap this = Ok (HeapObject 3%positive)
  ∧ [ClearedWeak; ClearedWeak; ClearedWeak; Weak this] !! Z.to_nat 3
      = Some (Weak this)
  ∧ table_of_records compiled_heap
      [ClearedWeak; ClearedWeak; ClearedWeak; Weak this] = true
  ∧ ∃ h' it records,
      SetScript true out_of_bounds_read compiled_heap this undefined_value 3 false = Ok h'
      ∧ ScriptIterator_of_script h' (HeapObject 3%positive) = Ok it
      ∧ ScriptIterator_collect true out_of_bounds_read
          (S (length [ClearedWeak; ClearedWeak; ClearedWeak; Weak this]))
          h' it = Ok records
      ∧ HeapObject this ∉ records.
Proof.
  split; [reflexivity|]. split; [reflexivity|]. split; [reflexivity|].
  apply (SetScript_detached_record_is_not_iterated true out_of_bounds_read compiled_heap this
           3%positive 5%positive
           {| Script_id := 12; Script_IsUserJavaScript := true;
              shared_function_infos := HeapObject 5%positive |}
           [ClearedWeak; ClearedWeak; ClearedWeak; Weak this]
           undefined_value 3 false);
    try reflexivity; [lia|].
  intros [|[|[|[|i]]]] m Hm Hi; simpl in Hm; try discriminate Hm;
    try (injection Hm as <-; discriminate).
  exfalso. apply Hi. reflexivity.
Defined.

Lemma SetScript_keeps_debug_info_witness :
  load debugged_heap this
    = Ok (record (HeapObject 2%positive) (HeapObject 4%positive)
            (HeapObject 6%positive))
  ∧ ∃ h', SetScript true out_of_bounds_read debugged_heap this undefined_value 3 false = Ok h'
          ∧ load h' this
              = Ok (record (HeapObject 2%positive) (HeapObject 4%positive)
                      (HeapObject 6%positive))
          ∧ h' !! 6%positive
              = Some (DebugInfoCell
                        {| DebugInfo_script := undefined_value;
                           DebugInfo_HasBreakInfo := true;
                           OriginalBytecodeArray := None |})
          ∧ script h' this = Ok undefined_value
          ∧ HasBreakInfo true h' this = Ok true.
Proof.
  split; [reflexivity|]. eexists. split; [reflexivity|].
  apply (SetScript_keeps_debug_info true out_of_bounds_read debugged_heap _ this 6%positive
           (record (HeapObject 2%positive) (HeapObject 4%positive)
              (HeapObject 6%positive))
           {| DebugInfo_script := HeapObject 3%positive;
              DebugInfo_HasBreakInfo := true;
              OriginalBytecodeArray := None |}
           undefined_value 3 false);
    reflexivity.
Defined.

Lemma SetScript_rejects_unit_to_unit_witness :
  script two_unit_heap this = Ok (HeapObject 3%positive)
  ∧ IsScript two_unit_heap (HeapObject 3%positive) = true
  ∧ IsScript two_unit_heap (HeapObject 7%positive) = true
  ∧ SetScript true out_of_bounds_read two_unit_heap this (HeapObject 7%positive) 3 false = Fatal.
Proof.
  split; [reflexivity|]. split; [reflexivity|]. split; [reflexivity|].
  apply (SetScript_rejects_unit_to_unit true out_of_bounds_read two_unit_heap this
           (HeapObject 3%positive) (HeapObject 7%positive) 3 false);
    try reflexivity; discriminate.
Defined.

Lemma DiscardCompiled_leaves_lazy_record_witness :
  ∃ h',
    DiscardCompiled true kCompileLazy kNoSourcePosition compiled_heap this
      = Ok h'
    ∧ HasUncompiledDataWithoutPreparseData h' this = Ok true
    ∧ is_compiled kCompileLazy h' this = Ok false
    ∧ GetCode true builtin kInterpreterEntryTrampoline kInstantiateAsmJs
        kCompileLazy kHandleApiCall h' this = Ok (builtin kCompileLazy)
    ∧ CanDiscardCompiled h' this = Ok false
    ∧ (true = true →
       DiscardCompiled true kCompileLazy kNoSourcePosition h' this = Fatal).
Proof.
  eexists. split; [reflexivity|].
  apply (DiscardCompiled_leaves_lazy_record true builtin
           kInterpreterEntryTrampoline kInstantiateAsmJs kCompileLazy
           kHandleApiCall kNoSourcePosition compiled_heap _ this).
  reflexivity.
Defined.

Lemma DiscardCompiled_keeps_identity_witness :
  ∃ h',
    DiscardCompiled true kCompileLazy kNoSourcePosition compiled_heap this
      = Ok h'
    ∧ Hash true kCompileLazy kNoSourcePosition hash_combine h' this
        = Hash true kCompileLazy kNoSourcePosition hash_combine
            compiled_heap this
    ∧ script h' this = script compiled_heap this
    ∧ Name h' this = Name compiled_heap this
    ∧ DebugName true h' this = DebugName true compiled_heap this
    ∧ SourceSize true kCompileLazy kNoSourcePosition h' this
        = SourceSize true kCompileLazy kNoSourcePosition compiled_heap this.
Proof.
  eexists. split; [reflexivity|].
  apply (DiscardCompiled_keeps_identity true kCompileLazy kNoSourcePosition
           hash_combine compiled_heap _ this).
  reflexivity.
Defined.

Lemma DiscardCompiled_touches_record_and_summary_witness :
  load compiled_heap this = Ok compiled_record
  ∧ ∃ h',
      DiscardCompiled true kCompileLazy kNoSourcePosition compiled_heap this
        = Ok h'
      ∧ ∃ r',
          load h' this = Ok r'
          ∧ name_or_scope_info r' = name_or_scope_info compiled_record
          ∧ script_or_debug_info r' = script_or_debug_info compiled_record
          ∧ expected_nof_properties r'
              = expected_nof_properties compiled_record
          ∧ properties_are_final r' = properties_are_final compiled_record
          ∧ is_class_constructor r' = is_class_constructor compiled_record
          ∧ has_reported_binary_coverage r'
              = has_reported_binary_coverage compiled_record
          ∧ disable_optimization_reason r'
              = disable_optimization_reason compiled_record
          ∧ (∀ b c, compiled_heap !! b = Some c → b ≠ this →
                    function_data compiled_record ≠ HeapObject b →
                    h' !! b = Some c)
          ∧ (∀ b, compiled_heap !! b = None → is_Some (h' !! b) →
                  function_data r' = HeapObject b).
Proof.
  split; [reflexivity|]. eexists. split; [reflexivity|].
  apply (DiscardCompiled_touches_record_and_summary true kCompileLazy
           kNoSourcePosition compiled_heap _ this compiled_record);
    reflexivity.
Defined.

Lemma DiscardCompiledMetadata_idempotent_witness :
  ∃ h',
    DiscardCompiledMetadata true kCompileLazy compiled_heap this
      (λ _ _ h, Ok h) = Ok h'
    ∧ DiscardCompiledMetadata true kCompileLazy h' this (λ _ _ h, Ok h)
        = Ok h'.
Proof.
  eexists. split; [reflexivity|].
  apply (DiscardCompiledMetadata_idempotent true kCompileLazy compiled_heap
           _ this).
  reflexivity.
Defined.

Lemma SetScript_detached_record_has_no_unit_witness :
  IsScript compiled_heap undefined_value = false
  ∧ IsDebugInfo compiled_heap undefined_value = false
  ∧ ∃ h', SetScript true out_of_bounds_read compiled_heap this undefined_value 3 false = Ok h'
          ∧ GetInlineability true false 500 h' this = Ok kHasNoScript
          ∧ Hash true kCompileLazy kNoSourcePosition hash_combine h' this
              = (start_pos ← StartPosition true kCompileLazy
                               kNoSourcePosition h' this;
                 Ok (to_uint32 (hash_combine start_pos 0))).
Proof.
  split; [reflexivity|]. split; [reflexivity|].
  eexists. split; [reflexivity|].
  apply (SetScript_detached_record_has_no_unit true kCompileLazy
           kNoSourcePosition false 500 hash_combine out_of_bounds_read
           compiled_heap _ this undefined_value 3 false);
    reflexivity.
Defined.

Lemma DiscardCompiled_inlineability_witness :
  GetInlineability true false 500 compiled_heap this = Ok kIsInlineable
  ∧ ∃ h',
      DiscardCompiled true kCompileLazy kNoSourcePosition compiled_heap this
        = Ok h'
      ∧ GetInlineability true false 500 h' this = Ok kHasNoBytecode.
Proof.
  split; [reflexivity|]. eexists. split; [reflexivity|].
  apply (DiscardCompiled_inlineability true kCompileLazy kNoSourcePosition
           false 500 compiled_heap _ this kIsInlineable);
    [reflexivity|reflexivity|discriminate].
Defined.

Lemma SetPosition_last_write_wins_witness :
  ∃ h1, SetPosition true lazy_heap this 120 260 = Ok h1
        ∧ SetPosition true h1 this 10 20
            = SetPosition true lazy_heap this 10 20.
Proof.
  eexists. split; [reflexivity|].
  apply (SetPosition_last_write_wins true lazy_heap _ this 120 260 10 20).
  reflexivity.
Defined.

Lemma SetPosition_keeps_entry_point_and_names_witness :
  ∃ h', SetPosition true lazy_heap this 120 260 = Ok h'
        ∧ load h' this = load lazy_heap this
        ∧ GetCode true builtin kInterpreterEntryTrampoline kInstantiateAsmJs
            kCompileLazy kHandleApiCall h' this
          = GetCode true builtin kInterpreterEntryTrampoline
              kInstantiateAsmJs kCompileLazy kHandleApiCall lazy_heap this
        ∧ script h' this = script lazy_heap this
        ∧ Name h' this = Name lazy_heap this
        ∧ inferred_name true h' this = inferred_name true lazy_heap this
        ∧ DebugName true h' this = DebugName true lazy_heap this.
Proof.
  eexists. split; [reflexivity|].
  apply (SetPosition_keeps_entry_point_and_names true builtin
           kInterpreterEntryTrampoline kInstantiateAsmJs kCompileLazy
           kHandleApiCall lazy_heap _ this 120 260).
  reflexivity.
Defined.

Lemma Init_forgets_earlier_contents_witness :
  load builtin_heap this = Ok builtin_record
  ∧ ∃ h', Init kIllegal builtin_heap this 1 = Ok h'
          ∧ Init kIllegal (store builtin_heap this lazy_record) this 2 = Ok h'
          ∧ Init kIllegal h' this 2 = Ok h'
          ∧ ∀ b, b ≠ this → h' !! b = builtin_heap !! b.
Proof.
  split; [reflexivity|].
  apply (Init_forgets_earlier_contents kIllegal builtin_heap this
           builtin_record lazy_record 1 2).
  reflexivity.
Defined.

Lemma Init_record_reads_witness :
  kIllegal ≠ kCompileLazy
  ∧ ∃ h', Init kIllegal builtin_heap this 1 = Ok h'
          ∧ GetCode true builtin kInterpreterEntryTrampoline
              kInstantiateAsmJs kCompileLazy kHandleApiCall h' this
            = Ok (builtin kIllegal)
          ∧ is_compiled kCompileLazy h' this = Ok true
          ∧ CanDiscardCompiled h' this = Ok false
          ∧ StartPosition true kCompileLazy kNoSourcePosition h' this = Ok 0
          ∧ EndPosition true kCompileLazy kNoSourcePosition h' this = Ok 0
          ∧ SourceSize true kCompileLazy kNoSourcePosition h' this = Ok 0
          ∧ script h' this = Ok undefined_value
          ∧ Hash true kCompileLazy kNoSourcePosition hash_combine h' this
              = Ok (to_uint32 (hash_combine 0 0))
          ∧ DebugName true h' this = Ok EmptyString
          ∧ HasBreakInfo true h' this = Ok false
          ∧ GetInlineability true false 500 h' this = Ok kHasNoScript.
Proof.
  split; [discriminate|]. eexists. split; [reflexivity|].
  apply (Init_record_reads true builtin kInterpreterEntryTrampoline
           kInstantiateAsmJs kCompileLazy kHandleApiCall kNoSourcePosition
           false 500 hash_combine kIllegal builtin_heap _ this 1);
    [discriminate|reflexivity].
Defined.

Lemma DisableOptimization_disables_witness :
  kBailout 1 ≠ kNoReason
  ∧ load compiled_heap this = Ok compiled_record
  ∧ ∃ h',
      DisableOptimization true builtin kInterpreterEntryTrampoline
        kInstantiateAsmJs kCompileLazy kHandleApiCall Code_kind
        compiled_heap this (kBailout 1) = Ok h'
      ∧ h' = store compiled_heap this
               (with_flags compiled_record
                  (DisabledOptimizationReasonBits_update
                     (flags_of compiled_record) (kBailout 1)))
      ∧ optimization_disabled h' this = Ok true
      ∧ script h' this = script compiled_heap this
      ∧ GetInlineability true false 500 h' this
          = Ok (if bool_decide (source_unit compiled_heap compiled_record
                                = None)
                then kHasNoScript
                else if false
                        && negb (has_reported_binary_coverage compiled_record)
                     then kNeedsBinaryCoverage
                     else kHasOptimizationDisabled).
Proof.
  split; [discriminate|]. split; [reflexivity|].
  eexists. split; [reflexivity|].
  apply (DisableOptimization_disables true builtin
           kInterpreterEntryTrampoline kInstantiateAsmJs kCompileLazy
           kHandleApiCall false 500 Code_kind compiled_heap _ this
           compiled_record (kBailout 1));
    [discriminate|reflexivity|reflexivity].
Defined.

Lemma finalized_property_count_is_positive_witness :
  load class_constructor_heap this = Ok class_constructor_record
  ∧ are_properties_final class_constructor_heap this = Ok false
  ∧ ∃ h',
      UpdateAndFinalizeExpectedNofPropertiesFromEstimate true
        class_constructor_heap this (literal 0) = Ok h'
      ∧ ∃ count,
          1 ≤ count ≤ kMaxUInt8
          ∧ h' = store class_constructor_heap this
                   (if is_class_constructor class_constructor_record
                    then with_properties_are_final
                           (with_expected_nof_properties
                              class_constructor_record count) true
                    else with_expected_nof_properties
                           class_constructor_record count)
          ∧ are_properties_final h' this
              = Ok (is_class_constructor class_constructor_record)
          ∧ (is_class_constructor class_constructor_record = true →
             ∀ literal',
               (true = true → ShouldEagerCompile literal' = true) →
               UpdateAndFinalizeExpectedNofPropertiesFromEstimate true h'
                 this literal' = Ok h').
Proof.
  split; [reflexivity|]. split; [reflexivity|].
  eexists. split; [reflexivity|].
  apply (finalized_property_count_is_positive true class_constructor_heap _
           this class_constructor_record (literal 0));
    reflexivity.
Defined.
